(** * Object segmentation engine of the stamp cropper (useObjectSegmenter)

    A shallow embedding of [segmentImage]: alpha mask, two-pass dilation,
    breadth-first component labelling, noise filter, tight refit, padding and
    parity adjustment, and per-object extraction.

    Numbers are [Z]; typed arrays ([Uint8Array], [Uint8ClampedArray]) are
    [list Z] read and written by index: a read outside the array yields
    [None] (JavaScript's [undefined]) and a write outside it is ignored.
    [for] loops over a counter are left folds over [seqZ]. *)

From Stdlib Require Import ZArith Lia Bool String Ascii.
From stdpp Require Import base tactics option list list_numbers numbers relations strings pretty.

Local Open Scope Z_scope.

(** ** Typed arrays *)

Module TypedArray.

(** [new Uint8Array(n)]: [n] zero bytes. *)
Definition alloc (n : Z) : list Z := replicate (Z.to_nat n) 0.

(** [a[i]]: [None] stands for [undefined]. *)
Definition read (a : list Z) (i : Z) : option Z :=
  if 0 <=? i then a !! Z.to_nat i else None.

(** [a[i] = v]: ignored outside the array. *)
Definition write (a : list Z) (i : Z) (v : Z) : list Z :=
  if 0 <=? i then <[Z.to_nat i := v]> a else a.

(** [if (a[i])]: truthiness of an array read. *)
Definition truthy (o : option Z) : bool :=
  match o with Some v => negb (v =? 0) | None => false end.

(** [a[i] > n]: a comparison with [undefined] is false. *)
Definition gt (o : option Z) (n : Z) : bool :=
  match o with Some v => n <? v | None => false end.

(** [a[i] === n]. *)
Definition strictEq (o : option Z) (n : Z) : bool :=
  match o with Some v => v =? n | None => false end.

End TypedArray.

Import TypedArray.

(** ** Constants of the engine *)

Definition ALPHA_THRESHOLD : Z := 20.
Definition kernelSize : Z := 15.
Definition PADDING : Z := 10.

(** ** Records *)

(** The entries pushed to [objects]: an inclusive rectangle (their
    [pixels] field is always the empty array and is left out). *)
Record Region := mkRegion {
  minX : Z; minY : Z; maxX : Z; maxY : Z
}.

(** What one flood fill leaves behind: the running bounding rectangle and
    [componentPixels], in dequeue order. *)
Record Component := mkComponent {
  cMinX : Z; cMaxX : Z; cMinY : Z; cMaxY : Z;
  componentPixels : list Z
}.

(** The local variables of the [while (head < queue.length)] loop. *)
Record BfsState := mkBfs {
  queue : list Z;
  head : nat;
  visited : list Z;
  bMinX : Z; bMaxX : Z; bMinY : Z; bMaxY : Z;
  pixels : list Z
}.

(** The variables of the raster scan: [visited], [objects], and a ghost
    trace of the components in the order their flood fills finished. *)
Record ScanState := mkScan {
  sVisited : list Z;
  objects : list Region;
  trace : list Component
}.

(** ** Loops in the option monad (a flood fill may run out of fuel) *)

Fixpoint forM {S : Type} (body : S -> Z -> option S) (l : list Z) (s : S) : option S :=
  match l with
  | [] => Some s
  | i :: l' => match body s i with
               | Some s' => forM body l' s'
               | None => None
               end
  end.

Section Segmenter.

(** [imageBitmap.width], [imageBitmap.height] and [imageData.data]
    (RGBA, four bytes a pixel, row-major). *)
Variables (width height : Z) (data : list Z).

Definition getIdx (x y : Z) : Z := y * width + x.

(** *** 2. Binary map *)

Definition binaryMap : list Z :=
  foldl (fun bm i => if gt (read data (i * 4 + 3)) ALPHA_THRESHOLD then write bm i 1 else bm)
        (alloc (width * height)) (seqZ 0 (width * height)).

(** Pass 1: horizontal dilation. *)
Definition dilateRows (src : list Z) : list Z :=
  foldl (fun tm y =>
    foldl (fun tm x =>
      let idx := y * width + x in
      if truthy (read src idx) then
        let start := Z.max 0 (x - kernelSize) in
        let end_ := Z.min (width - 1) (x + kernelSize) in
        foldl (fun tm k => write tm (y * width + k) 1) tm (seqZ start (end_ - start + 1))
      else tm) tm (seqZ 0 width))
    (alloc (width * height)) (seqZ 0 height).

(** Pass 2: vertical dilation. *)
Definition dilateCols (tempMap : list Z) : list Z :=
  foldl (fun dm y =>
    foldl (fun dm x =>
      let idx := y * width + x in
      if truthy (read tempMap idx) then
        let start := Z.max 0 (y - kernelSize) in
        let end_ := Z.min (height - 1) (y + kernelSize) in
        foldl (fun dm k => write dm (k * width + x) 1) dm (seqZ start (end_ - start + 1))
      else dm) dm (seqZ 0 width))
    (alloc (width * height)) (seqZ 0 height).

Definition dilate (src : list Z) : list Z := dilateCols (dilateRows src).

Definition dilatedMap : list Z := dilate binaryMap.

(** *** 3. Connected component labelling *)

(** One neighbour of the dequeued pixel. *)
Definition visitNeighbor (dm : list Z) (vq : list Z * list Z) (n : Z * Z) : list Z * list Z :=
  let '(vis, q) := vq in
  let '(nx, ny) := n in
  if (0 <=? nx) && (nx <? width) && (0 <=? ny) && (ny <? height) then
    let nIdx := getIdx nx ny in
    if negb (truthy (read vis nIdx)) && strictEq (read dm nIdx) 1 then
      (write vis nIdx 1, q ++ [nIdx])
    else vq
  else vq.

Definition neighbors (cx cy : Z) : list (Z * Z) :=
  [(cx + 1, cy); (cx - 1, cy); (cx, cy + 1); (cx, cy - 1)].

(** One iteration of the [while] loop on the dequeued [currIdx]. *)
Definition bfsStep (dm : list Z) (st : BfsState) (currIdx : Z) : BfsState :=
  let cx := Z.rem currIdx width in
  let cy := currIdx / width in
  let '(vis, q) := foldl (visitNeighbor dm) (visited st, queue st) (neighbors cx cy) in
  {| queue := q;
     head := S (head st);
     visited := vis;
     bMinX := if cx <? bMinX st then cx else bMinX st;
     bMaxX := if bMaxX st <? cx then cx else bMaxX st;
     bMinY := if cy <? bMinY st then cy else bMinY st;
     bMaxY := if bMaxY st <? cy then cy else bMaxY st;
     pixels := pixels st ++ [currIdx] |}.

(** [while (head < queue.length) { ... }]; [None] when the fuel is spent
    before the loop condition fails. *)
Fixpoint bfsLoop (fuel : nat) (dm : list Z) (st : BfsState) : option BfsState :=
  match fuel with
  | O => None
  | S fuel' =>
      match queue st !! head st with
      | None => Some st
      | Some currIdx => bfsLoop fuel' dm (bfsStep dm st currIdx)
      end
  end.

(** The state the flood fill starts in at seed [(x, y)]. *)
Definition bfsInit (vis : list Z) (x y : Z) : BfsState :=
  let idx := getIdx x y in
  {| queue := [idx]; head := O; visited := write vis idx 1;
     bMinX := x; bMaxX := x; bMinY := y; bMaxY := y; pixels := [] |}.

Definition componentOf (st : BfsState) : Component :=
  {| cMinX := bMinX st; cMaxX := bMaxX st; cMinY := bMinY st; cMaxY := bMaxY st;
     componentPixels := pixels st |}.

(** *** Noise filter, tight refit, padding, parity *)

Definition areaBox (c : Component) : Z :=
  let widthBox := cMaxX c - cMinX c + 1 in
  let heightBox := cMaxY c - cMinY c + 1 in
  widthBox * heightBox.

Definition passesNoiseFilter (c : Component) : bool :=
  (900 <? areaBox c) || (200 <? Z.of_nat (length (componentPixels c))).

(** [rMinX, rMaxX, rMinY, rMaxY, hasContent]. *)
Record Refit := mkRefit {
  rMinX : Z; rMaxX : Z; rMinY : Z; rMaxY : Z; hasContent : bool
}.

Definition refitPixel (ry : Z) (r : Refit) (rx : Z) : Refit :=
  let rIdx := ry * width + rx in
  if gt (read data (rIdx * 4 + 3)) ALPHA_THRESHOLD then
    {| hasContent := true;
       rMinX := if rx <? rMinX r then rx else rMinX r;
       rMaxX := if rMaxX r <? rx then rx else rMaxX r;
       rMinY := if ry <? rMinY r then ry else rMinY r;
       rMaxY := if rMaxY r <? ry then ry else rMaxY r |}
  else r.

Definition tightRefit (c : Component) : Refit :=
  foldl (fun r ry =>
           foldl (refitPixel ry) r (seqZ (cMinX c) (cMaxX c - cMinX c + 1)))
        {| rMinX := width; rMaxX := 0; rMinY := height; rMaxY := 0; hasContent := false |}
        (seqZ (cMinY c) (cMaxY c - cMinY c + 1)).

(** Padding clamped to the image, then the parity adjustment. *)
Definition padRegion (r : Refit) : Region :=
  let fMinX := Z.max 0 (rMinX r - PADDING) in
  let fMinY := Z.max 0 (rMinY r - PADDING) in
  let fMaxX := Z.min (width - 1) (rMaxX r + PADDING) in
  let fMaxY := Z.min (height - 1) (rMaxY r + PADDING) in
  let boxWidth := fMaxX - fMinX + 1 in
  let boxHeight := fMaxY - fMinY + 1 in
  let '(fMinX, fMaxX) :=
    if negb (Z.rem boxWidth 2 =? 0) then
      if fMaxX <? width - 1 then (fMinX, fMaxX + 1)
      else if 0 <? fMinX then (fMinX - 1, fMaxX)
      else (fMinX, fMaxX)
    else (fMinX, fMaxX) in
  let '(fMinY, fMaxY) :=
    if negb (Z.rem boxHeight 2 =? 0) then
      if fMaxY <? height - 1 then (fMinY, fMaxY + 1)
      else if 0 <? fMinY then (fMinY - 1, fMaxY)
      else (fMinY, fMaxY)
    else (fMinY, fMaxY) in
  {| minX := fMinX; minY := fMinY; maxX := fMaxX; maxY := fMaxY |}.

(** What the scan does with a finished component: [Some] region pushed to
    [objects], or nothing. *)
Definition refineComponent (c : Component) : option Region :=
  if passesNoiseFilter c then
    let r := tightRefit c in
    if hasContent r then Some (padRegion r) else None
  else None.

(** *** The raster scan *)

Definition bfsFuel : nat := S (Z.to_nat (width * height)).

Definition scanPixel (dm : list Z) (y : Z) (st : ScanState) (x : Z) : option ScanState :=
  let idx := getIdx x y in
  if truthy (read (sVisited st) idx) || strictEq (read dm idx) 0 then Some st
  else
    match bfsLoop bfsFuel dm (bfsInit (sVisited st) x y) with
    | None => None
    | Some fin =>
        let c := componentOf fin in
        Some {| sVisited := visited fin;
                objects := match refineComponent c with
                           | Some r => objects st ++ [r]
                           | None => objects st
                           end;
                trace := trace st ++ [c] |}
    end.

Definition scanRow (dm : list Z) (st : ScanState) (y : Z) : option ScanState :=
  forM (scanPixel dm y) (seqZ 0 width) st.

Definition scan (dm : list Z) : option ScanState :=
  forM (scanRow dm) (seqZ 0 height)
       {| sVisited := alloc (width * height); objects := []; trace := [] |}.

(** The components of a mask, in the order the scan finishes them. *)
Definition labelComponents (dm : list Z) : option (list Component) :=
  trace <$> scan dm.

(** The [objects] array after step 3. *)
Definition segmentRegions : option (list Region) :=
  objects <$> scan dilatedMap.

End Segmenter.

(** ** 4. Extraction *)

(** The pixel buffer of an [OffscreenCanvas]. *)
Record Canvas := mkCanvas {
  canvasWidth : Z; canvasHeight : Z; canvasData : list Z
}.

Definition Blob : Type := list Z.

Module Obj.
(** [interface SegmentedObject]. *)
Record t := mk {
  id : string;
  sourceId : string;
  url : string;
  width : Z;
  height : Z;
  x : Z;
  y : Z
}.
End Obj.

(** What the host decides during one call: whether a 2d context is handed
    out, whether [convertToBlob] resolves, which URL [createObjectURL]
    mints and what [Date.now()] reads, for the main canvas and for the
    callback of each index. *)
Record Host := mkHost {
  mainContext : bool;
  objContext : nat -> bool;
  convertToBlob : nat -> Canvas -> option Blob;
  createObjectURL : nat -> Blob -> string;
  now : nat -> Z
}.

Section Extractor.

Variables (width height : Z) (data : list Z).

(** The byte of channel [c] of the source pixel [(sx, sy)]; transparent
    black outside the bitmap. *)
Definition sourceByte (sx sy c : Z) : Z :=
  if (0 <=? sx) && (sx <? width) && (0 <=? sy) && (sy <? height) then
    default 0 (read data ((sy * width + sx) * 4 + c))
  else 0.

(** [new OffscreenCanvas(w, h)] followed by
    [drawImage(imageBitmap, sx, sy, w, h, 0, 0, w, h)]: an unscaled copy
    of the source rectangle, byte [p] of the canvas being channel
    [p mod 4] of the canvas pixel [p / 4]. *)
Definition drawImage (sx sy w h : Z) : Canvas :=
  {| canvasWidth := w; canvasHeight := h;
     canvasData :=
       (fun p => let px := p / 4 in
                 sourceByte (sx + px `mod` w) (sy + px / w) (p `mod` 4))
         <$> seqZ 0 (w * h * 4) |}.

Definition renderObject (obj : Region) : Canvas :=
  let objWidth := maxX obj - minX obj + 1 in
  let objHeight := maxY obj - minY obj + 1 in
  drawImage (minX obj) (minY obj) objWidth objHeight.

(** [`obj-${sourceId}-${index}-${Date.now()}`]. *)
Definition objId (sourceId : string) (index : nat) (stamp : Z) : string :=
  "obj-" +:+ sourceId +:+ "-" +:+ pretty index +:+ "-" +:+ pretty stamp.

(** The callback of [objects.map]; [None] when it throws or rejects. *)
Definition extractObject (host : Host) (sourceId : string) (index : nat) (obj : Region)
  : option Obj.t :=
  let objWidth := maxX obj - minX obj + 1 in
  let objHeight := maxY obj - minY obj + 1 in
  if objContext host index then
    match convertToBlob host index (renderObject obj) with
    | Some blob =>
        Some {| Obj.id := objId sourceId index (now host index);
                Obj.sourceId := sourceId;
                Obj.url := createObjectURL host index blob;
                Obj.width := objWidth;
                Obj.height := objHeight;
                Obj.x := minX obj;
                Obj.y := minY obj |}
    | None => None
    end
  else None.

(** [await Promise.all(objects.map(...))]: every callback's value, or a
    rejection when one of them rejects. *)
Definition extractAll (host : Host) (sourceId : string) (objs : list Region)
  : option (list Obj.t) :=
  mapM (fun f => f) (imap (extractObject host sourceId) objs).

(** [segmentImage]: whatever is thrown inside [try] is caught and the
    empty array returned. The outer [None] is only the flood fill's fuel. *)
Definition segmentImage (host : Host) (sourceId : string) : option (list Obj.t) :=
  if mainContext host then
    match segmentRegions width height data with
    | Some objs =>
        Some (match extractAll host sourceId objs with
              | Some results => results
              | None => []
              end)
    | None => None
    end
  else Some [].

End Extractor.

(** ** Test bitmaps *)

(** A [w] by [h] bitmap, opaque black at the listed pixels and transparent
    elsewhere. *)
Definition stencil (w h : Z) (opaque : list (Z * Z)) : list Z :=
  i ← seqZ 0 (w * h);
  [0; 0; 0; if bool_decide ((i `mod` w, i / w) ∈ opaque) then 255 else 0].

(** A host on which nothing fails. *)
Definition testHost : Host := {|
  mainContext := true; objContext := fun _ => true;
  convertToBlob := fun _ cv => Some (canvasData cv);
  createObjectURL := fun i _ => "blob:" +:+ pretty i;
  now := fun _ => 1700000000000 |}.

(** ** Specification-side definitions and invariants *)

Definition isOne (a : list Z) (j : Z) : Prop := read a j = Some 1.
Definition bits (a : list Z) : Prop := forall j v, read a j = Some v -> v = 0 \/ v = 1.
Definition paints (f : list Z -> list Z) (P : Z -> Prop) : Prop :=
  forall a, length (f a) = length a /\ (bits a -> bits (f a)) /\
            forall j, isOne (f a) j <-> isOne a j \/ (0 <= j < Z.of_nat (length a) /\ P j).

Definition chebyshev (x y qx qy : Z) : Z := Z.max (Z.abs (x - qx)) (Z.abs (y - qy)).

(** Direct 2D dilation as the specification words it: a pixel is set iff
    some foreground pixel of the mask lies within Chebyshev distance [R]. *)
Definition boxDilate (width height R : Z) (src : list Z) : list Z :=
  (fun p =>
     if existsb (fun q => truthy (read src q) &&
                          (chebyshev (p `mod` width) (p / width) (q `mod` width) (q / width) <=? R))
                (seqZ 0 (width * height))
     then 1 else 0) <$> seqZ 0 (width * height).

(** What holds of [visited] and [queue] throughout one flood fill that
    started from [seed] with the visited array [vis0]. *)
Record FillInv (width height : Z) (dm vis0 : list Z) (seed : Z) (vis q : list Z) : Prop := {
  fi_len : length vis = length vis0;
  fi_nodup : NoDup q;
  fi_range : forall p, p ∈ q ->
      0 <= p < width * height /\ truthy (read vis0 p) = false /\
      (p = seed \/ strictEq (read dm p) 1 = true);
  fi_vis : forall j, truthy (read vis j) = true <-> truthy (read vis0 j) = true \/ j ∈ q
}.

Definition boxInBounds (width height x0 x1 y0 y1 : Z) : Prop :=
  0 <= x0 /\ x0 <= x1 /\ x1 < width /\ 0 <= y0 /\ y0 <= y1 /\ y1 < height.

Record BfsInv (width height : Z) (dm vis0 : list Z) (seed : Z) (st : BfsState) : Prop := {
  bi_fill : FillInv width height dm vis0 seed (visited st) (queue st);
  bi_head : (head st <= length (queue st))%nat;
  bi_pixels : pixels st = take (head st) (queue st);
  bi_seed : queue st !! 0%nat = Some seed;
  bi_box : boxInBounds width height (bMinX st) (bMaxX st) (bMinY st) (bMaxY st)
}.

Definition firstPixel (c : Component) : Z := default 0 (List.head (componentPixels c)).

Definition allPixels (cs : list Component) : list Z := cs ≫= componentPixels.

(** What holds of a component found after the components [earlier]. *)
Record CompOk (width height : Z) (dm : list Z) (earlier : list Component) (c : Component)
  : Prop := {
  co_first : exists rest, componentPixels c = firstPixel c :: rest /\
                          forall p, p ∈ rest -> strictEq (read dm p) 1 = true;
  co_range : forall p, p ∈ componentPixels c -> firstPixel c <= p < width * height;
  co_pos : 0 <= firstPixel c;
  co_fg : strictEq (read dm (firstPixel c)) 0 = false;
  co_earliest : forall p, 0 <= p < firstPixel c ->
      strictEq (read dm p) 0 = true \/ p ∈ allPixels earlier;
  co_box : boxInBounds width height (cMinX c) (cMaxX c) (cMinY c) (cMaxY c)
}.

(** What holds of the scan once every pixel of raster index below [k] has
    been looked at. *)
Record ScanInv (width height : Z) (data dm : list Z) (k : Z) (st : ScanState) : Prop := {
  si_len : length (sVisited st) = Z.to_nat (width * height);
  si_done : forall j, 0 <= j < k ->
      truthy (read (sVisited st) j) = true \/ strictEq (read dm j) 0 = true;
  si_vis : forall j, truthy (read (sVisited st) j) = true <-> j ∈ allPixels (trace st);
  si_nodup : NoDup (allPixels (trace st));
  si_objects : objects st = omap (refineComponent width height data) (trace st);
  si_comps : forall i c, trace st !! i = Some c ->
      CompOk width height dm (take i (trace st)) c /\ firstPixel c < k;
  si_sorted : forall i j ci cj, (i < j)%nat ->
      trace st !! i = Some ci -> trace st !! j = Some cj -> firstPixel ci < firstPixel cj
}.

(** Row-major order on raster indices: an earlier row, or the same row and
    further left. *)
Definition rasterBefore (width p q : Z) : Prop :=
  p / width < q / width \/ (p / width = q / width /\ p `mod` width < q `mod` width).

(** A 3 by 2 mask with two components. *)
Definition sampleMask : list Z := [1; 0; 1; 1; 0; 0].

(** The pixel [(x, y)] of the original bitmap has alpha above the threshold. *)
Definition hasAlpha (width : Z) (data : list Z) (x y : Z) : Prop :=
  gt (read data ((y * width + x) * 4 + 3)) ALPHA_THRESHOLD = true.

Definition inBox (c : Component) (x y : Z) : Prop :=
  cMinX c <= x <= cMaxX c /\ cMinY c <= y <= cMaxY c.

(** [r] is the least rectangle around the pixels of [cells] that have alpha
    above the threshold: it contains them all and each of its four edges
    touches one. *)
Record TightOn (width : Z) (data : list Z) (cells : list (Z * Z)) (r : Refit) : Prop := {
  to_encloses : forall x y, (x, y) ∈ cells -> hasAlpha width data x y ->
      rMinX r <= x <= rMaxX r /\ rMinY r <= y <= rMaxY r;
  to_left : exists y, (rMinX r, y) ∈ cells /\ hasAlpha width data (rMinX r) y;
  to_right : exists y, (rMaxX r, y) ∈ cells /\ hasAlpha width data (rMaxX r) y;
  to_top : exists x, (x, rMinY r) ∈ cells /\ hasAlpha width data x (rMinY r);
  to_bottom : exists x, (x, rMaxY r) ∈ cells /\ hasAlpha width data x (rMaxY r)
}.

Definition boxCells (c : Component) : list (Z * Z) :=
  ry ← seqZ (cMinY c) (cMaxY c - cMinY c + 1);
  (fun rx => (rx, ry)) <$> seqZ (cMinX c) (cMaxX c - cMinX c + 1).

(** [r] is the minimal rectangle around the pixels with alpha above the
    threshold inside the bounding box of [c]. *)
Record MinimalEnclosing (width : Z) (data : list Z) (c : Component) (r : Refit) : Prop := {
  me_encloses : forall x y, inBox c x y -> hasAlpha width data x y ->
      rMinX r <= x <= rMaxX r /\ rMinY r <= y <= rMaxY r;
  me_left : exists y, inBox c (rMinX r) y /\ hasAlpha width data (rMinX r) y;
  me_right : exists y, inBox c (rMaxX r) y /\ hasAlpha width data (rMaxX r) y;
  me_top : exists x, inBox c x (rMinY r) /\ hasAlpha width data x (rMinY r);
  me_bottom : exists x, inBox c x (rMaxY r) /\ hasAlpha width data x (rMaxY r)
}.

Definition regionInBounds (width height : Z) (R : Region) : Prop :=
  0 <= minX R /\ minX R <= maxX R /\ maxX R < width /\
  0 <= minY R /\ minY R <= maxY R /\ maxY R < height.

Definition regionWidth (R : Region) : Z := maxX R - minX R + 1.
Definition regionHeight (R : Region) : Z := maxY R - minY R + 1.

(** A 15 by 15 bitmap with a single opaque pixel in the middle. *)
Definition dot15 : list Z := stencil 15 15 [(7, 7)].

(** [o] carries the position and dimensions of the region [R]. *)
Definition placedAt (R : Region) (o : Obj.t) : Prop :=
  Obj.x o = minX R /\ Obj.y o = minY R /\
  Obj.width o = regionWidth R /\ Obj.height o = regionHeight R.

(** The callback of index [i] throws or rejects on the region [R]: no 2d
    context is handed out, or the raster is not encoded. *)
Definition extractionFailsAt (width height : Z) (data : list Z) (host : Host)
    (i : nat) (R : Region) : Prop :=
  objContext host i = false \/
  convertToBlob host i (renderObject width height data R) = None.

(** Nothing fails during a call: the main canvas gets its context, and
    every region gets a context and an encoded raster. *)
Definition extractionPasses (width height : Z) (data : list Z) (host : Host)
    (regions : list Region) : Prop :=
  mainContext host = true /\
  forall i R, regions !! i = Some R ->
    objContext host i = true /\
    is_Some (convertToBlob host i (renderObject width height data R)).

(** The object built for the region [R] at index [i] from the blob [blob]. *)
Definition objectOf (host : Host) (sid : string) (i : nat) (R : Region) (blob : Blob) : Obj.t :=
  {| Obj.id := objId sid i (now host i);
     Obj.sourceId := sid;
     Obj.url := createObjectURL host i blob;
     Obj.width := regionWidth R;
     Obj.height := regionHeight R;
     Obj.x := minX R;
     Obj.y := minY R |}.

(** A 54 by 11 bitmap with two opaque pixels 47 columns apart. *)
Definition twoDots : list Z := stencil 54 11 [(3, 5); (50, 5)].

(** A host whose encoder rejects the raster of the first object only. *)
Definition firstEncodeFails : Host := {|
  mainContext := true; objContext := fun _ => true;
  convertToBlob := fun i cv => if bool_decide (i = 0%nat) then None else Some (canvasData cv);
  createObjectURL := fun i _ => "blob:" +:+ pretty i;
  now := fun _ => 1700000000000 |}.

(** A host that hands out no 2d context for the second object. *)
Definition secondContextMissing : Host := {|
  mainContext := true; objContext := fun i => bool_decide (i <> 1%nat);
  convertToBlob := fun _ cv => Some (canvasData cv);
  createObjectURL := fun i _ => "blob:" +:+ pretty i;
  now := fun _ => 1700000000000 |}.

(** A second host: other clock readings and other URLs. *)
Definition laterHost : Host := {|
  mainContext := true; objContext := fun _ => true;
  convertToBlob := fun _ cv => Some (canvasData cv);
  createObjectURL := fun i _ => "blob:later-" +:+ pretty i;
  now := fun i => 1700000000999 + Z.of_nat i |}.

(** [p] and [q] are pixels of the image that share an edge. *)
Definition adjacent (width height p q : Z) : Prop :=
  0 <= p < width * height /\ 0 <= q < width * height /\
  ((q `mod` width = p `mod` width + 1 /\ q / width = p / width) \/
   (q `mod` width = p `mod` width - 1 /\ q / width = p / width) \/
   (q `mod` width = p `mod` width /\ q / width = p / width + 1) \/
   (q `mod` width = p `mod` width /\ q / width = p / width - 1)).

(** One flood-fill move: to an edge neighbour with mask value 1 that lies
    in [region]. *)
Definition fillStep (width height : Z) (dm region : list Z) (a b : Z) : Prop :=
  adjacent width height a b /\ strictEq (read dm b) 1 = true /\ b ∈ region.

(** [lo, hi] bounds the values [f p] over [ps] and both ends are taken. *)
Definition spans (f : Z -> Z) (ps : list Z) (lo hi : Z) : Prop :=
  (forall p, p ∈ ps -> lo <= f p <= hi) /\
  (exists p, p ∈ ps /\ f p = lo) /\ (exists p, p ∈ ps /\ f p = hi).

(** Connectivity, neighbour coverage and the running rectangle during one
    flood fill from [seed]. *)
Record BfsShape (width height : Z) (dm : list Z) (seed : Z) (st : BfsState) : Prop := {
  bs_conn : forall p, p ∈ queue st ->
      rtc (fillStep width height dm (queue st)) seed p;
  bs_covered : forall p q, p ∈ take (head st) (queue st) ->
      adjacent width height p q -> strictEq (read dm q) 1 = true ->
      truthy (read (visited st) q) = true;
  bs_spanX : spans (fun p => p `mod` width) (seed :: take (head st) (queue st))
                   (bMinX st) (bMaxX st);
  bs_spanY : spans (fun p => p / width) (seed :: take (head st) (queue st))
                   (bMinY st) (bMaxY st)
}.

(** The shape of a finished component. *)
Record CompShape (width height : Z) (dm : list Z) (c : Component) : Prop := {
  cs_conn : forall p, p ∈ componentPixels c ->
      rtc (fillStep width height dm (componentPixels c)) (firstPixel c) p;
  cs_spanX : spans (fun p => p `mod` width) (componentPixels c) (cMinX c) (cMaxX c);
  cs_spanY : spans (fun p => p / width) (componentPixels c) (cMinY c) (cMaxY c)
}.

(** A mask as the dilation produces it: one 0/1 entry per pixel. *)
Definition maskOk (width height : Z) (dm : list Z) : Prop :=
  length dm = Z.to_nat (width * height) /\ bits dm.

(** No flood-fill move leads out of the component. *)
Definition closedComponent (width height : Z) (dm : list Z) (c : Component) : Prop :=
  forall p q, p ∈ componentPixels c -> adjacent width height p q ->
              strictEq (read dm q) 1 = true -> q ∈ componentPixels c.

(** Every finished component has its shape, and on a well-formed mask none
    can be left by a flood-fill move. *)
Definition ScanShape (width height : Z) (dm : list Z) (st : ScanState) : Prop :=
  (forall c, c ∈ trace st -> CompShape width height dm c) /\
  (maskOk width height dm -> forall c, c ∈ trace st -> closedComponent width height dm c).

(** A move to an edge neighbour with mask value 1, anywhere in the image. *)
Definition maskStep (width height : Z) (dm : list Z) (a b : Z) : Prop :=
  adjacent width height a b /\ strictEq (read dm b) 1 = true.


(** No character of the string is a dash. *)
Fixpoint dashFree (s : string) : Prop :=
  match s with
  | EmptyString => True
  | String ch s' => ch <> "-"%char /\ dashFree s'
  end.

(** ** Pixel loops of the worker and of the stamp editor *)

(** What a [Uint8ClampedArray] keeps of a number. *)
Definition clamp8 (v : Z) : Z := Z.max 0 (Z.min 255 v).

(** [a[i] = o] on a [Uint8ClampedArray]; [undefined] is stored as 0. *)
Definition store (a : list Z) (i : Z) (o : option Z) : list Z :=
  write a i (clamp8 (default 0 o)).

(** The number of rounds of [for (let i = 0; i < len; i += 4)]; round [k]
    has [i = k * 4]. *)
Definition pixelRounds (len : Z) : Z := (len + 3) / 4.

(** Background-removal worker: the mask's first channel becomes the alpha
    channel of the original. *)
Definition applyMask (originalData maskData : list Z) : list Z :=
  foldl (fun od k =>
           let i := k * 4 in
           let alpha := read maskData i in
           store od (i + 3) alpha)
        originalData (seqZ 0 (pixelRounds (Z.of_nat (length originalData)))).

(** Stamp editor, [init]: every pixel with some alpha becomes opaque white,
    every other one transparent black. *)
Definition initMask (idata : list Z) : list Z :=
  foldl (fun d k =>
           let i := k * 4 in
           if gt (read d (i + 3)) 0 then
             write (write (write (write d i 255) (i + 1) 255) (i + 2) 255) (i + 3) 255
           else
             write (write (write (write d i 0) (i + 1) 0) (i + 2) 0) (i + 3) 0)
        idata (seqZ 0 (pixelRounds (Z.of_nat (length idata)))).

(** A 2-pixel image and a 2-pixel mask. *)
Definition twoPixels : list Z := [10; 20; 30; 255; 40; 50; 60; 255].
Definition twoMasks : list Z := [200; 200; 200; 255; 7; 7; 7; 255].

(** ** The editor component *)

(** A JavaScript [Map] with string keys: its entries in insertion order. *)
Definition JsMap (V : Type) : Type := list (string * V).

(** [m.get(k)]. *)
Definition mapGet {V} (m : JsMap V) (k : string) : option V :=
  snd <$> List.find (fun e => bool_decide (fst e = k)) m.

(** [m.set(k, v)]: a present key keeps its place, a new one goes last. *)
Fixpoint mapSet {V} (m : JsMap V) (k : string) (v : V) : JsMap V :=
  match m with
  | [] => [(k, v)]
  | (k', v') :: m' => if bool_decide (k' = k) then (k, v) :: m' else (k', v') :: mapSet m' k v
  end.

(** [Array.from(m.keys())]. *)
Definition mapKeys {V} (m : JsMap V) : list string := fst <$> m.

Module Editor.

(** The component's state: [segments], [selectedId], [editingSegment]. *)
Record State := mkState {
  segments : list Obj.t;
  selectedId : option string;
  editingSegment : option Obj.t
}.

(** [segments.find(s => s.id === selectedId)]. *)
Definition selectedSegment (st : State) : option Obj.t :=
  match selectedId st with
  | Some id => List.find (fun s => bool_decide (Obj.id s = id)) (segments st)
  | None => None
  end.

Definition currentSourceId (sourceImages : JsMap string) (st : State) : option string :=
  match selectedSegment st with
  | Some s => Some (Obj.sourceId s)
  | None => List.head (mapKeys sourceImages)
  end.

(** [segments.filter(s => s.sourceId === currentSourceId)]. *)
Definition currentViewSegments (sourceImages : JsMap string) (st : State) : list Obj.t :=
  filter (fun s => Some (Obj.sourceId s) = currentSourceId sourceImages st) (segments st).

Definition handleRemove (id : string) (st : State) : State :=
  let newSegments := filter (fun s => Obj.id s <> id) (segments st) in
  {| segments := newSegments;
     selectedId := if bool_decide (selectedId st = Some id) then None else selectedId st;
     editingSegment := editingSegment st |}.

Definition handleEdit (seg : Obj.t) (st : State) : State :=
  {| segments := segments st; selectedId := selectedId st; editingSegment := Some seg |}.

(** [{ ...s, url: newUrl }]. *)
Definition withUrl (s : Obj.t) (newUrl : string) : Obj.t :=
  {| Obj.id := Obj.id s; Obj.sourceId := Obj.sourceId s; Obj.url := newUrl;
     Obj.width := Obj.width s; Obj.height := Obj.height s;
     Obj.x := Obj.x s; Obj.y := Obj.y s |}.

Definition handleSaveEdit (newUrl : string) (st : State) : State :=
  match editingSegment st with
  | None => st
  | Some e =>
      {| segments := (fun s => if bool_decide (Obj.id s = Obj.id e)
                               then withUrl s newUrl else s) <$> segments st;
         selectedId := selectedId st;
         editingSegment := None |}
  end.

(** The names [handleExportAll] files the stamps under. *)
Definition exportNames (segs : list Obj.t) : list string :=
  imap (fun index _ => "stamp-" +:+ pretty (index + 1)%nat +:+ ".png") segs.

(** A selection, if there is one, names a segment that is present. *)
Definition selectionOk (st : State) : Prop :=
  forall id, selectedId st = Some id -> exists s, s ∈ segments st /\ Obj.id s = id.

End Editor.

Definition stampA : Obj.t :=
  {| Obj.id := "obj-a-0-1"; Obj.sourceId := "a"; Obj.url := "blob:0";
     Obj.width := 14; Obj.height := 12; Obj.x := 0; Obj.y := 0 |}.
Definition stampB : Obj.t :=
  {| Obj.id := "obj-b-0-2"; Obj.sourceId := "b"; Obj.url := "blob:1";
     Obj.width := 20; Obj.height := 20; Obj.x := 4; Obj.y := 6 |}.
Definition editorSample : Editor.State :=
  {| Editor.segments := [stampA; stampB]; Editor.selectedId := Some "obj-b-0-2";
     Editor.editingSegment := Some stampB |}.

(** An [ImageBitmap] as the segmenter reads it. *)
Record Bitmap := mkBitmap {
  bmWidth : N; bmHeight : N; bmData : list Z
}.

Definition dotBitmap : Bitmap := {| bmWidth := 15; bmHeight := 15; bmData := dot15 |}.

(** ** The background-removal hook *)

Module BgRemoval.

Inductive ProcessStatus := idle | loading | downloading | processing | complete | error.

Section Hook.
(** JavaScript numbers stay abstract: only their truthiness and the
    constant 100 are used. *)
Variables (Num : Type) (numTruthy : Num -> bool) (hundred : Num).

(** [event.data]: [{ type: 'status', data: { status, progress } }],
    [{ type: 'complete', data: { bitmap } }], [{ type: 'error', data }],
    or a message of another type. *)
Inductive Message :=
| StatusMsg (status : string) (progress : option Num)
| CompleteMsg (bitmap : Bitmap)
| ErrorMsg (data : string)
| OtherMsg (type : string).

(** [status] and [progress]. *)
Record State := mkState { status : ProcessStatus; progress : Num }.

(** [worker.onmessage]. *)
Definition onmessage (st : State) (msg : Message) : State :=
  match msg with
  | StatusMsg s p =>
      if bool_decide (s = "downloading") then
        {| status := downloading;
           progress := match p with
                       | Some v => if numTruthy v then v else progress st
                       | None => progress st
                       end |}
      else if bool_decide (s = "processing") then
        {| status := processing; progress := hundred |}
      else st
  | CompleteMsg _ => {| status := complete; progress := progress st |}
  | ErrorMsg _ => {| status := error; progress := progress st |}
  | OtherMsg _ => st
  end.

(** The promise of [processImage]. *)
Inductive Promise := Pending | Resolved (bitmap : Bitmap) | Rejected (data : string).

(** The listener [onMessage] of one [processImage] call: whether it is
    still registered, and the promise. *)
Definition onMessage (lp : bool * Promise) (msg : Message) : bool * Promise :=
  let '(listening, p) := lp in
  if listening then
    match msg with
    | CompleteMsg b => (false, Resolved b)
    | ErrorMsg d => (false, Rejected d)
    | _ => lp
    end
  else lp.

(** [processImage] with a worker, seen through the messages that
    arrive after [postMessage]. *)
Definition processImage (msgs : list Message) : Promise :=
  snd (foldl onMessage (true, Pending) msgs).

(** The first message that settles a promise. *)
Definition settles (msg : Message) : bool :=
  match msg with CompleteMsg _ | ErrorMsg _ => true | _ => false end.

End Hook.

End BgRemoval.

(** ** The application shell: batch processing of dropped files *)

Inductive Screen := upload | processing | editor.

Module App.

(** [sourceImages], [processedBitmaps], [allSegments], [appState],
    [currentFileIndex], [totalFiles]. *)
Record State := mkState {
  sourceImages : JsMap string;
  processedBitmaps : JsMap Bitmap;
  allSegments : list Obj.t;
  appState : Screen;
  currentFileIndex : Z;
  totalFiles : Z
}.

(** What the browser and the worker decide for the file of each index:
    the UUID, the blob URL, how the promise of [processImage(url)] stands
    for good (resolved, rejected, or pending for ever when the worker
    posts neither 'complete' nor 'error'), and the host of the
    segmentation call. *)
Record FileHost := mkFileHost {
  randomUUID : nat -> string;
  fileURL : nat -> string;
  processImage : nat -> string -> BgRemoval.Promise;
  segmentHost : nat -> Host
}.

(** [newSourceImages], [newProcessedBitmaps], [newSegments]. *)
Record Batch := mkBatch {
  newSourceImages : JsMap string;
  newProcessedBitmaps : JsMap Bitmap;
  newSegments : list Obj.t
}.

(** One round of the [for] loop: it goes on to the next file, throws, or
    stays at [await processImage(url)]. *)
Inductive Round := Continues (acc : Batch) | Throws (acc : Batch) | Waits (acc : Batch).

(** How the [for] loop stands once nothing more happens: it ran through,
    threw at a file index, or is still awaiting at one. *)
Inductive Ending := Finished | Threw (i : nat) | Stuck (i : nat).

(** The body of the loop for file [i]. The outer [None] is only the
    flood fill's fuel. *)
Definition processFile (host : FileHost) (i : nat) (acc : Batch) : option Round :=
  let sourceId := randomUUID host i in
  let url := fileURL host i in
  let srcs := mapSet (newSourceImages acc) sourceId url in
  match processImage host i url with
  | BgRemoval.Pending =>
      Some (Waits {| newSourceImages := srcs;
                     newProcessedBitmaps := newProcessedBitmaps acc;
                     newSegments := newSegments acc |})
  | BgRemoval.Rejected _ =>
      Some (Throws {| newSourceImages := srcs;
                      newProcessedBitmaps := newProcessedBitmaps acc;
                      newSegments := newSegments acc |})
  | BgRemoval.Resolved bitmap =>
      let bms := mapSet (newProcessedBitmaps acc) sourceId bitmap in
      match segmentImage (Z.of_N (bmWidth bitmap)) (Z.of_N (bmHeight bitmap))
                         (bmData bitmap) (segmentHost host i) sourceId with
      | Some segs =>
          Some (Continues {| newSourceImages := srcs; newProcessedBitmaps := bms;
                             newSegments := newSegments acc ++ segs |})
      | None => None
      end
  end.

(** [for (let i = 0; i < files.length; i++)] from index [i] on, with
    [n] files left. *)
Fixpoint runBatch (host : FileHost) (i n : nat) (acc : Batch) : option (Batch * Ending) :=
  match n with
  | O => Some (acc, Finished)
  | S n' =>
      match processFile host i acc with
      | None => None
      | Some (Continues acc') => runBatch host (S i) n' acc'
      | Some (Throws acc') => Some (acc', Threw i)
      | Some (Waits acc') => Some (acc', Stuck i)
      end
  end.

(** What a call of [handleFiles] comes to: it has returned, leaving the
    state [st], or it never gets past an [await], the state standing
    at [st]. *)
Inductive Outcome := Returned (st : State) | Awaiting (st : State).

Definition lastState (out : Outcome) : State :=
  match out with Returned st | Awaiting st => st end.

(** [handleFiles], as the state it leaves once all its updates are in. *)
Definition handleFiles (host : FileHost) (files : nat) (st : State) : option Outcome :=
  if (files =? 0)%nat then Some (Returned st)
  else
    match runBatch host 0 files
            {| newSourceImages := sourceImages st;
               newProcessedBitmaps := processedBitmaps st;
               newSegments := allSegments st |} with
    | None => None
    | Some (acc, Finished) =>
        Some (Returned
                {| sourceImages := newSourceImages acc;
                   processedBitmaps := newProcessedBitmaps acc;
                   allSegments := newSegments acc;
                   appState := editor;
                   currentFileIndex := Z.of_nat files;
                   totalFiles := Z.of_nat files |})
    | Some (acc, Threw i) =>
        if (0 <? length (newSegments acc))%nat then
          Some (Returned
                  {| sourceImages := newSourceImages acc;
                     processedBitmaps := newProcessedBitmaps acc;
                     allSegments := newSegments acc;
                     appState := editor;
                     currentFileIndex := Z.of_nat i + 1;
                     totalFiles := Z.of_nat files |})
        else
          Some (Returned
                  {| sourceImages := sourceImages st;
                     processedBitmaps := processedBitmaps st;
                     allSegments := allSegments st;
                     appState := upload;
                     currentFileIndex := Z.of_nat i + 1;
                     totalFiles := Z.of_nat files |})
    | Some (_, Stuck i) =>
        Some (Awaiting
                {| sourceImages := sourceImages st;
                   processedBitmaps := processedBitmaps st;
                   allSegments := allSegments st;
                   appState := processing;
                   currentFileIndex := Z.of_nat i + 1;
                   totalFiles := Z.of_nat files |})
    end.

(** [reset]. *)
Definition reset (st : State) : State :=
  {| sourceImages := []; processedBitmaps := []; allSegments := [];
     appState := upload;
     currentFileIndex := currentFileIndex st; totalFiles := totalFiles st |}.

(** Every segment's source has its original image and its bitmap on
    record: what the editor looks up by [sourceId] is there. *)
Definition segmentsLinked (srcs : JsMap string) (bms : JsMap Bitmap) (segs : list Obj.t)
  : Prop :=
  forall s, s ∈ segs ->
    is_Some (mapGet srcs (Obj.sourceId s)) /\ is_Some (mapGet bms (Obj.sourceId s)).

End App.

(** A host where the second file's background removal fails. *)
Definition secondFileFails : App.FileHost := {|
  App.randomUUID := fun i => "uuid-" +:+ pretty i;
  App.fileURL := fun i => "blob:file-" +:+ pretty i;
  App.processImage := fun i _ =>
    if bool_decide (i = 1%nat) then BgRemoval.Rejected "failed" else BgRemoval.Resolved dotBitmap;
  App.segmentHost := fun _ => testHost |}.

(** A host where the worker never answers for the second file. *)
Definition secondFileHangs : App.FileHost := {|
  App.randomUUID := fun i => "uuid-" +:+ pretty i;
  App.fileURL := fun i => "blob:file-" +:+ pretty i;
  App.processImage := fun i _ =>
    if bool_decide (i = 1%nat) then BgRemoval.Pending else BgRemoval.Resolved dotBitmap;
  App.segmentHost := fun _ => testHost |}.

Definition freshApp : App.State := {|
  App.sourceImages := []; App.processedBitmaps := []; App.allSegments := [];
  App.appState := upload; App.currentFileIndex := 0; App.totalFiles := 0 |}.

(** ** Typed-array facts *)

Section ArrayFacts.
Implicit Types (a : list Z) (i j v : Z).

Lemma length_alloc n : length (alloc n) = Z.to_nat n.
Proof. apply length_replicate. Qed.

Lemma length_write a i v : length (write a i v) = length a.
Proof. unfold write. destruct (0 <=? i); [apply length_insert | done]. Qed.

Lemma read_Some_lt a i v : read a i = Some v -> 0 <= i < Z.of_nat (length a).
Proof.
  unfold read. destruct (Z.leb_spec 0 i); [|done].
  intros Hl%lookup_lt_Some. lia.
Qed.

Lemma read_is_Some a i : 0 <= i < Z.of_nat (length a) -> is_Some (read a i).
Proof.
  intros [H0 Hl]. unfold read. destruct (Z.leb_spec 0 i); [|lia].
  apply lookup_lt_is_Some. lia.
Qed.

Lemma read_None a i : ~ (0 <= i < Z.of_nat (length a)) -> read a i = None.
Proof.
  intros Hn. destruct (read a i) eqn:E; [|done].
  apply read_Some_lt in E. lia.
Qed.

Lemma read_alloc n i : 0 <= i < n -> read (alloc n) i = Some 0.
Proof.
  intros [H0 Hl]. unfold read, alloc. destruct (Z.leb_spec 0 i); [|lia].
  apply lookup_replicate_2. lia.
Qed.

Lemma read_write_eq a i v : 0 <= i < Z.of_nat (length a) -> read (write a i v) i = Some v.
Proof.
  intros [H0 Hl]. unfold read, write. destruct (Z.leb_spec 0 i); [|lia].
  apply list_lookup_insert_eq. lia.
Qed.

Lemma read_write_ne a i j v : i <> j -> read (write a i v) j = read a j.
Proof.
  intros Hne. unfold read, write.
  destruct (Z.leb_spec 0 i), (Z.leb_spec 0 j); try done.
  apply list_lookup_insert_ne. lia.
Qed.

Lemma read_write a i j v :
  read (write a i v) j = if decide (i = j /\ 0 <= i < Z.of_nat (length a)) then Some v else read a j.
Proof.
  case_decide as H.
  - destruct H as [-> H]. by apply read_write_eq.
  - destruct (decide (i = j)) as [->|Hne]; [|by apply read_write_ne].
    rewrite !read_None; [done|lia|rewrite length_write; lia].
Qed.
End ArrayFacts.

(** ** Dilation: what each pass paints *)

Section Painting.

Lemma bits_alloc n : bits (alloc n).
Proof.
  intros j v H. left. pose proof (read_Some_lt _ _ _ H) as Hl.
  rewrite length_alloc in Hl. rewrite read_alloc in H by lia. congruence.
Qed.

Lemma isOne_alloc n j : ~ isOne (alloc n) j.
Proof.
  intros H. pose proof (read_Some_lt _ _ _ H) as Hl.
  rewrite length_alloc in Hl. unfold isOne in H. rewrite read_alloc in H by lia. congruence.
Qed.

Lemma truthy_isOne a j : bits a -> truthy (read a j) = true <-> isOne a j.
Proof.
  intros Hb. unfold isOne. destruct (read a j) as [v|] eqn:E; simpl; [|done].
  destruct (Hb _ _ E) as [-> | ->]; simpl; split; congruence.
Qed.

Lemma paints_skip : paints (fun a => a) (fun _ => False).
Proof. intros a. split_and!; [done..|]. intros j. tauto. Qed.

Lemma paints_write k : paints (fun a => write a k 1) (fun j => j = k).
Proof.
  intros a. split_and!.
  - apply length_write.
  - intros Hb j v. rewrite read_write. case_decide; [intros [= <-]; by right | apply Hb].
  - intros j. unfold isOne. rewrite read_write. case_decide as Hd.
    + destruct Hd as [-> Hd]. split; [right; done | done].
    + split; [by left|]. intros [H | [Hr ->]]; [done|]. tauto.
Qed.

Lemma paints_ext f P Q : paints f P -> (forall j, P j <-> Q j) -> paints f Q.
Proof.
  intros Hp HPQ a. destruct (Hp a) as (Hl & Hb & Hj). split_and!; [done..|].
  intros j. rewrite Hj, HPQ. done.
Qed.

Lemma paints_if (b : bool) f P :
  paints f P -> paints (fun a => if b then f a else a) (fun j => b = true /\ P j).
Proof.
  destruct b; intros Hp.
  - eapply paints_ext; [exact Hp|]. intros j; tauto.
  - eapply paints_ext; [exact paints_skip|]. intros j; simpl. split; [tauto | intros [? _]; done].
Qed.

Lemma paints_foldl {B} (g : list Z -> B -> list Z) (P : B -> Z -> Prop) (l : list B) :
  (forall i, i ∈ l -> paints (fun a => g a i) (P i)) ->
  paints (fun a => foldl g a l) (fun j => exists i, i ∈ l /\ P i j).
Proof.
  induction l as [|i l IH]; intros Hp.
  - eapply paints_ext; [exact paints_skip|]. intros j. split; [done|].
    intros (i & Hi & _). by apply elem_of_nil in Hi.
  - intros a. simpl.
    destruct (Hp i ltac:(left) a) as (Hl1 & Hb1 & Hj1).
    destruct (IH (fun i' Hi' => Hp i' ltac:(by right)) (g a i)) as (Hl2 & Hb2 & Hj2).
    split_and!.
    + congruence.
    + auto.
    + intros j. rewrite Hj2, Hj1, Hl1. split.
      * intros [[H | [Hr H]] | [Hr (i' & Hi' & H)]]; [by left|right..].
        -- split; [done|]. exists i. split; [left|done].
        -- split; [done|]. exists i'. split; [by right|done].
      * intros [H | [Hr (i' & Hi' & H)]]; [by left; left|].
        apply elem_of_cons in Hi' as [-> | Hi'].
        -- left; right. done.
        -- right. split; [done|]. by exists i'.
Qed.

End Painting.

Section Dilation.
Variables (width height : Z).
Hypothesis (Hw : 0 <= width) (Hh : 0 <= height).

Lemma getIdx_inj x y x' y' :
  0 <= x < width -> 0 <= x' < width -> y * width + x = y' * width + x' -> x = x' /\ y = y'.
Proof. intros Hx Hx' He. assert (y = y') by nia. subst. lia. Qed.

Lemma getIdx_range x y :
  0 <= x < width -> 0 <= y < height -> 0 <= y * width + x < width * height.
Proof. intros. nia. Qed.

(** What pass 1 paints. *)
Lemma dilateRows_spec src :
  length (dilateRows width height src) = Z.to_nat (width * height) /\
  bits (dilateRows width height src) /\
  forall x y, 0 <= x < width -> 0 <= y < height ->
    isOne (dilateRows width height src) (y * width + x) <->
    exists qx, 0 <= qx < width /\ truthy (read src (y * width + qx)) = true /\
               x - kernelSize <= qx <= x + kernelSize.
Proof.
  unfold dilateRows.
  match goal with |- context [foldl ?g _ (seqZ 0 height)] =>
    assert (Hp : paints (fun a => foldl g a (seqZ 0 height))
      (fun j => exists y, y ∈ seqZ 0 height /\
         exists x, x ∈ seqZ 0 width /\
           truthy (read src (y * width + x)) = true /\
           exists k, k ∈ seqZ (Z.max 0 (x - kernelSize))
                       (Z.min (width - 1) (x + kernelSize) - Z.max 0 (x - kernelSize) + 1) /\
                     j = y * width + k))
  end.
  { apply paints_foldl. intros y _. apply paints_foldl. intros x _.
    apply paints_if. apply paints_foldl. intros k _. apply paints_write. }
  destruct (Hp (alloc (width * height))) as (Hl & Hb & Hj).
  rewrite length_alloc in Hl, Hj.
  split_and!; [done | apply Hb, bits_alloc |].
  intros x y Hx Hy. rewrite Hj. split.
  - intros [H | [_ (y' & Hy' & x' & Hx' & Ht & k & Hk & He)]]; [by apply isOne_alloc in H|].
    apply elem_of_seqZ in Hy', Hx', Hk.
    apply getIdx_inj in He as [-> ->]; [|lia..].
    exists x'. unfold kernelSize in *. split_and!; try done; lia.
  - intros (qx & Hqx & Ht & Hd). right. split; [nia|].
    exists y. split; [apply elem_of_seqZ; lia|].
    exists qx. split; [apply elem_of_seqZ; lia|]. split; [done|].
    exists x. split; [apply elem_of_seqZ; unfold kernelSize in *; lia|done].
Qed.

Lemma dilateCols_spec tm :
  length (dilateCols width height tm) = Z.to_nat (width * height) /\
  bits (dilateCols width height tm) /\
  forall x y, 0 <= x < width -> 0 <= y < height ->
    isOne (dilateCols width height tm) (y * width + x) <->
    exists qy, 0 <= qy < height /\ truthy (read tm (qy * width + x)) = true /\
               y - kernelSize <= qy <= y + kernelSize.
Proof.
  unfold dilateCols.
  match goal with |- context [foldl ?g _ (seqZ 0 height)] =>
    assert (Hp : paints (fun a => foldl g a (seqZ 0 height))
      (fun j => exists y, y ∈ seqZ 0 height /\
         exists x, x ∈ seqZ 0 width /\
           truthy (read tm (y * width + x)) = true /\
           exists k, k ∈ seqZ (Z.max 0 (y - kernelSize))
                       (Z.min (height - 1) (y + kernelSize) - Z.max 0 (y - kernelSize) + 1) /\
                     j = k * width + x))
  end.
  { apply paints_foldl. intros y _. apply paints_foldl. intros x _.
    apply paints_if. apply paints_foldl. intros k _. apply paints_write. }
  destruct (Hp (alloc (width * height))) as (Hl & Hb & Hj).
  rewrite length_alloc in Hl, Hj.
  split_and!; [done | apply Hb, bits_alloc |].
  intros x y Hx Hy. rewrite Hj. split.
  - intros [H | [_ (y' & Hy' & x' & Hx' & Ht & k & Hk & He)]]; [by apply isOne_alloc in H|].
    apply elem_of_seqZ in Hy', Hx', Hk.
    apply getIdx_inj in He as [-> ->]; [|lia..].
    exists y'. unfold kernelSize in *. split_and!; try done; lia.
  - intros (qy & Hqy & Ht & Hd). right. split; [nia|].
    exists qy. split; [apply elem_of_seqZ; lia|].
    exists x. split; [apply elem_of_seqZ; lia|]. split; [done|].
    exists y. split; [apply elem_of_seqZ; unfold kernelSize in *; lia|done].
Qed.

(** The two passes together: the 31 by 31 box. *)
Lemma dilate_spec src :
  length (dilate width height src) = Z.to_nat (width * height) /\
  bits (dilate width height src) /\
  forall x y, 0 <= x < width -> 0 <= y < height ->
    isOne (dilate width height src) (y * width + x) <->
    exists qx qy, 0 <= qx < width /\ 0 <= qy < height /\
                  truthy (read src (qy * width + qx)) = true /\
                  x - kernelSize <= qx <= x + kernelSize /\
                  y - kernelSize <= qy <= y + kernelSize.
Proof.
  unfold dilate.
  destruct (dilateRows_spec src) as (Hl1 & Hb1 & H1).
  destruct (dilateCols_spec (dilateRows width height src)) as (Hl2 & Hb2 & H2).
  split_and!; [done..|].
  intros x y Hx Hy. rewrite H2 by done. split.
  - intros (qy & Hqy & Ht & Hd). apply truthy_isOne in Ht; [|done].
    apply H1 in Ht as (qx & Hqx & Ht & Hdx); [|done..].
    exists qx, qy. split_and!; try done; lia.
  - intros (qx & qy & Hqx & Hqy & Ht & Hdx & Hdy).
    exists qy. split; [done|]. split; [|done].
    apply truthy_isOne; [done|]. apply H1; [done..|]. by exists qx.
Qed.
End Dilation.

(** ** Dilation against the 31 by 31 box *)

Lemma pixel_decompose width height p :
  0 <= p < width * height -> 0 <= width ->
  0 <= p `mod` width < width /\ 0 <= p / width < height /\ p = p / width * width + p `mod` width.
Proof.
  intros Hp Hw. assert (0 < width) by (destruct (decide (width = 0)); [subst; lia | lia]).
  pose proof (Z.mod_pos_bound p width ltac:(lia)).
  pose proof (Z.div_mod p width ltac:(lia)).
  assert (0 <= p / width) by (apply Z.div_pos; lia).
  assert (p / width < height) by (apply Z.div_lt_upper_bound; nia).
  lia.
Qed.

Lemma pixel_recompose width x y :
  0 <= x < width -> (y * width + x) `mod` width = x /\ (y * width + x) / width = y.
Proof.
  intros Hx. split.
  - rewrite Z.add_comm, Z.mod_add by lia. apply Z.mod_small; lia.
  - rewrite Z.add_comm, Z.div_add by lia. rewrite Z.div_small; lia.
Qed.

(** C3. For every mask and every pixel of the image, the two-pass
    dilation (rows with the clamped span [x-15, x+15], then columns with the
    clamped span [y-15, y+15]) sets the pixel iff some foreground pixel of
    the raw mask lies within Chebyshev distance 15 of it; as arrays, the
    two-pass result is the direct dilation by the 31 by 31 square. *)
Theorem dilate_is_box_dilation (width height : Z) (src : list Z) :
  0 <= width -> 0 <= height ->
  dilate width height src = boxDilate width height 15 src /\
  forall x y, 0 <= x < width -> 0 <= y < height ->
    (read (dilate width height src) (getIdx width x y) = Some 1 <->
     exists qx qy, 0 <= qx < width /\ 0 <= qy < height /\
                   truthy (read src (getIdx width qx qy)) = true /\
                   chebyshev x y qx qy <= 15).
Proof.
  intros Hw Hh.
  destruct (dilate_spec width height Hw Hh src) as (Hl & Hb & Hspec).
  assert (Hpt : forall x y, 0 <= x < width -> 0 <= y < height ->
    (read (dilate width height src) (getIdx width x y) = Some 1 <->
     exists qx qy, 0 <= qx < width /\ 0 <= qy < height /\
                   truthy (read src (getIdx width qx qy)) = true /\
                   chebyshev x y qx qy <= 15)).
  { intros x y Hx Hy. unfold getIdx. etransitivity; [apply (Hspec x y Hx Hy)|].
    unfold chebyshev, kernelSize.
    split; intros (qx & qy & ? & ? & ? & ?); exists qx, qy; (split_and!; try done; lia). }
  split; [|exact Hpt].
  apply list_eq. intros i. unfold boxDilate.
  rewrite list_lookup_fmap.
  destruct (decide (Z.of_nat i < width * height)) as [Hi|Hi].
  - rewrite lookup_seqZ_lt by done. simpl. rewrite Z.add_0_l.
    destruct (pixel_decompose width height (Z.of_nat i) ltac:(lia) Hw) as (Hx & Hy & Hp).
    set (x := Z.of_nat i `mod` width) in *. set (y := Z.of_nat i / width) in *.
    specialize (Hpt x y Hx Hy). unfold getIdx in Hpt at 1. rewrite <- Hp in Hpt.
    assert (Hrd : read (dilate width height src) (Z.of_nat i) = dilate width height src !! i).
    { unfold read. destruct (Z.leb_spec 0 (Z.of_nat i)); [|lia]. by rewrite Nat2Z.id. }
    rewrite Hrd in Hpt.
    destruct (dilate width height src !! i) as [v|] eqn:Ev.
    2:{ apply lookup_ge_None in Ev. lia. }
    f_equal.
    assert (Hv : v = 0 \/ v = 1) by (apply (Hb (Z.of_nat i)); by rewrite Hrd).
    match goal with |- _ = if ?b then _ else _ => destruct b eqn:Eb end.
    + apply existsb_exists in Eb as (q & Hq & Ht).
      apply list_elem_of_In, elem_of_seqZ in Hq.
      apply andb_true_iff in Ht as [Ht Hd]. apply Z.leb_le in Hd.
      destruct (pixel_decompose width height q ltac:(lia) Hw) as (Hqx & Hqy & Hqp).
      assert (Some v = Some 1) as [= ->]; [|done].
      apply Hpt. exists (q `mod` width), (q / width).
      split_and!; [lia..| |done]. unfold getIdx. by rewrite <- Hqp.
    + destruct Hv as [->| ->]; [done|]. exfalso.
      destruct Hpt as [Hpt _]. destruct (Hpt eq_refl) as (qx & qy & Hqx & Hqy & Ht & Hd).
      assert (existsb (fun q => truthy (read src q) &&
               (chebyshev x y (q `mod` width) (q / width) <=? 15)) (seqZ 0 (width * height)) = true)
        as Hex; [|congruence].
      apply existsb_exists. exists (getIdx width qx qy). split.
      * apply list_elem_of_In, elem_of_seqZ. unfold getIdx. nia.
      * unfold getIdx in *. destruct (pixel_recompose width qx qy Hqx) as [-> ->].
        rewrite Ht. simpl. by apply Z.leb_le.
  - rewrite lookup_seqZ_ge by lia. simpl. apply lookup_ge_None. lia.
Qed.

Lemma dilate_is_box_dilation_witness :
  0 <= 3 /\ 0 <= 2 /\
  dilate 3 2 [0; 1; 0; 0; 0; 0] = boxDilate 3 2 15 [0; 1; 0; 0; 0; 0].
Proof.
  split; [lia|]. split; [lia|].
  apply (dilate_is_box_dilation 3 2 [0; 1; 0; 0; 0; 0]); lia.
Defined.

(** ** One flood fill *)

Section Fill.
Local Arguments visitNeighbor : simpl never.
Local Arguments bfsStep : simpl never.
Variables (width height : Z) (dm vis0 : list Z) (seed : Z).
Hypothesis Hvis0 : length vis0 = Z.to_nat (width * height).

Lemma visitNeighbor_inv vis q nb :
  FillInv width height dm vis0 seed vis q ->
  exists ext, snd (visitNeighbor width height dm (vis, q) nb) = q ++ ext /\
    FillInv width height dm vis0 seed
      (fst (visitNeighbor width height dm (vis, q) nb))
      (snd (visitNeighbor width height dm (vis, q) nb)).
Proof.
  intros [Hlen Hnd Hrange Hvis]. destruct nb as [nx ny]. unfold visitNeighbor.
  destruct ((0 <=? nx) && (nx <? width) && (0 <=? ny) && (ny <? height)) eqn:Hb.
  2:{ exists []. rewrite app_nil_r. done. }
  destruct (negb (truthy (read vis (getIdx width nx ny))) &&
            strictEq (read dm (getIdx width nx ny)) 1) eqn:Hc.
  2:{ exists []. rewrite app_nil_r. done. }
  exists [getIdx width nx ny]. split; [done|]. simpl.
  apply andb_true_iff in Hc as [Hnv Hdm]. apply negb_true_iff in Hnv.
  repeat (apply andb_true_iff in Hb as [Hb ?]).
  assert (Hr : 0 <= getIdx width nx ny < width * height) by (unfold getIdx; nia).
  assert (Hnot : truthy (read vis0 (getIdx width nx ny)) = false /\ getIdx width nx ny ∉ q).
  { split.
    - destruct (truthy (read vis0 (getIdx width nx ny))) eqn:E; [|done].
      assert (truthy (read vis (getIdx width nx ny)) = true) by (apply Hvis; by left).
      congruence.
    - intros Hin. assert (truthy (read vis (getIdx width nx ny)) = true) by (apply Hvis; by right).
      congruence. }
  destruct Hnot as [Hn0 Hnq].
  split.
  - by rewrite length_write.
  - apply NoDup_app. split_and!; [done| |apply NoDup_singleton].
    intros p Hp ->%list_elem_of_singleton. done.
  - intros p [Hp | ->%list_elem_of_singleton]%elem_of_app; [by apply Hrange|].
    split_and!; [lia..|done|by right].
  - intros j. rewrite read_write, elem_of_app, list_elem_of_singleton. case_decide as Hd.
    + destruct Hd as [<- _]. simpl. split; [by right; right|done].
    + assert (j <> getIdx width nx ny) by (intros ->; apply Hd; split; [done|lia]).
      rewrite Hvis. split; [intros [|]; tauto|]. intros [|[|]]; tauto.
Qed.

Lemma visitNeighbors_inv nbs vis q :
  FillInv width height dm vis0 seed vis q ->
  exists ext, snd (foldl (visitNeighbor width height dm) (vis, q) nbs) = q ++ ext /\
    FillInv width height dm vis0 seed
      (fst (foldl (visitNeighbor width height dm) (vis, q) nbs))
      (snd (foldl (visitNeighbor width height dm) (vis, q) nbs)).
Proof.
  revert vis q. induction nbs as [|nb nbs IH]; intros vis q Hinv.
  - exists []. simpl. split; [by rewrite app_nil_r|done].
  - simpl. destruct (visitNeighbor_inv vis q nb Hinv) as (ext1 & He1 & Hi1).
    destruct (visitNeighbor width height dm (vis, q) nb) as [vis1 q1]. simpl in *.
    destruct (IH vis1 q1 Hi1) as (ext2 & He2 & Hi2).
    exists (ext1 ++ ext2). split; [|done]. rewrite He2, He1. by rewrite app_assoc.
Qed.

Lemma FillInv_length vis q :
  FillInv width height dm vis0 seed vis q -> 0 <= width * height ->
  (length q <= Z.to_nat (width * height))%nat.
Proof.
  intros [_ Hnd Hrange _] Hn.
  rewrite <- (length_seqZ 0 (width * height)).
  apply submseteq_length, NoDup_submseteq; [done|].
  intros p Hp. apply elem_of_seqZ. destruct (Hrange p Hp). lia.
Qed.

Lemma bfsStep_inv st currIdx :
  0 < width ->
  BfsInv width height dm vis0 seed st ->
  queue st !! head st = Some currIdx ->
  BfsInv width height dm vis0 seed (bfsStep width height dm st currIdx) /\
  head (bfsStep width height dm st currIdx) = S (head st) /\
  exists ext, queue (bfsStep width height dm st currIdx) = queue st ++ ext.
Proof.
  intros Hw [Hfill Hhead Hpix Hseed Hbox] Hcur. unfold bfsStep.
  destruct (visitNeighbors_inv
              (neighbors (Z.rem currIdx width) (currIdx / width))
              (visited st) (queue st) Hfill) as (ext & Hext & Hfill').
  destruct (foldl _ _ _) as [vis q]. simpl in *. subst q.
  split; [|split; [done|by exists ext]].
  assert (Hlt : (head st < length (queue st))%nat) by (by eapply lookup_lt_Some).
  destruct (fi_range _ _ _ _ _ _ _ Hfill currIdx) as (Hr & _).
  { eapply list_elem_of_lookup_2; eauto. }
  split; simpl.
  - done.
  - rewrite length_app. lia.
  - rewrite (take_S_r _ _ currIdx) by (by apply lookup_app_l_Some).
    rewrite take_app_le by lia. by rewrite Hpix.
  - by apply lookup_app_l_Some.
  - rewrite Z.rem_mod_nonneg by lia.
    destruct (pixel_decompose width height currIdx Hr ltac:(lia)) as (Hx & Hy & _).
    unfold boxInBounds in *.
    repeat match goal with |- context [if ?b then _ else _] => destruct b eqn:?  end; lia.
Qed.

(** The loop runs to its exit condition whenever the fuel exceeds the
    number of pixels not yet dequeued. *)
Lemma bfsLoop_terminates fuel st :
  0 < width -> 0 <= height ->
  BfsInv width height dm vis0 seed st ->
  (Z.to_nat (width * height) - head st < fuel)%nat ->
  exists fin, bfsLoop width height fuel dm st = Some fin /\
              BfsInv width height dm vis0 seed fin /\
              head fin = length (queue fin) /\
              (exists ext, queue fin = queue st ++ ext).
Proof.
  intros Hw Hh. revert st. induction fuel as [|fuel IH]; intros st Hinv Hfuel; [lia|].
  simpl. destruct (queue st !! head st) as [currIdx|] eqn:Hcur.
  - destruct (bfsStep_inv st currIdx Hw Hinv Hcur) as (Hinv' & Hhd & ext & Hq).
    assert (Hlt : (head st < length (queue st))%nat) by (by eapply lookup_lt_Some).
    pose proof (FillInv_length _ _ (bi_fill _ _ _ _ _ _ Hinv) ltac:(nia)).
    destruct (IH _ Hinv') as (fin & Hfin & Hinvf & Hhf & ext' & Hqf); [lia|].
    exists fin. split_and!; [done..|]. exists (ext ++ ext'). by rewrite Hqf, Hq, app_assoc.
  - exists st. split_and!; [done..| |exists []; by rewrite app_nil_r].
    apply lookup_ge_None in Hcur. pose proof (bi_head _ _ _ _ _ _ Hinv). lia.
Qed.

(** More fuel does not change the result. *)
Lemma bfsLoop_fuel_mono fuel fuel' st fin :
  bfsLoop width height fuel dm st = Some fin -> (fuel <= fuel')%nat ->
  bfsLoop width height fuel' dm st = Some fin.
Proof.
  revert fuel' st. induction fuel as [|fuel IH]; intros fuel' st Hrun Hle; [done|].
  destruct fuel' as [|fuel']; [lia|]. simpl in *.
  destruct (queue st !! head st); [|done]. apply IH; [done|lia].
Qed.

Lemma bfsInit_inv x y :
  0 <= x < width -> 0 <= y < height -> seed = getIdx width x y ->
  truthy (read vis0 seed) = false ->
  BfsInv width height dm vis0 seed (bfsInit width vis0 x y).
Proof.
  intros Hx Hy -> Hnv. unfold bfsInit.
  assert (Hr : 0 <= getIdx width x y < width * height) by (unfold getIdx; nia).
  split; simpl; [split|..].
  - by rewrite length_write.
  - apply NoDup_singleton.
  - intros p ->%list_elem_of_singleton. split_and!; [lia..|done|by left].
  - intros j. rewrite read_write, list_elem_of_singleton. case_decide as Hd.
    + destruct Hd as [<- _]. simpl. split; [by right|done].
    + assert (j <> getIdx width x y) by (intros ->; apply Hd; split; [done|lia]).
      split; [by left|]. intros [|]; [done|congruence].
  - lia.
  - done.
  - done.
  - unfold boxInBounds. lia.
Qed.

End Fill.

(** ** Loops *)

Section Loops.
Context {S : Type}.

Lemma forM_app (body : S -> Z -> option S) l1 l2 s :
  forM body (l1 ++ l2) s = forM body l1 s ≫= forM body l2.
Proof.
  revert s. induction l1 as [|i l1 IH]; intros s; simpl; [done|].
  destruct (body s i); simpl; [apply IH|done].
Qed.

Lemma forM_ext (f g : S -> Z -> option S) l s :
  (forall s i, i ∈ l -> f s i = g s i) -> forM f l s = forM g l s.
Proof.
  revert s. induction l as [|i l IH]; intros s Hfg; simpl; [done|].
  rewrite Hfg by left. destruct (g s i); [|done].
  apply IH. intros s' i' Hi'. apply Hfg. by right.
Qed.

Lemma forM_fmap (body : S -> Z -> option S) (f : Z -> Z) l s :
  forM body (f <$> l) s = forM (fun s i => body s (f i)) l s.
Proof.
  revert s. induction l as [|i l IH]; intros s; simpl; [done|].
  destruct (body s (f i)); [apply IH|done].
Qed.

(** A row-major double loop is one loop over the raster index. *)
Lemma forM_raster (body : Z -> S -> Z -> option S) (w h : Z) (s : S) :
  0 <= w -> 0 <= h ->
  forM (fun s y => forM (body y) (seqZ 0 w) s) (seqZ 0 h) s =
  forM (fun s p => body (p / w) s (p `mod` w)) (seqZ 0 (w * h)) s.
Proof.
  intros Hw Hh. rewrite <- (Z2Nat.id h Hh). generalize (Z.to_nat h) as hn. clear h Hh.
  intros hn. revert s. induction hn as [|hn IH]; intros s.
  - by rewrite Z.mul_0_r.
  - rewrite seqZ_S, forM_app, IH.
    replace (w * Z.of_nat (Datatypes.S hn)) with (w * Z.of_nat hn + w) by lia.
    rewrite seqZ_app, forM_app by lia.
    destruct (forM _ (seqZ 0 (w * Z.of_nat hn)) s) as [s'|]; simpl; [|done].
    replace (seqZ (0 + w * Z.of_nat hn) w) with (Z.add (w * Z.of_nat hn) <$> seqZ 0 w)
      by (rewrite fmap_add_seqZ; f_equal; lia).
    rewrite forM_fmap.
    destruct (forM (body (0 + Z.of_nat hn)) (seqZ 0 w) s') as [s''|] eqn:E; rewrite <- E;
      symmetry; apply forM_ext; intros t x Hx; apply elem_of_seqZ in Hx;
      replace (w * Z.of_nat hn + x) with (Z.of_nat hn * w + x) by lia;
      destruct (pixel_recompose w x (Z.of_nat hn) ltac:(lia)) as [-> ->]; done.
Qed.

(** A loop over [0 .. m-1] whose body never fails under an invariant runs
    to completion and re-establishes the invariant. *)
Lemma forM_seqZ_total (I : Z -> S -> Prop) (body : S -> Z -> option S) (m : Z) (s : S) :
  0 <= m -> I 0 s ->
  (forall k s, 0 <= k < m -> I k s -> exists s', body s k = Some s' /\ I (k + 1) s') ->
  exists s', forM body (seqZ 0 m) s = Some s' /\ I m s'.
Proof.
  intros Hm H0 Hstep.
  assert (Hgen : forall kn : nat, Z.of_nat kn <= m ->
            exists s', forM body (seqZ 0 (Z.of_nat kn)) s = Some s' /\ I (Z.of_nat kn) s').
  { induction kn as [|kn IH]; intros Hk.
    - exists s. done.
    - destruct IH as (s1 & Hrun & HI); [lia|].
      destruct (Hstep (Z.of_nat kn) s1 ltac:(lia) HI) as (s2 & Hb & HI2).
      exists s2. rewrite seqZ_S, forM_app, Hrun, Z.add_0_l. simpl. rewrite Hb.
      split; [done|]. replace (Z.of_nat (Datatypes.S kn)) with (Z.of_nat kn + 1) by lia. done. }
  rewrite <- (Z2Nat.id m Hm). apply Hgen. lia.
Qed.
End Loops.

(** ** One step of the raster scan *)

Section Scan.
Variables (width height : Z) (data dm : list Z).
Hypothesis (Hw : 0 <= width) (Hh : 0 <= height).
Local Arguments refineComponent : simpl never.

Lemma allPixels_snoc cs c : allPixels (cs ++ [c]) = allPixels cs ++ componentPixels c.
Proof. unfold allPixels. by rewrite bind_app, bind_singleton. Qed.

Lemma strictEq_0_1 o : strictEq o 0 = true -> strictEq o 1 = true -> False.
Proof. destruct o as [v|]; simpl; [|done]. intros H0%Z.eqb_eq H1%Z.eqb_eq. lia. Qed.

Lemma scan_init_inv :
  ScanInv width height data dm 0
    {| sVisited := alloc (width * height); objects := []; trace := [] |}.
Proof.
  split; simpl.
  - apply length_alloc.
  - intros j Hj. lia.
  - intros j. unfold allPixels. simpl. rewrite elem_of_nil. split; [|done].
    destruct (read (alloc (width * height)) j) as [v|] eqn:E; [|done].
    pose proof (read_Some_lt _ _ _ E) as Hl. rewrite length_alloc in Hl.
    rewrite read_alloc in E by lia. by injection E as <-.
  - apply NoDup_nil_2.
  - done.
  - intros i c Hi. done.
  - intros i j ci cj _ Hi. done.
Qed.

Lemma scanPixel_step k st :
  0 <= k < width * height ->
  ScanInv width height data dm k st ->
  exists st', scanPixel width height data dm (k / width) st (k `mod` width) = Some st' /\
              ScanInv width height data dm (k + 1) st'.
Proof.
  intros Hk [Hlen Hdone Hvis Hnd Hobj Hcomps Hsorted].
  destruct (pixel_decompose width height k Hk Hw) as (Hx & Hy & Hkxy).
  unfold scanPixel.
  replace (getIdx width (k `mod` width) (k / width)) with k by (unfold getIdx; lia).
  destruct (truthy (read (sVisited st) k) || strictEq (read dm k) 0) eqn:Hc.
  - exists st. split; [done|]. split; try done.
    + intros j Hj. destruct (decide (j = k)) as [->|]; [|apply Hdone; lia].
      by apply orb_true_iff in Hc.
    + intros i c Hi. destruct (Hcomps i c Hi). split; [done|lia].
  - apply orb_false_iff in Hc as [Hnv Hfg].
    pose proof (bfsInit_inv width height dm (sVisited st) k Hlen _ _ Hx Hy
                  ltac:(unfold getIdx; lia) Hnv) as Hinit.
    destruct (bfsLoop_terminates width height dm (sVisited st) k Hlen
                (bfsFuel width height) _ ltac:(lia) Hh Hinit) as (fin & Hrun & Hinv & Hhd & ext & Hq).
    { unfold bfsFuel. simpl. lia. }
    rewrite Hrun. eexists. split; [reflexivity|].
    destruct Hinv as [[Hflen Hfnd Hfrange Hfvis] _ Hpix _ Hbox].
    simpl in Hq. replace (getIdx width (k `mod` width) (k / width)) with k in Hq
      by (unfold getIdx; lia).
    rewrite Hhd, firstn_all in Hpix.
    assert (Hcp : componentPixels (componentOf fin) = k :: ext)
      by (simpl; by rewrite Hpix, Hq).
    assert (Hfp : firstPixel (componentOf fin) = k) by (unfold firstPixel; by rewrite Hcp).
    rewrite Hq in Hfnd, Hfrange, Hfvis.
    assert (Hok : CompOk width height dm (trace st) (componentOf fin)).
    { split.
      - exists ext. rewrite Hfp. split; [done|]. intros p Hp.
        destruct (Hfrange p ltac:(by right)) as (_ & _ & [->|Hd]); [|done].
        apply NoDup_cons in Hfnd as [Hn _]. done.
      - intros p Hp. rewrite Hcp in Hp. rewrite Hfp.
        destruct (Hfrange p Hp) as (Hr & Hv0 & Hd). split; [|lia].
        destruct (Z.le_gt_cases k p) as [|Hlt]; [done|]. exfalso.
        destruct Hd as [->|Hd]; [lia|].
        destruct (Hdone p ltac:(lia)) as [Ht|Hz]; [congruence|].
        by eapply strictEq_0_1.
      - lia.
      - by rewrite Hfp.
      - rewrite Hfp. intros p Hp. destruct (Hdone p Hp) as [Ht|Hz]; [|by left].
        right. by apply Hvis.
      - exact Hbox. }
    split; cbn [sVisited objects trace].
    + congruence.
    + intros j Hj. destruct (decide (j = k)) as [->|].
      * left. apply Hfvis. right. left.
      * destruct (Hdone j ltac:(lia)) as [Ht|Hz]; [|by right].
        left. apply Hfvis. by left.
    + intros j. rewrite allPixels_snoc, elem_of_app, Hfvis, Hvis, Hcp. done.
    + rewrite allPixels_snoc, Hcp. apply NoDup_app. split_and!; [done| |done].
      intros p Hp%Hvis Hin. destruct (Hfrange p Hin) as (_ & Hv0 & _). congruence.
    + rewrite omap_app, Hobj. simpl.
      destruct (refineComponent width height data (componentOf fin)); [done|].
      by rewrite app_nil_r.
    + intros i c [[Hi Hc]|[-> <-]]%lookup_snoc_Some.
      * rewrite take_app_le by lia. destruct (Hcomps i c Hc). split; [done|lia].
      * rewrite take_app_length. split; [done|lia].
    + intros i j ci cj Hij Hi [[Hj Hcj]|[-> <-]]%lookup_snoc_Some.
      * apply lookup_snoc_Some in Hi as [[_ Hci]|[-> _]]; [|lia]. eauto.
      * apply lookup_snoc_Some in Hi as [[_ Hci]|[? _]]; [|lia].
        destruct (Hcomps i ci Hci). lia.
Qed.
End Scan.

(** ** The whole scan *)

Lemma rasterBefore_lt (width p q : Z) :
  0 < width -> 0 <= p -> p < q -> rasterBefore width p q.
Proof.
  intros Hpos Hp Hpq. unfold rasterBefore.
  pose proof (Z.div_mod p width ltac:(lia)). pose proof (Z.div_mod q width ltac:(lia)).
  pose proof (Z.mod_pos_bound p width Hpos). pose proof (Z.mod_pos_bound q width Hpos).
  destruct (Z.lt_trichotomy (p / width) (q / width)) as [|[He|Hgt]]; [by left| |nia].
  right. split; [done|]. rewrite He in *. lia.
Qed.


Section Labeler.
Variables (width height : Z) (data dm : list Z).
Hypothesis (Hw : 0 <= width) (Hh : 0 <= height).

Lemma scan_total :
  exists st, scan width height data dm = Some st /\
             ScanInv width height data dm (width * height) st.
Proof.
  unfold scan, scanRow.
  rewrite (forM_raster (scanPixel width height data dm) width height _ Hw Hh).
  apply (forM_seqZ_total (ScanInv width height data dm)); [nia| |].
  - apply scan_init_inv.
  - intros k st Hk Hinv. by apply scanPixel_step.
Qed.

Lemma allPixels_disjoint (cs : list Component) (i j : nat) ci cj p :
  NoDup (allPixels cs) -> (i < j)%nat -> cs !! i = Some ci -> cs !! j = Some cj ->
  p ∈ componentPixels ci -> p ∉ componentPixels cj.
Proof.
  revert i j. induction cs as [|c cs IH]; intros i j Hnd Hij Hi Hj Hp; [done|].
  unfold allPixels in Hnd. rewrite bind_cons in Hnd.
  apply NoDup_app in Hnd as (_ & Hdis & Hnd').
  destruct j as [|j]; [lia|]. simpl in Hj. destruct i as [|i]; simpl in Hi.
  - injection Hi as ->. intros Hq. apply (Hdis p Hp).
    apply list_elem_of_bind. exists cj. split; [done|]. by eapply list_elem_of_lookup_2.
  - eapply (IH i j); eauto. lia.
Qed.
End Labeler.

(** ** Labelling: order, disjointness, termination *)

Lemma labelComponents_inv width height data dm comps :
  0 <= width -> 0 <= height ->
  labelComponents width height data dm = Some comps ->
  exists st, scan width height data dm = Some st /\ trace st = comps /\
             ScanInv width height data dm (width * height) st.
Proof.
  intros Hw Hh Hlab. destruct (scan_total width height data dm Hw Hh) as (st & Hscan & Hinv).
  unfold labelComponents in Hlab. rewrite Hscan in Hlab. injection Hlab as <-.
  by exists st.
Qed.

(** C6. The components come out in raster-scan discovery order: each
    component's first pixel is its raster-earliest one, it is a foreground
    pixel, and every raster-earlier pixel is background or belongs to a
    component found before; of two components the one found first has the
    raster-earlier first pixel (an earlier row, or the same row further
    left); and no two components share a pixel. *)
Theorem components_in_raster_order_and_disjoint
    (width height : Z) (data dm : list Z) (comps : list Component) :
  0 <= width -> 0 <= height ->
  labelComponents width height data dm = Some comps ->
  (forall i c, comps !! i = Some c ->
     firstPixel c ∈ componentPixels c /\
     strictEq (read dm (firstPixel c)) 0 = false /\
     (forall p, p ∈ componentPixels c -> p = firstPixel c \/ rasterBefore width (firstPixel c) p) /\
     (forall p, 0 <= p < firstPixel c ->
        strictEq (read dm p) 0 = true \/ p ∈ allPixels (take i comps))) /\
  (forall i j ci cj, (i < j)%nat -> comps !! i = Some ci -> comps !! j = Some cj ->
     rasterBefore width (firstPixel ci) (firstPixel cj) /\
     forall p, p ∈ componentPixels ci -> p ∉ componentPixels cj).
Proof.
  intros Hw Hh Hlab.
  destruct (labelComponents_inv _ _ _ _ _ Hw Hh Hlab) as (st & _ & <- & Hinv).
  destruct Hinv as [_ _ _ Hnd _ Hcomps Hsorted].
  assert (Hpos : forall i c, trace st !! i = Some c -> 0 < width).
  { intros i c Hi. destruct (Hcomps i c Hi) as [[_ _ Hp _ _ _] Hlt].
    destruct (decide (width = 0)) as [->|]; lia. }
  split.
  - intros i c Hi. destruct (Hcomps i c Hi) as [[(rest & Hcp & _) Hrange Hp Hfg Hearly _] _].
    split_and!; [rewrite Hcp; left|done| |done].
    intros p Hin. destruct (Hrange p Hin) as [Hle _].
    destruct (decide (p = firstPixel c)) as [|Hne]; [by left|right].
    apply rasterBefore_lt; [by eapply Hpos|done|lia].
  - intros i j ci cj Hij Hi Hj. split.
    + destruct (Hcomps i ci Hi) as [[_ _ Hp _ _ _] _].
      apply rasterBefore_lt; [by eapply Hpos|done|by eapply Hsorted].
    + intros p. by eapply allPixels_disjoint.
Qed.

(** C9. The flood fill terminates on every mask: started from any unvisited
    seed it reaches its exit condition within the fuel, with every pixel
    enqueued at most once (the queue has no duplicates and never exceeds
    width * height entries), and more fuel changes nothing. The raster scan
    therefore runs over all width * height pixels: it returns, no pixel
    sits in two components, all components together hold at most
    width * height pixels, and every pixel is background or in a
    component. *)
Theorem flood_fill_terminates (width height : Z) (data dm : list Z) :
  0 <= width -> 0 <= height ->
  (forall vis x y,
     length vis = Z.to_nat (width * height) ->
     0 <= x < width -> 0 <= y < height ->
     truthy (read vis (getIdx width x y)) = false ->
     exists fin,
       bfsLoop width height (bfsFuel width height) dm (bfsInit width vis x y) = Some fin /\
       head fin = length (queue fin) /\
       NoDup (queue fin) /\
       pixels fin = queue fin /\
       (length (queue fin) <= Z.to_nat (width * height))%nat /\
       (forall fuel, (bfsFuel width height <= fuel)%nat ->
          bfsLoop width height fuel dm (bfsInit width vis x y) = Some fin)) /\
  exists comps,
    labelComponents width height data dm = Some comps /\
    NoDup (allPixels comps) /\
    (length (allPixels comps) <= Z.to_nat (width * height))%nat /\
    forall p, 0 <= p < width * height ->
      strictEq (read dm p) 0 = true \/ p ∈ allPixels comps.
Proof.
  intros Hw Hh. split.
  - intros vis x y Hlen Hx Hy Hnv.
    pose proof (bfsInit_inv width height dm vis (getIdx width x y) Hlen x y Hx Hy eq_refl Hnv)
      as Hinit.
    destruct (bfsLoop_terminates width height dm vis _ Hlen (bfsFuel width height) _
                ltac:(lia) Hh Hinit) as (fin & Hrun & Hinv & Hhd & _).
    { unfold bfsFuel. simpl. lia. }
    exists fin. destruct Hinv as [Hfill _ Hpix _ _].
    split_and!; [done|done|by destruct Hfill| | |].
    + by rewrite Hpix, Hhd, firstn_all.
    + eapply FillInv_length; [exact Hlen | exact Hfill | nia].
    + intros fuel Hfuel. by eapply bfsLoop_fuel_mono.
  - destruct (scan_total width height data dm Hw Hh) as (st & Hscan & Hinv).
    exists (trace st). unfold labelComponents. rewrite Hscan.
    destruct Hinv as [_ Hdone Hvis Hnd _ Hcomps _].
    split_and!; [done|done| |].
    + rewrite <- (length_seqZ 0 (width * height)).
      apply submseteq_length, NoDup_submseteq; [done|].
      intros p (c & Hp & Hc)%list_elem_of_bind.
      apply list_elem_of_lookup in Hc as (i & Hi).
      destruct (Hcomps i c Hi) as [[_ Hrange Hpos _ _ _] _].
      apply elem_of_seqZ. specialize (Hrange p Hp). lia.
    + intros p Hp. destruct (Hdone p Hp) as [Ht%Hvis|Hz]; [by right|by left].
Qed.

Lemma components_in_raster_order_and_disjoint_witness :
  0 <= 3 /\ 0 <= 2 /\
  labelComponents 3 2 [] sampleMask =
    Some [ {| cMinX := 0; cMaxX := 0; cMinY := 0; cMaxY := 1; componentPixels := [0; 3] |};
           {| cMinX := 2; cMaxX := 2; cMinY := 0; cMaxY := 0; componentPixels := [2] |} ] /\
  rasterBefore 3 0 2.
Proof.
  assert (Hrun : labelComponents 3 2 [] sampleMask =
    Some [ {| cMinX := 0; cMaxX := 0; cMinY := 0; cMaxY := 1; componentPixels := [0; 3] |};
           {| cMinX := 2; cMaxX := 2; cMinY := 0; cMaxY := 0; componentPixels := [2] |} ])
    by (vm_compute; reflexivity).
  split; [lia|]. split; [lia|]. split; [exact Hrun|].
  destruct (components_in_raster_order_and_disjoint 3 2 [] sampleMask _
              ltac:(lia) ltac:(lia) Hrun) as [_ Hord].
  exact (proj1 (Hord 0%nat 1%nat _ _ ltac:(lia) eq_refl eq_refl)).
Defined.

Lemma flood_fill_terminates_witness :
  0 <= 3 /\ 0 <= 2 /\ exists comps, labelComponents 3 2 [] sampleMask = Some comps.
Proof.
  split; [lia|]. split; [lia|].
  destruct (flood_fill_terminates 3 2 [] sampleMask ltac:(lia) ltac:(lia))
    as (_ & comps & Hrun & _).
  by exists comps.
Defined.

(** ** Tight refit *)

Section FoldFacts.
Context {A B : Type}.

Lemma foldl_prefix_inv (f : A -> B -> A) (I : list B -> A -> Prop) (l : list B) (a : A) :
  I [] a ->
  (forall pre x a, I pre a -> x ∈ l -> I (pre ++ [x]) (f a x)) ->
  I l (foldl f a l).
Proof.
  intros H0. induction l as [|x l IH] using rev_ind; intros Hstep; [done|].
  rewrite foldl_app. simpl. apply Hstep.
  - apply IH. intros pre y b Hb Hy. apply Hstep; [done|]. apply elem_of_app. by left.
  - apply elem_of_app. right. left.
Qed.
End FoldFacts.

Lemma foldl_nested {A} (f : Z -> A -> Z -> A) (xs ys : list Z) (a : A) :
  foldl (fun a y => foldl (f y) a xs) a ys =
  foldl (fun a c => f c.2 a c.1) a (y ← ys; (fun x => (x, y)) <$> xs).
Proof.
  revert a. induction ys as [|y ys IH]; intros a; [done|].
  rewrite bind_cons, foldl_app. simpl. rewrite <- IH. f_equal.
  clear IH. generalize a. induction xs as [|x xs IHx]; intros b; [done|]. simpl. apply IHx.
Qed.

Section Refit.
Variables (width height : Z) (data : list Z).

Lemma elem_of_boxCells c x y : (x, y) ∈ boxCells c <-> inBox c x y.
Proof.
  unfold boxCells, inBox. rewrite list_elem_of_bind. split.
  - intros (ry & Hin & Hry). apply list_elem_of_fmap in Hin as (rx & [= -> ->] & Hrx).
    apply elem_of_seqZ in Hry, Hrx. lia.
  - intros [Hx Hy]. exists y. split; [|apply elem_of_seqZ; lia].
    apply list_elem_of_fmap. exists x. split; [done|apply elem_of_seqZ; lia].
Qed.

Lemma tightRefit_cells c :
  tightRefit width height data c =
  foldl (fun r cell => refitPixel width data cell.2 r cell.1)
        {| rMinX := width; rMaxX := 0; rMinY := height; rMaxY := 0; hasContent := false |}
        (boxCells c).
Proof. unfold tightRefit, boxCells. apply foldl_nested. Qed.

(** The refit loop over any list of in-bounds cells. *)
Lemma refit_fold_spec (cells : list (Z * Z)) :
  (forall x y, (x, y) ∈ cells -> 0 <= x < width /\ 0 <= y < height) ->
  let r := foldl (fun r cell => refitPixel width data cell.2 r cell.1)
             {| rMinX := width; rMaxX := 0; rMinY := height; rMaxY := 0; hasContent := false |}
             cells in
  (hasContent r = false ->
     forall x y, (x, y) ∈ cells -> ~ hasAlpha width data x y) /\
  (hasContent r = true -> TightOn width data cells r).
Proof.
  intros Hb.
  set (init := {| rMinX := width; rMaxX := 0; rMinY := height; rMaxY := 0;
                  hasContent := false |}).
  assert (Hfold :
    (fun pre r =>
       (hasContent r = false ->
          r = init /\ forall x y, (x, y) ∈ pre -> ~ hasAlpha width data x y) /\
       (hasContent r = true -> TightOn width data pre r))
      cells (foldl (fun r cell => refitPixel width data cell.2 r cell.1) init cells));
    [apply foldl_prefix_inv|].
  3:{ cbv zeta. destruct Hfold as [Hf Ht]. split; [|done]. intros Hc. by apply Hf. }
  - split; [|done]. intros _. split; [done|]. intros x y Hin. by apply elem_of_nil in Hin.
  - intros pre [x y] r [Hf Ht] Hin. destruct (Hb x y Hin) as [Hx Hy].
    unfold refitPixel. cbn [fst snd].
    destruct (gt (read data ((y * width + x) * 4 + 3)) ALPHA_THRESHOLD) eqn:Ha.
    + split; [done|]. intros _. cbn [hasContent].
      destruct (hasContent r) eqn:Hc.
      * destruct (Ht eq_refl) as [He (yl & Hl & Hal) (yr & Hr & Har) (xt & Htp & Hat)
                                     (xb & Hbt & Hab)].
        split; cbn [rMinX rMaxX rMinY rMaxY].
        -- intros x' y' [Hp|[= -> ->]%list_elem_of_singleton]%elem_of_app Hal'.
           ++ specialize (He x' y' Hp Hal').
              repeat match goal with |- context [if ?b then _ else _] =>
                       destruct (Z.ltb_spec0 x (rMinX r)), (Z.ltb_spec0 (rMaxX r) x),
                                (Z.ltb_spec0 y (rMinY r)), (Z.ltb_spec0 (rMaxY r) y) end; lia.
           ++ repeat match goal with |- context [if ?b then _ else _] =>
                       destruct (Z.ltb_spec0 x (rMinX r)), (Z.ltb_spec0 (rMaxX r) x),
                                (Z.ltb_spec0 y (rMinY r)), (Z.ltb_spec0 (rMaxY r) y) end; lia.
        -- destruct (x <? rMinX r);
             [exists y; split; [apply elem_of_app; right; left|done]
             |exists yl; split; [apply elem_of_app; by left|done]].
        -- destruct (rMaxX r <? x);
             [exists y; split; [apply elem_of_app; right; left|done]
             |exists yr; split; [apply elem_of_app; by left|done]].
        -- destruct (y <? rMinY r);
             [exists x; split; [apply elem_of_app; right; left|done]
             |exists xt; split; [apply elem_of_app; by left|done]].
        -- destruct (rMaxY r <? y);
             [exists x; split; [apply elem_of_app; right; left|done]
             |exists xb; split; [apply elem_of_app; by left|done]].
      * destruct (Hf eq_refl) as [-> Hno]. unfold init. cbn [rMinX rMaxX rMinY rMaxY].
        assert (Hx1 : (x <? width) = true) by (apply Z.ltb_lt; lia).
        assert (Hy1 : (y <? height) = true) by (apply Z.ltb_lt; lia).
        rewrite Hx1, Hy1.
        assert (Hx0 : (if 0 <? x then x else 0) = x) by (destruct (Z.ltb_spec0 0 x); lia).
        assert (Hy0 : (if 0 <? y then y else 0) = y) by (destruct (Z.ltb_spec0 0 y); lia).
        rewrite Hx0, Hy0.
        split; cbn [rMinX rMaxX rMinY rMaxY].
        -- intros x' y' [Hp|[= -> ->]%list_elem_of_singleton]%elem_of_app Hal'; [|lia].
           by destruct (Hno x' y' Hp).
        -- exists y. split; [apply elem_of_app; right; left|done].
        -- exists y. split; [apply elem_of_app; right; left|done].
        -- exists x. split; [apply elem_of_app; right; left|done].
        -- exists x. split; [apply elem_of_app; right; left|done].
    + split.
      * intros Hc. destruct (Hf Hc) as [-> Hno]. split; [done|].
        intros x' y' [Hp|[= -> ->]%list_elem_of_singleton]%elem_of_app; [by apply Hno|].
        unfold hasAlpha. by rewrite Ha.
      * intros Hc. destruct (Ht Hc) as [He (yl & Hl & Hal) (yr & Hr & Har) (xt & Htp & Hat)
                                          (xb & Hbt & Hab)].
        split.
        -- intros x' y' [Hp|[= -> ->]%list_elem_of_singleton]%elem_of_app Hal'; [by apply He|].
           unfold hasAlpha in Hal'. congruence.
        -- exists yl. split; [apply elem_of_app; by left|done].
        -- exists yr. split; [apply elem_of_app; by left|done].
        -- exists xt. split; [apply elem_of_app; by left|done].
        -- exists xb. split; [apply elem_of_app; by left|done].
Qed.

Lemma tightRefit_spec c :
  boxInBounds width height (cMinX c) (cMaxX c) (cMinY c) (cMaxY c) ->
  (hasContent (tightRefit width height data c) = false ->
     forall x y, inBox c x y -> ~ hasAlpha width data x y) /\
  (hasContent (tightRefit width height data c) = true ->
     TightOn width data (boxCells c) (tightRefit width height data c)).
Proof.
  intros Hbox. rewrite tightRefit_cells.
  destruct (refit_fold_spec (boxCells c)) as [Hf Ht].
  - intros x y [Hx Hy]%elem_of_boxCells. unfold boxInBounds in Hbox. lia.
  - split; [|done]. intros Hc x y Hin. apply (Hf Hc). by apply elem_of_boxCells.
Qed.
End Refit.

(** ** Padding and parity *)

Ltac bool_to_prop :=
  repeat match goal with
  | H : negb _ = true |- _ => apply negb_true_iff in H
  | H : negb _ = false |- _ => apply negb_false_iff in H
  | H : (_ =? _) = true |- _ => apply Z.eqb_eq in H
  | H : (_ =? _) = false |- _ => apply Z.eqb_neq in H
  | H : (_ <? _) = true |- _ => apply Z.ltb_lt in H
  | H : (_ <? _) = false |- _ => apply Z.ltb_ge in H
  end.

Section Pad.
Variables (width height : Z) (data : list Z).

Lemma tightRefit_minimal c :
  boxInBounds width height (cMinX c) (cMaxX c) (cMinY c) (cMaxY c) ->
  hasContent (tightRefit width height data c) = true ->
  MinimalEnclosing width data c (tightRefit width height data c).
Proof.
  intros Hbox Hc. destruct (tightRefit_spec width height data c Hbox) as [_ Ht].
  destruct (Ht Hc) as [He (yl & Hl & Hal) (yr & Hr & Har) (xt & Htp & Hat) (xb & Hbt & Hab)].
  split.
  - intros x y Hin. apply He. by apply elem_of_boxCells.
  - exists yl. by rewrite <- elem_of_boxCells.
  - exists yr. by rewrite <- elem_of_boxCells.
  - exists xt. by rewrite <- elem_of_boxCells.
  - exists xb. by rewrite <- elem_of_boxCells.
Qed.

(** The tight box of an in-bounds component lies in the image. *)
Lemma minimal_in_bounds c r :
  boxInBounds width height (cMinX c) (cMaxX c) (cMinY c) (cMaxY c) ->
  MinimalEnclosing width data c r ->
  0 <= rMinX r /\ rMinX r <= rMaxX r /\ rMaxX r < width /\
  0 <= rMinY r /\ rMinY r <= rMaxY r /\ rMaxY r < height.
Proof.
  intros Hbox [He (yl & [Hl1 Hl2] & Hal) (yr & [Hr1 Hr2] & Har)
                  (xt & [Ht1 Ht2] & Hat) (xb & [Hb1 Hb2] & Hab)].
  destruct (He _ _ (conj Hl1 Hl2) Hal). destruct (He _ _ (conj Ht1 Ht2) Hat).
  unfold boxInBounds in Hbox. lia.
Qed.

(** Padding and the parity step only ever move an edge outwards, and stay
    inside the image; the width comes out even unless the box already
    spans the whole image width, and likewise the height. *)
Lemma padRegion_spec r :
  0 <= rMinX r -> rMinX r <= rMaxX r -> rMaxX r < width ->
  0 <= rMinY r -> rMinY r <= rMaxY r -> rMaxY r < height ->
  let R := padRegion width height r in
  regionInBounds width height R /\
  minX R <= rMinX r /\ rMaxX r <= maxX R /\ minY R <= rMinY r /\ rMaxY r <= maxY R /\
  (Z.rem (regionWidth R) 2 = 0 \/ (minX R = 0 /\ maxX R = width - 1)) /\
  (Z.rem (regionHeight R) 2 = 0 \/ (minY R = 0 /\ maxY R = height - 1)).
Proof.
  intros. subst R. unfold padRegion, regionInBounds, regionWidth, regionHeight, PADDING in *.
  cbv zeta.
  repeat match goal with
         | |- context [if ?b then _ else _] => destruct b eqn:?
         end; cbn [minX maxX minY maxY]; bool_to_prop;
    Z.to_euclidean_division_equations; lia.
Qed.

(** The parity step never pulls an edge inwards, and moves the low edge
    only when the high edge already sits on the image boundary. *)
Lemma padRegion_edges r :
  let R := padRegion width height r in
  minX R <= Z.max 0 (rMinX r - PADDING) /\
  Z.min (width - 1) (rMaxX r + PADDING) <= maxX R /\
  minY R <= Z.max 0 (rMinY r - PADDING) /\
  Z.min (height - 1) (rMaxY r + PADDING) <= maxY R /\
  (minX R < Z.max 0 (rMinX r - PADDING) ->
     Z.min (width - 1) (rMaxX r + PADDING) = width - 1 /\ maxX R = width - 1) /\
  (minY R < Z.max 0 (rMinY r - PADDING) ->
     Z.min (height - 1) (rMaxY r + PADDING) = height - 1 /\ maxY R = height - 1).
Proof.
  intros R. subst R. unfold padRegion, PADDING. cbv zeta.
  repeat match goal with
         | |- context [if ?b then _ else _] => destruct b eqn:?
         end; cbn [minX maxX minY maxY]; bool_to_prop; lia.
Qed.
End Pad.

(** ** Regions of the pipeline *)

Section Pipeline.
Variables (width height : Z) (data : list Z).
Hypothesis (Hw : 0 <= width) (Hh : 0 <= height).

(** The scan pushes exactly the refined components, in order. *)
Lemma scan_objects dm :
  exists comps,
    labelComponents width height data dm = Some comps /\
    objects <$> scan width height data dm = Some (omap (refineComponent width height data) comps) /\
    forall c, c ∈ comps ->
      boxInBounds width height (cMinX c) (cMaxX c) (cMinY c) (cMaxY c).
Proof.
  destruct (scan_total width height data dm Hw Hh) as (st & Hscan & Hinv).
  exists (trace st). unfold labelComponents. rewrite Hscan. simpl.
  destruct Hinv as [_ _ _ _ Hobj Hcomps _]. split_and!; [done|by rewrite Hobj|].
  intros c (i & Hi)%list_elem_of_lookup. by destruct (Hcomps i c Hi) as [[] _].
Qed.

Lemma refineComponent_Some c R :
  boxInBounds width height (cMinX c) (cMaxX c) (cMinY c) (cMaxY c) ->
  refineComponent width height data c = Some R ->
  passesNoiseFilter c = true /\
  hasContent (tightRefit width height data c) = true /\
  R = padRegion width height (tightRefit width height data c) /\
  MinimalEnclosing width data c (tightRefit width height data c).
Proof.
  intros Hbox. unfold refineComponent.
  destruct (passesNoiseFilter c); [|done].
  destruct (hasContent (tightRefit width height data c)) eqn:Hc; [|done].
  intros [= <-]. split_and!; [done..|]. by apply tightRefit_minimal.
Qed.

(** Every region the scan pushes lies in the image; a dimension is even
    unless the region spans the image in that direction. *)
Lemma regions_in_bounds regions R :
  segmentRegions width height data = Some regions -> R ∈ regions ->
  regionInBounds width height R /\
  (Z.rem (regionWidth R) 2 = 0 \/ (minX R = 0 /\ maxX R = width - 1)) /\
  (Z.rem (regionHeight R) 2 = 0 \/ (minY R = 0 /\ maxY R = height - 1)).
Proof.
  intros Hseg HR. unfold segmentRegions in Hseg.
  destruct (scan_objects (dilatedMap width height data)) as (comps & _ & Hobj & Hbox).
  rewrite Hobj in Hseg. injection Hseg as <-.
  apply list_elem_of_omap in HR as (c & Hc & Href).
  destruct (refineComponent_Some c R (Hbox c Hc) Href) as (_ & _ & -> & Hmin).
  destruct (minimal_in_bounds width height data c _ (Hbox c Hc) Hmin) as (?&?&?&?&?&?).
  destruct (padRegion_spec width height (tightRefit width height data c))
    as (Hin & _ & _ & _ & _ & Hpw & Hph); done.
Qed.
End Pipeline.

(** C5. For every component that survives the noise filter, the box found
    by the refit is the minimal rectangle around the pixels of the original
    alpha channel with alpha above 20 inside the component's bounding box:
    it contains them all and each edge touches one. There is such a pixel
    iff the refit reports content; without one the component is dropped
    and yields no region. *)
Theorem tight_box_is_minimal (width height : Z) (data dm : list Z)
    (comps : list Component) (c : Component) :
  0 <= width -> 0 <= height ->
  labelComponents width height data dm = Some comps ->
  c ∈ comps ->
  passesNoiseFilter c = true ->
  let r := tightRefit width height data c in
  (hasContent r = true <-> exists x y, inBox c x y /\ hasAlpha width data x y) /\
  (hasContent r = true ->
     MinimalEnclosing width data c r /\
     refineComponent width height data c = Some (padRegion width height r)) /\
  (hasContent r = false -> refineComponent width height data c = None).
Proof.
  intros Hw Hh Hlab Hc Hpass r.
  destruct (scan_objects width height data Hw Hh dm) as (comps' & Hlab' & _ & Hbox).
  rewrite Hlab in Hlab'. injection Hlab' as <-. specialize (Hbox c Hc).
  destruct (tightRefit_spec width height data c Hbox) as [Hnone _].
  assert (Href : refineComponent width height data c =
                 if hasContent r then Some (padRegion width height r) else None)
    by (unfold refineComponent; by rewrite Hpass).
  split_and!.
  - split.
    + intros Hr. destruct (tightRefit_minimal width height data c Hbox Hr) as [_ (y & Hin & Ha) _ _ _].
      by exists (rMinX r), y.
    + intros (x & y & Hin & Ha). destruct (hasContent r) eqn:Hr; [done|].
      by destruct (Hnone Hr x y Hin).
  - intros Hr. split; [by apply tightRefit_minimal|]. by rewrite Href, Hr.
  - intros Hr. by rewrite Href, Hr.
Qed.

(** C10. Every region pushed by the scan comes from a component whose
    bounding box has all its pixels with alpha above 20 inside the region:
    the region contains the tight box padded by 10 and clamped, the parity
    step never pulls an edge inwards, and it moves the low edge only when
    the high edge already sits on the image boundary. *)
Theorem region_contains_content (width height : Z) (data : list Z)
    (regions : list Region) (R : Region) :
  0 <= width -> 0 <= height ->
  segmentRegions width height data = Some regions ->
  R ∈ regions ->
  exists comps c,
    labelComponents width height data (dilatedMap width height data) = Some comps /\
    c ∈ comps /\
    refineComponent width height data c = Some R /\
    (forall x y, inBox c x y -> hasAlpha width data x y ->
       minX R <= x <= maxX R /\ minY R <= y <= maxY R) /\
    let r := tightRefit width height data c in
    minX R <= Z.max 0 (rMinX r - PADDING) /\
    Z.min (width - 1) (rMaxX r + PADDING) <= maxX R /\
    minY R <= Z.max 0 (rMinY r - PADDING) /\
    Z.min (height - 1) (rMaxY r + PADDING) <= maxY R /\
    (minX R < Z.max 0 (rMinX r - PADDING) ->
       Z.min (width - 1) (rMaxX r + PADDING) = width - 1 /\ maxX R = width - 1) /\
    (minY R < Z.max 0 (rMinY r - PADDING) ->
       Z.min (height - 1) (rMaxY r + PADDING) = height - 1 /\ maxY R = height - 1).
Proof.
  intros Hw Hh Hseg HR. unfold segmentRegions in Hseg.
  destruct (scan_objects width height data Hw Hh (dilatedMap width height data))
    as (comps & Hlab & Hobj & Hbox).
  rewrite Hobj in Hseg. injection Hseg as <-.
  apply list_elem_of_omap in HR as (c & Hc & Href).
  exists comps, c. split; [done|]. split; [done|]. split; [done|].
  destruct (refineComponent_Some width height data c R (Hbox c Hc) Href) as (_ & _ & -> & Hmin).
  destruct (minimal_in_bounds width height data c _ (Hbox c Hc) Hmin) as (?&?&?&?&?&?).
  destruct (padRegion_spec width height (tightRefit width height data c))
    as (_ & Hx0 & Hx1 & Hy0 & Hy1 & _); [done..|].
  split.
  - intros x y Hin Ha. destruct (me_encloses _ _ _ _ Hmin x y Hin Ha). lia.
  - apply padRegion_edges.
Qed.

(** C4. The scan pushes exactly the refined components; a component is
    passed to the refit iff its bounding-box area
    (maxX - minX + 1) * (maxY - minY + 1) is strictly above 900 or its pixel
    count is strictly above 200. A component of area exactly 900 with
    exactly 200 pixels is rejected; one of area 930 is retained whatever
    its pixel count. *)
Theorem noise_filter_thresholds (width height : Z) (data : list Z) :
  0 <= width -> 0 <= height ->
  (exists comps,
     labelComponents width height data (dilatedMap width height data) = Some comps /\
     segmentRegions width height data = Some (omap (refineComponent width height data) comps)) /\
  forall c : Component,
    (passesNoiseFilter c = true <->
       (cMaxX c - cMinX c + 1) * (cMaxY c - cMinY c + 1) > 900 \/
       Z.of_nat (length (componentPixels c)) > 200) /\
    (passesNoiseFilter c = false -> refineComponent width height data c = None) /\
    (passesNoiseFilter c = true ->
       refineComponent width height data c =
       if hasContent (tightRefit width height data c)
       then Some (padRegion width height (tightRefit width height data c)) else None) /\
    (areaBox c = 900 -> length (componentPixels c) = 200%nat -> passesNoiseFilter c = false) /\
    (areaBox c = 930 -> passesNoiseFilter c = true).
Proof.
  intros Hw Hh. split.
  - destruct (scan_objects width height data Hw Hh (dilatedMap width height data))
      as (comps & Hlab & Hobj & _). by exists comps.
  - intros c. unfold refineComponent, passesNoiseFilter, areaBox. cbv zeta. split_and!.
    + rewrite orb_true_iff, !Z.ltb_lt. lia.
    + by intros ->.
    + by intros ->.
    + intros -> ->. done.
    + intros ->. done.
Qed.

(** C1. On a 15 by 15 bitmap with one opaque pixel in the middle the padded
    box spans the whole image, neither branch of the parity step applies,
    and the region pushed is 15 by 15: both dimensions odd. *)
Theorem odd_region_when_box_spans_image :
  segmentRegions 15 15 dot15 = Some [ {| minX := 0; minY := 0; maxX := 14; maxY := 14 |} ] /\
  Z.rem (regionWidth {| minX := 0; minY := 0; maxX := 14; maxY := 14 |}) 2 = 1 /\
  Z.rem (regionHeight {| minX := 0; minY := 0; maxX := 14; maxY := 14 |}) 2 = 1.
Proof. vm_compute. done. Qed.

Lemma tight_box_is_minimal_witness :
  exists comps c,
    0 <= 15 /\ 0 <= 15 /\
    labelComponents 15 15 dot15 (dilatedMap 15 15 dot15) = Some comps /\
    c ∈ comps /\ passesNoiseFilter c = true /\
    refineComponent 15 15 dot15 c = Some (padRegion 15 15 (tightRefit 15 15 dot15 c)).
Proof.
  destruct (labelComponents 15 15 dot15 (dilatedMap 15 15 dot15)) as [comps|] eqn:Hlab;
    [|vm_compute in Hlab; discriminate].
  destruct comps as [|c comps]; [vm_compute in Hlab; discriminate|].
  assert (Hc : c ∈ c :: comps) by left.
  assert (Hpass : passesNoiseFilter c = true).
  { vm_compute in Hlab. injection Hlab as <- _. vm_compute. reflexivity. }
  assert (Hcont : hasContent (tightRefit 15 15 dot15 c) = true).
  { vm_compute in Hlab. injection Hlab as <- _. vm_compute. reflexivity. }
  exists (c :: comps), c. split_and!; [lia|lia|reflexivity|done|done|].
  destruct (tight_box_is_minimal 15 15 dot15 (dilatedMap 15 15 dot15) (c :: comps) c
              ltac:(lia) ltac:(lia) Hlab Hc Hpass) as (_ & Hyes & _).
  exact (proj2 (Hyes Hcont)).
Defined.

Lemma region_contains_content_witness :
  0 <= 15 /\ 0 <= 15 /\
  exists R comps c,
    segmentRegions 15 15 dot15 = Some [R] /\
    labelComponents 15 15 dot15 (dilatedMap 15 15 dot15) = Some comps /\
    c ∈ comps /\
    refineComponent 15 15 dot15 c = Some R /\
    forall x y, inBox c x y -> hasAlpha 15 dot15 x y ->
      minX R <= x <= maxX R /\ minY R <= y <= maxY R.
Proof.
  split; [lia|]. split; [lia|].
  assert (Hseg : segmentRegions 15 15 dot15 =
                 Some [ {| minX := 0; minY := 0; maxX := 14; maxY := 14 |} ])
    by (vm_compute; reflexivity).
  destruct (region_contains_content 15 15 dot15 _ {| minX := 0; minY := 0; maxX := 14; maxY := 14 |}
              ltac:(lia) ltac:(lia) Hseg ltac:(left))
    as (comps & c & Hlab & Hc & Href & Hin & _).
  exists {| minX := 0; minY := 0; maxX := 14; maxY := 14 |}, comps, c.
  split; [exact Hseg|]. split; [exact Hlab|]. split; [exact Hc|]. split; [exact Href|].
  exact Hin.
Defined.

Lemma noise_filter_thresholds_witness :
  0 <= 15 /\ 0 <= 15 /\
  passesNoiseFilter {| cMinX := 0; cMaxX := 29; cMinY := 0; cMaxY := 29;
                       componentPixels := replicate 200 0 |} = false /\
  passesNoiseFilter {| cMinX := 0; cMaxX := 30; cMinY := 0; cMaxY := 29;
                       componentPixels := [0] |} = true.
Proof.
  split; [lia|]. split; [lia|].
  destruct (noise_filter_thresholds 15 15 dot15 ltac:(lia) ltac:(lia)) as [_ Hall].
  split.
  - apply (Hall {| cMinX := 0; cMaxX := 29; cMinY := 0; cMaxY := 29;
                   componentPixels := replicate 200 0 |}); reflexivity.
  - apply (Hall {| cMinX := 0; cMaxX := 30; cMinY := 0; cMaxY := 29;
                   componentPixels := [0] |}); reflexivity.
Defined.

(** ** Extraction *)

Section Extraction.
Variables (width height : Z) (data : list Z).

Lemma extractAll_Some host sid objs results :
  extractAll width height data host sid objs = Some results ->
  length results = length objs /\
  forall i, (forall o, results !! i = Some o ->
               exists R, objs !! i = Some R /\
                         extractObject width height data host sid i R = Some o) /\
            (forall R, objs !! i = Some R ->
               exists o, results !! i = Some o /\
                         extractObject width height data host sid i R = Some o).
Proof.
  unfold extractAll. intros HF%mapM_Some. split.
  - apply Forall2_length in HF. by rewrite length_imap in HF.
  - intros i. split.
    + intros o Ho. destruct (Forall2_lookup_r _ _ _ _ _ HF Ho) as (ox & Hox & ->).
      apply list_lookup_imap_Some in Hox as (R & HR & Hx). by exists R.
    + intros R HR.
      assert (Hi : imap (extractObject width height data host sid) objs !! i =
                   Some (extractObject width height data host sid i R))
        by (rewrite list_lookup_imap, HR; done).
      destruct (Forall2_lookup_l _ _ _ _ _ HF Hi) as (o & Ho & Hx). by exists o.
Qed.

Lemma extractAll_None host sid objs :
  extractAll width height data host sid objs = None <->
  exists i R, objs !! i = Some R /\ extractObject width height data host sid i R = None.
Proof.
  unfold extractAll. rewrite mapM_None, Exists_exists. split.
  - intros (ox & Hin & ->). apply list_elem_of_lookup in Hin as (i & Hi).
    apply list_lookup_imap_Some in Hi as (R & HR & Hx). by exists i, R.
  - intros (i & R & HR & Hx). exists None. split; [|done].
    apply list_elem_of_lookup. exists i. by rewrite list_lookup_imap, HR, <- Hx.
Qed.

Lemma extractObject_Some host sid i R o :
  extractObject width height data host sid i R = Some o ->
  placedAt R o /\ Obj.sourceId o = sid /\ Obj.id o = objId sid i (now host i) /\
  exists blob, convertToBlob host i (renderObject width height data R) = Some blob /\
               Obj.url o = createObjectURL host i blob.
Proof.
  unfold extractObject. destruct (objContext host i); [|done].
  destruct (convertToBlob host i _) as [blob|]; [|done].
  intros [= <-]. split_and!; try done. by exists blob.
Qed.

Lemma extractObject_None host sid i R :
  extractObject width height data host sid i R = None <->
  extractionFailsAt width height data host i R.
Proof.
  unfold extractObject, extractionFailsAt. destruct (objContext host i).
  - destruct (convertToBlob host i _).
    + split; [done|]. by intros [?|?].
    + split; [by right|done].
  - split; [by left|done].
Qed.

Lemma extractObject_objectOf host sid i R o :
  extractObject width height data host sid i R = Some o <->
  objContext host i = true /\
  exists blob, convertToBlob host i (renderObject width height data R) = Some blob /\
               o = objectOf host sid i R blob.
Proof.
  unfold extractObject, objectOf, regionWidth, regionHeight.
  destruct (objContext host i).
  - destruct (convertToBlob host i _) as [blob|].
    + split.
      * intros [= <-]. split; [done|]. by exists blob.
      * intros (_ & blob' & [= <-] & ->). done.
    + split; [done|]. by intros (_ & blob' & ? & _).
  - split; [done|]. by intros (? & _).
Qed.

(** A run that is cut short: the result is empty. *)
Lemma segmentImage_aborted host sid regions :
  segmentRegions width height data = Some regions ->
  (mainContext host = false \/
   exists i R, regions !! i = Some R /\ extractionFailsAt width height data host i R) ->
  segmentImage width height data host sid = Some [].
Proof.
  intros Hreg Hfail. unfold segmentImage. rewrite Hreg.
  destruct (mainContext host); [|done].
  destruct Hfail as [?|(i & R & HR & Hfail)]; [done|].
  assert (Hnone : extractAll width height data host sid regions = None).
  { apply extractAll_None. exists i, R. split; [done|]. by apply extractObject_None. }
  by rewrite Hnone.
Qed.

(** A run in which nothing fails: one object per region, in order. *)
Lemma segmentImage_complete host sid regions :
  segmentRegions width height data = Some regions ->
  extractionPasses width height data host regions ->
  exists results,
    segmentImage width height data host sid = Some results /\
    length results = length regions /\
    forall i R, regions !! i = Some R ->
      exists blob, convertToBlob host i (renderObject width height data R) = Some blob /\
                   results !! i = Some (objectOf host sid i R blob).
Proof.
  intros Hreg [Hctx Hok]. unfold segmentImage. rewrite Hreg, Hctx.
  destruct (extractAll width height data host sid regions) as [rs|] eqn:Hall.
  - exists rs. destruct (extractAll_Some _ _ _ _ Hall) as [Hl Hi].
    split; [done|]. split; [done|]. intros i R HR.
    destruct (proj2 (Hi i) R HR) as (o & Ho & Hex).
    apply extractObject_objectOf in Hex as (_ & blob & Hb & ->). by exists blob.
  - apply extractAll_None in Hall as (i & R & HR & Hx).
    apply extractObject_None in Hx. destruct (Hok i R HR) as [Hc [blob Hb]].
    destruct Hx as [Hx|Hx]; congruence.
Qed.

(** Either nothing fails, or the main context or some callback does. *)
Lemma extraction_passes_or_fails host regions :
  extractionPasses width height data host regions \/
  (mainContext host = false \/
   exists i R, regions !! i = Some R /\ extractionFailsAt width height data host i R).
Proof.
  destruct (mainContext host) eqn:Hctx; [|right; by left].
  destruct (extractAll width height data host EmptyString regions) as [rs|] eqn:Hall.
  - left. split; [done|]. intros i R HR.
    destruct (extractAll_Some _ _ _ _ Hall) as [_ Hi].
    destruct (proj2 (Hi i) R HR) as (o & _ & Hex).
    apply extractObject_objectOf in Hex as (Hc & blob & Hb & _).
    split; [done|]. by exists blob.
  - right. right. apply extractAll_None in Hall as (i & R & HR & Hx).
    exists i, R. split; [done|]. by apply extractObject_None in Hx.
Qed.

(** Byte by byte, the canvas holds the source rectangle. *)
Lemma drawImage_pixel sx sy ow oh dx dy ch :
  length data = Z.to_nat (width * height * 4) ->
  0 <= sx -> sx + ow <= width -> 0 <= sy -> sy + oh <= height ->
  0 <= dx < ow -> 0 <= dy < oh -> 0 <= ch < 4 ->
  read (canvasData (drawImage width height data sx sy ow oh)) ((dy * ow + dx) * 4 + ch) =
  read data (((sy + dy) * width + (sx + dx)) * 4 + ch).
Proof.
  intros Hlen Hsx Hsw Hsy Hsh Hdx Hdy Hch. unfold drawImage. cbn [canvasData].
  set (p := (dy * ow + dx) * 4 + ch).
  assert (Hp : 0 <= p < ow * oh * 4) by (unfold p; nia).
  unfold read at 1. destruct (Z.leb_spec 0 p); [|lia].
  rewrite list_lookup_fmap, lookup_seqZ_lt by lia. simpl.
  rewrite Z2Nat.id, Z.add_0_l by lia.
  assert (Hq : p / 4 = dy * ow + dx /\ p `mod` 4 = ch).
  { unfold p. split.
    - rewrite Z.add_comm, Z.div_add by lia. rewrite Z.div_small; lia.
    - rewrite Z.add_comm, Z.mod_add by lia. apply Z.mod_small; lia. }
  destruct Hq as [-> ->].
  destruct (pixel_recompose ow dx dy Hdx) as [-> ->].
  unfold sourceByte.
  assert (Hb : (0 <=? sx + dx) && (sx + dx <? width) && (0 <=? sy + dy) && (sy + dy <? height)
               = true).
  { rewrite !andb_true_iff, !Z.leb_le, !Z.ltb_lt. lia. }
  rewrite Hb.
  destruct (read_is_Some data (((sy + dy) * width + (sx + dx)) * 4 + ch)) as [v Hv].
  { rewrite Hlen. nia. }
  by rewrite Hv.
Qed.

Lemma length_drawImage sx sy ow oh :
  length (canvasData (drawImage width height data sx sy ow oh)) = Z.to_nat (ow * oh * 4).
Proof. unfold drawImage. cbn [canvasData]. by rewrite length_fmap, length_seqZ. Qed.
End Extraction.

(** C7. Every object returned sits at index [i] of the result for the
    region at index [i]: its width and height are the region's, its
    position the region's top-left corner, its URL that of the blob encoded
    from the canvas the region was drawn to, and that canvas holds, byte
    for byte, the source bitmap cropped at (x, y, width, height). *)
Theorem extraction_round_trip (width height : Z) (data : list Z) (host : Host)
    (sid : string) (results : list Obj.t) (i : nat) (o : Obj.t) :
  0 <= width -> 0 <= height ->
  length data = Z.to_nat (width * height * 4) ->
  segmentImage width height data host sid = Some results ->
  results !! i = Some o ->
  exists regions R blob,
    segmentRegions width height data = Some regions /\
    regions !! i = Some R /\
    Obj.width o = regionWidth R /\ Obj.height o = regionHeight R /\
    Obj.x o = minX R /\ Obj.y o = minY R /\
    convertToBlob host i (renderObject width height data R) = Some blob /\
    Obj.url o = createObjectURL host i blob /\
    canvasWidth (renderObject width height data R) = Obj.width o /\
    canvasHeight (renderObject width height data R) = Obj.height o /\
    length (canvasData (renderObject width height data R)) =
      Z.to_nat (Obj.width o * Obj.height o * 4) /\
    forall dx dy ch, 0 <= dx < Obj.width o -> 0 <= dy < Obj.height o -> 0 <= ch < 4 ->
      read (canvasData (renderObject width height data R)) ((dy * Obj.width o + dx) * 4 + ch) =
      read data (((Obj.y o + dy) * width + (Obj.x o + dx)) * 4 + ch).
Proof.
  intros Hw Hh Hlen Hseg Ho. unfold segmentImage in Hseg.
  destruct (mainContext host); [|injection Hseg as <-; done].
  destruct (segmentRegions width height data) as [regions|] eqn:Hreg; [|done].
  destruct (extractAll width height data host sid regions) as [rs|] eqn:Hall;
    injection Hseg as <-; [|done].
  destruct (extractAll_Some _ _ _ _ _ _ _ Hall) as [_ Hi].
  destruct (proj1 (Hi i) o Ho) as (R & HR & Hex).
  destruct (extractObject_Some _ _ _ _ _ _ _ _ Hex) as ((Hx & Hy & Hwd & Hht) & _ & _ & blob & Hb & Hu).
  destruct (regions_in_bounds width height data Hw Hh regions R Hreg) as (Hin & _).
  { by eapply list_elem_of_lookup_2. }
  exists regions, R, blob. split_and!; try done.
  - unfold renderObject. rewrite length_drawImage. by rewrite Hwd, Hht.
  - intros dx dy ch Hdx Hdy Hch. rewrite Hwd, Hx, Hy. rewrite Hwd in Hdx. rewrite Hht in Hdy.
    unfold regionInBounds, regionWidth, regionHeight in *.
    unfold renderObject. apply drawImage_pixel; lia.
Qed.

(** C2, as the code has it. If one object's extraction fails, because
    no 2d context is handed out for it or because the encoding of its
    raster fails (or the main canvas gets no context), [segmentImage]
    returns the empty array, siblings included. When nothing fails it
    returns one object per region, in discovery order, each with the id,
    sourceId, URL, dimensions and corner the callback builds. And only then:
    a non-empty result means that the main context, every object's context
    and every object's encoding succeeded. *)
Theorem encode_failure_empties_result (width height : Z) (data : list Z) (host : Host)
    (sid : string) (regions : list Region) :
  segmentRegions width height data = Some regions ->
  ((mainContext host = false \/
    exists i R, regions !! i = Some R /\
      (objContext host i = false \/
       convertToBlob host i (renderObject width height data R) = None)) ->
   segmentImage width height data host sid = Some []) /\
  ((mainContext host = true /\
    forall i R, regions !! i = Some R ->
      objContext host i = true /\
      is_Some (convertToBlob host i (renderObject width height data R))) ->
   exists results,
     segmentImage width height data host sid = Some results /\
     length results = length regions /\
     forall i R, regions !! i = Some R ->
       exists blob, convertToBlob host i (renderObject width height data R) = Some blob /\
         results !! i =
           Some {| Obj.id := objId sid i (now host i);
                   Obj.sourceId := sid;
                   Obj.url := createObjectURL host i blob;
                   Obj.width := maxX R - minX R + 1;
                   Obj.height := maxY R - minY R + 1;
                   Obj.x := minX R;
                   Obj.y := minY R |}) /\
  (forall results,
     segmentImage width height data host sid = Some results -> results <> [] ->
     mainContext host = true /\
     forall i R, regions !! i = Some R ->
       objContext host i = true /\
       is_Some (convertToBlob host i (renderObject width height data R))).
Proof.
  intros Hreg. split; [|split].
  - intros Hfail. by apply (segmentImage_aborted width height data host sid regions).
  - intros Hok.
    destruct (segmentImage_complete width height data host sid regions Hreg Hok)
      as (results & Hrun & Hlen & Hobj).
    exists results. split; [done|]. split; [done|]. exact Hobj.
  - intros results Hrun Hne.
    destruct (extraction_passes_or_fails width height data host regions) as [Hok|Hfail];
      [exact Hok|].
    rewrite (segmentImage_aborted width height data host sid regions Hreg Hfail) in Hrun.
    injection Hrun as <-. done.
Qed.

(** C2 fails as stated: on a bitmap with two objects and a host whose
    encoder rejects the first raster only, the second object's extraction
    and encoding succeed, yet the result is empty and does not contain
    it. *)
Lemma sibling_dropped_with_failed_encode :
  segmentRegions 54 11 twoDots =
    Some [ {| minX := 0; minY := 0; maxX := 13; maxY := 10 |};
           {| minX := 40; minY := 0; maxX := 53; maxY := 10 |} ] /\
  convertToBlob firstEncodeFails 0
    (renderObject 54 11 twoDots {| minX := 0; minY := 0; maxX := 13; maxY := 10 |}) = None /\
  exists sibling,
    extractObject 54 11 twoDots firstEncodeFails "a" 1
      {| minX := 40; minY := 0; maxX := 53; maxY := 10 |} = Some sibling /\
    segmentImage 54 11 twoDots firstEncodeFails "a" = Some [] /\
    ~ (forall results, segmentImage 54 11 twoDots firstEncodeFails "a" = Some results ->
                       sibling ∈ results).
Proof.
  assert (Hrun : segmentImage 54 11 twoDots firstEncodeFails "a" = Some [])
    by (vm_compute; reflexivity).
  split; [vm_compute; reflexivity|]. split; [reflexivity|].
  eexists. split; [reflexivity|]. split; [exact Hrun|].
  intros Hall. specialize (Hall [] Hrun). by apply elem_of_nil in Hall.
Qed.

Lemma encode_failure_empties_result_witness :
  segmentImage 54 11 twoDots firstEncodeFails "a" = Some [] /\
  segmentImage 54 11 twoDots secondContextMissing "a" = Some [].
Proof.
  assert (Hreg : segmentRegions 54 11 twoDots =
    Some [ {| minX := 0; minY := 0; maxX := 13; maxY := 10 |};
           {| minX := 40; minY := 0; maxX := 53; maxY := 10 |} ])
    by (vm_compute; reflexivity).
  split.
  - apply (encode_failure_empties_result 54 11 twoDots firstEncodeFails "a" _ Hreg).
    right. exists 0%nat, {| minX := 0; minY := 0; maxX := 13; maxY := 10 |}.
    split; [reflexivity|]. right. reflexivity.
  - apply (encode_failure_empties_result 54 11 twoDots secondContextMissing "a" _ Hreg).
    right. exists 1%nat, {| minX := 40; minY := 0; maxX := 53; maxY := 10 |}.
    split; [reflexivity|]. left. reflexivity.
Defined.

(** ** Two runs on the same bitmap *)

(** One run of [segmentImage] seen from outside: it returns, and what it
    returns is empty or has one object per region, in order, each placed at
    its region and named after its index and the clock. *)
Lemma segmentImage_run (width height : Z) (data : list Z) (host : Host) (sid : string) :
  0 <= width -> 0 <= height ->
  exists regions results,
    segmentRegions width height data = Some regions /\
    segmentImage width height data host sid = Some results /\
    (results = [] \/ length results = length regions) /\
    forall i o, results !! i = Some o ->
      exists R, regions !! i = Some R /\ placedAt R o /\
                Obj.sourceId o = sid /\ Obj.id o = objId sid i (now host i).
Proof.
  intros Hw Hh.
  destruct (scan_objects width height data Hw Hh (dilatedMap width height data))
    as (comps & _ & Hobj & _).
  exists (omap (refineComponent width height data) comps).
  unfold segmentImage, segmentRegions. rewrite Hobj.
  destruct (mainContext host).
  2:{ exists []. split_and!; [done|done|by left|]. intros i o Hi. done. }
  destruct (extractAll width height data host sid _) as [rs|] eqn:Hall.
  2:{ exists []. split_and!; [done|done|by left|]. intros i o Hi. done. }
  exists rs. destruct (extractAll_Some _ _ _ _ _ _ _ Hall) as [Hl Hi].
  split_and!; [done|done|by right|].
  intros i o Ho. destruct (proj1 (Hi i) o Ho) as (R & HR & Hex).
  destruct (extractObject_Some _ _ _ _ _ _ _ _ Hex) as (Hp & Hs & Hid & _).
  by exists R.
Qed.

(** C8. Two runs on the same bitmap with the same sourceId, under any two
    hosts: the regions are the same list; a run in which nothing fails
    returns one object per region, a run in which something fails returns
    nothing, whatever the clock reads. Objects at the same index sit at the
    same region, so agree in x, y, width and height and in sourceId, and
    their ids differ only in the clock reading. When nothing fails in
    either run the two results have the same length and, region by region,
    hold corresponding objects. *)
Theorem rerun_yields_same_regions (width height : Z) (data : list Z) (sid : string)
    (host1 host2 : Host) :
  0 <= width -> 0 <= height ->
  exists regions results1 results2,
    segmentRegions width height data = Some regions /\
    segmentImage width height data host1 sid = Some results1 /\
    segmentImage width height data host2 sid = Some results2 /\
    (results1 = [] \/ length results1 = length regions) /\
    (results2 = [] \/ length results2 = length regions) /\
    (forall i o1 o2, results1 !! i = Some o1 -> results2 !! i = Some o2 ->
      exists R, regions !! i = Some R /\ placedAt R o1 /\ placedAt R o2 /\
        Obj.x o1 = Obj.x o2 /\ Obj.y o1 = Obj.y o2 /\
        Obj.width o1 = Obj.width o2 /\ Obj.height o1 = Obj.height o2 /\
        Obj.sourceId o1 = Obj.sourceId o2 /\
        Obj.id o1 = objId sid i (now host1 i) /\
        Obj.id o2 = objId sid i (now host2 i)) /\
    (extractionPasses width height data host1 regions -> length results1 = length regions) /\
    (extractionPasses width height data host2 regions -> length results2 = length regions) /\
    (~ extractionPasses width height data host1 regions -> results1 = []) /\
    (~ extractionPasses width height data host2 regions -> results2 = []) /\
    (extractionPasses width height data host1 regions ->
     extractionPasses width height data host2 regions ->
     length results1 = length results2 /\
     forall i R, regions !! i = Some R ->
       exists o1 o2, results1 !! i = Some o1 /\ results2 !! i = Some o2 /\
         placedAt R o1 /\ placedAt R o2 /\
         Obj.x o1 = Obj.x o2 /\ Obj.y o1 = Obj.y o2 /\
         Obj.width o1 = Obj.width o2 /\ Obj.height o1 = Obj.height o2 /\
         Obj.sourceId o1 = sid /\ Obj.sourceId o2 = sid /\
         Obj.id o1 = objId sid i (now host1 i) /\
         Obj.id o2 = objId sid i (now host2 i)).
Proof.
  intros Hw Hh.
  destruct (segmentImage_run width height data host1 sid Hw Hh)
    as (regions & r1 & Hreg & Hrun1 & Hlen1 & Hobj1).
  destruct (segmentImage_run width height data host2 sid Hw Hh)
    as (regions' & r2 & Hreg' & Hrun2 & Hlen2 & Hobj2).
  rewrite Hreg in Hreg'. injection Hreg' as <-.
  assert (Hfull : forall host r,
    segmentImage width height data host sid = Some r ->
    extractionPasses width height data host regions ->
    length r = length regions /\
    forall i R, regions !! i = Some R ->
      exists blob, r !! i = Some (objectOf host sid i R blob)).
  { intros host r Hrun Hok.
    destruct (segmentImage_complete width height data host sid regions Hreg Hok)
      as (r' & Hrun' & Hlen & Hobj).
    rewrite Hrun in Hrun'. injection Hrun' as <-. split; [done|].
    intros i R HR. destruct (Hobj i R HR) as (blob & _ & Hi). by exists blob. }
  assert (Hcut : forall host r,
    segmentImage width height data host sid = Some r ->
    ~ extractionPasses width height data host regions -> r = []).
  { intros host r Hrun Hno.
    destruct (extraction_passes_or_fails width height data host regions) as [Hok|Hfail];
      [by destruct Hno|].
    rewrite (segmentImage_aborted width height data host sid regions Hreg Hfail) in Hrun.
    by injection Hrun as <-. }
  exists regions, r1, r2.
  split; [done|]. split; [done|]. split; [done|]. split; [done|]. split; [done|].
  split; [|split; [|split; [|split; [|split]]]].
  - intros i o1 o2 Ho1 Ho2.
    destruct (Hobj1 i o1 Ho1) as (R & HR & Hp1 & Hs1 & Hid1).
    destruct (Hobj2 i o2 Ho2) as (R' & HR' & Hp2 & Hs2 & Hid2).
    rewrite HR in HR'. injection HR' as <-.
    exists R. destruct Hp1 as (?&?&?&?), Hp2 as (?&?&?&?).
    split_and!; try done; congruence.
  - intros Hok. by apply (Hfull host1 r1 Hrun1 Hok).
  - intros Hok. by apply (Hfull host2 r2 Hrun2 Hok).
  - by apply Hcut.
  - by apply Hcut.
  - intros Hok1 Hok2.
    destruct (Hfull host1 r1 Hrun1 Hok1) as [Hl1 Hf1].
    destruct (Hfull host2 r2 Hrun2 Hok2) as [Hl2 Hf2].
    split; [congruence|]. intros i R HR.
    destruct (Hf1 i R HR) as (b1 & Hi1). destruct (Hf2 i R HR) as (b2 & Hi2).
    exists (objectOf host1 sid i R b1), (objectOf host2 sid i R b2).
    split; [done|]. split; [done|]. unfold placedAt, objectOf. cbn. tauto.
Qed.

Lemma rerun_yields_same_regions_witness :
  0 <= 54 /\ 0 <= 11 /\
  exists results1 results2,
    segmentImage 54 11 twoDots testHost "a" = Some results1 /\
    segmentImage 54 11 twoDots laterHost "a" = Some results2 /\
    length results1 = length results2 /\
    forall i o1 o2, results1 !! i = Some o1 -> results2 !! i = Some o2 ->
      Obj.x o1 = Obj.x o2 /\ Obj.y o1 = Obj.y o2 /\
      Obj.width o1 = Obj.width o2 /\ Obj.height o1 = Obj.height o2.
Proof.
  split; [lia|]. split; [lia|].
  destruct (rerun_yields_same_regions 54 11 twoDots "a" testHost laterHost
              ltac:(lia) ltac:(lia))
    as (regions & r1 & r2 & _ & Hrun1 & Hrun2 & _ & _ & Hsame & _ & _ & _ & _ & Hboth).
  exists r1, r2. split; [exact Hrun1|]. split; [exact Hrun2|]. split.
  - apply Hboth.
    + split; [reflexivity|]. intros i R _. split; [reflexivity|].
      exact (ex_intro _ _ eq_refl).
    + split; [reflexivity|]. intros i R _. split; [reflexivity|].
      exact (ex_intro _ _ eq_refl).
  - intros i o1 o2 Ho1 Ho2.
    destruct (Hsame i o1 o2 Ho1 Ho2) as (R & _ & _ & _ & ? & ? & ? & ? & _).
    tauto.
Defined.

Lemma extraction_round_trip_witness :
  exists results o,
    0 <= 15 /\ 0 <= 15 /\ length dot15 = Z.to_nat (15 * 15 * 4) /\
    segmentImage 15 15 dot15 testHost "a" = Some results /\
    results !! 0%nat = Some o /\
    exists R, Obj.width o = regionWidth R /\ Obj.height o = regionHeight R /\
      read (canvasData (renderObject 15 15 dot15 R)) ((7 * Obj.width o + 7) * 4 + 3) =
      read dot15 (((Obj.y o + 7) * 15 + (Obj.x o + 7)) * 4 + 3).
Proof.
  destruct (segmentImage 15 15 dot15 testHost "a") as [results|] eqn:Hrun;
    [|vm_compute in Hrun; discriminate].
  destruct results as [|o results]; [vm_compute in Hrun; discriminate|].
  assert (Hlen : length dot15 = Z.to_nat (15 * 15 * 4)) by (vm_compute; reflexivity).
  assert (Hdim : Obj.width o = 15 /\ Obj.height o = 15).
  { vm_compute in Hrun. injection Hrun as <- _. split; reflexivity. }
  exists (o :: results), o.
  split; [lia|]. split; [lia|]. split; [exact Hlen|]. split; [reflexivity|].
  split; [reflexivity|].
  destruct (extraction_round_trip 15 15 dot15 testHost "a" (o :: results) 0%nat o
              ltac:(lia) ltac:(lia) Hlen Hrun eq_refl)
    as (regions & R & blob & _ & _ & Hwd & Hht & _ & _ & _ & _ & _ & _ & _ & Hpix).
  exists R. split; [exact Hwd|]. split; [exact Hht|].
  apply Hpix; lia.
Defined.

(** ** The alpha mask and the dilated mask *)

Lemma binaryMap_read (width height : Z) (data : list Z) (p : Z) :
  0 <= p < width * height ->
  length (binaryMap width height data) = Z.to_nat (width * height) /\
  read (binaryMap width height data) p =
    Some (if gt (read data (p * 4 + 3)) ALPHA_THRESHOLD then 1 else 0).
Proof.
  intros Hp. unfold binaryMap.
  match goal with |- context [foldl ?g _ (seqZ 0 _)] =>
    assert (Hpaint : paints (fun a => foldl g a (seqZ 0 (width * height)))
      (fun j => exists i, i ∈ seqZ 0 (width * height) /\
         (gt (read data (i * 4 + 3)) ALPHA_THRESHOLD = true /\ j = i)))
  end.
  { apply paints_foldl. intros i _. apply paints_if, paints_write. }
  destruct (Hpaint (alloc (width * height))) as (Hl & Hb & Hj).
  rewrite length_alloc in Hl, Hj. split; [done|].
  specialize (Hb (bits_alloc _)). specialize (Hj p).
  destruct (read_is_Some (foldl (fun bm i =>
              if gt (read data (i * 4 + 3)) ALPHA_THRESHOLD then write bm i 1 else bm)
              (alloc (width * height)) (seqZ 0 (width * height))) p) as [v Hv].
  { rewrite Hl. lia. }
  rewrite Hv. f_equal. unfold isOne in Hj. rewrite Hv in Hj.
  destruct (gt (read data (p * 4 + 3)) ALPHA_THRESHOLD) eqn:Hg.
  - assert (Some v = Some 1) as [= ->]; [|done]. apply Hj. right. split; [lia|].
    exists p. split; [apply elem_of_seqZ; lia|done].
  - destruct (Hb p v Hv) as [->| ->]; [done|]. exfalso.
    destruct Hj as [Hj _]. destruct (Hj eq_refl) as [H0 | [_ (i & _ & Hgi & ->)]].
    + by apply isOne_alloc in H0.
    + congruence.
Qed.

(** X1. The binary map has one entry per pixel, and the entry of pixel [p]
    is 1 when its alpha byte is above 20 and 0 otherwise. *)
Theorem binaryMap_thresholds_alpha (width height : Z) (data : list Z) (p : Z) :
  0 <= p < width * height ->
  length (binaryMap width height data) = Z.to_nat (width * height) /\
  read (binaryMap width height data) p =
    Some (if gt (read data (p * 4 + 3)) ALPHA_THRESHOLD then 1 else 0).
Proof. apply binaryMap_read. Qed.

Lemma binaryMap_thresholds_alpha_witness :
  0 <= 112 < 15 * 15 /\ read (binaryMap 15 15 dot15) 112 = Some 1.
Proof.
  split; [lia|].
  destruct (binaryMap_thresholds_alpha 15 15 dot15 112 ltac:(lia)) as [_ Hr].
  rewrite Hr. vm_compute. reflexivity.
Defined.

Lemma dilate_extensive (width height : Z) (src : list Z) (p : Z) :
  0 <= width -> 0 <= height ->
  0 <= p < width * height ->
  length (dilate width height src) = Z.to_nat (width * height) /\
  (exists v, read (dilate width height src) p = Some v /\ (v = 0 \/ v = 1)) /\
  (truthy (read src p) = true -> read (dilate width height src) p = Some 1).
Proof.
  intros Hw Hh Hp.
  destruct (dilate_spec width height Hw Hh src) as (Hl & Hb & Hspec).
  split; [done|]. split.
  - destruct (read_is_Some (dilate width height src) p) as [v Hv]; [rewrite Hl; lia|].
    exists v. split; [done|]. by eapply Hb.
  - intros Ht. destruct (pixel_decompose width height p Hp Hw) as (Hx & Hy & Hxy).
    rewrite Hxy at 1. apply Hspec; [done..|].
    exists (p `mod` width), (p / width). rewrite <- Hxy. unfold kernelSize.
    split_and!; try done; lia.
Qed.

(** X2. Dilation keeps the size of the mask, writes only 0 and 1, and never
    clears a pixel: whatever is foreground before is 1 afterwards. *)
Theorem dilation_is_extensive (width height : Z) (src : list Z) (p : Z) :
  0 <= width -> 0 <= height ->
  0 <= p < width * height ->
  length (dilate width height src) = Z.to_nat (width * height) /\
  (exists v, read (dilate width height src) p = Some v /\ (v = 0 \/ v = 1)) /\
  (truthy (read src p) = true -> read (dilate width height src) p = Some 1).
Proof. apply dilate_extensive. Qed.

Lemma dilation_is_extensive_witness :
  0 <= 3 /\ 0 <= 2 /\ 0 <= 1 < 3 * 2 /\
  read (dilate 3 2 [0; 1; 0; 0; 0; 0]) 1 = Some 1.
Proof.
  split; [lia|]. split; [lia|]. split; [lia|].
  apply (dilation_is_extensive 3 2 [0; 1; 0; 0; 0; 0] 1); [lia..|reflexivity].
Defined.

(** ** Shape of one flood fill: connectivity, coverage, bounding rectangle *)

Lemma adjacent_sym (width height p q : Z) :
  adjacent width height p q -> adjacent width height q p.
Proof. unfold adjacent. intros (Hp & Hq & Hc). split_and!; try lia. Qed.

Section Shape.
Variables (width height : Z) (dm vis0 : list Z) (seed : Z).
Hypothesis Hvis0 : length vis0 = Z.to_nat (width * height).
Hypothesis Hw : 0 < width.
Local Arguments visitNeighbor : simpl never.
Local Arguments bfsStep : simpl never.

(** The entries of [neighbors] that pass the bounds test are exactly the
    edge neighbours of the pixel. *)
Lemma neighbors_adjacent curr nx ny :
  0 <= curr < width * height ->
  (nx, ny) ∈ neighbors (Z.rem curr width) (curr / width) ->
  (0 <=? nx) && (nx <? width) && (0 <=? ny) && (ny <? height) = true ->
  adjacent width height curr (getIdx width nx ny).
Proof.
  intros Hc Hin Hb. rewrite Z.rem_mod_nonneg in Hin by lia.
  repeat (apply andb_true_iff in Hb as [Hb ?]).
  apply Z.leb_le in Hb. rewrite ?Z.leb_le, ?Z.ltb_lt in *.
  unfold adjacent, getIdx. destruct (pixel_recompose width nx ny ltac:(lia)) as [-> ->].
  split; [done|]. split; [nia|].
  unfold neighbors in Hin.
  repeat (apply elem_of_cons in Hin as [[= -> ->]|Hin]; [lia|]).
  by apply elem_of_nil in Hin.
Qed.

Lemma adjacent_neighbors curr q :
  adjacent width height curr q ->
  exists nx ny, (nx, ny) ∈ neighbors (Z.rem curr width) (curr / width) /\
    (0 <=? nx) && (nx <? width) && (0 <=? ny) && (ny <? height) = true /\
    q = getIdx width nx ny.
Proof.
  intros (Hc & Hq & Hcase). rewrite Z.rem_mod_nonneg by lia.
  assert (0 <= height) by nia.
  destruct (pixel_decompose width height q Hq ltac:(lia)) as (Hx & Hy & Hxy).
  exists (q `mod` width), (q / width). split_and!.
  - unfold neighbors.
    destruct Hcase as [[-> ->]|[[-> ->]|[[-> ->]|[-> ->]]]].
    + left.
    + right; left.
    + do 2 right; left.
    + do 3 right; left.
  - rewrite !andb_true_iff, !Z.leb_le, !Z.ltb_lt. lia.
  - unfold getIdx. lia.
Qed.

Lemma FillInv_mono vis q nb j :
  FillInv width height dm vis0 seed vis q ->
  truthy (read vis j) = true ->
  truthy (read (fst (visitNeighbor width height dm (vis, q) nb)) j) = true.
Proof.
  intros Hinv Ht. destruct (visitNeighbor_inv width height dm vis0 seed Hvis0 vis q nb Hinv)
    as (ext & He & Hinv').
  apply (fi_vis _ _ _ _ _ _ _ Hinv'). rewrite He.
  apply (fi_vis _ _ _ _ _ _ _ Hinv) in Ht as [|]; [by left|right].
  apply elem_of_app. by left.
Qed.

Lemma visitNeighbor_covers vis q nx ny :
  FillInv width height dm vis0 seed vis q ->
  (0 <=? nx) && (nx <? width) && (0 <=? ny) && (ny <? height) = true ->
  strictEq (read dm (getIdx width nx ny)) 1 = true ->
  truthy (read (fst (visitNeighbor width height dm (vis, q) (nx, ny))) (getIdx width nx ny))
    = true.
Proof.
  intros Hinv Hb Hd. unfold visitNeighbor. rewrite Hb, Hd.
  destruct (truthy (read vis (getIdx width nx ny))) eqn:Ht; simpl; [done|].
  rewrite read_write_eq; [done|].
  repeat (apply andb_true_iff in Hb as [Hb ?]).
  apply Z.leb_le in Hb. rewrite ?Z.leb_le, ?Z.ltb_lt in *.
  rewrite (fi_len _ _ _ _ _ _ _ Hinv), Hvis0. unfold getIdx. nia.
Qed.

(** After the four neighbours are looked at, every listed one that is in
    bounds with mask value 1 is visited, old marks are kept, and every
    queued pixel is still linked to the seed. *)
Lemma visitNeighbors_shape curr nbs vis q :
  FillInv width height dm vis0 seed vis q ->
  0 <= curr < width * height -> curr ∈ q ->
  (forall nx ny, (nx, ny) ∈ nbs ->
     (0 <=? nx) && (nx <? width) && (0 <=? ny) && (ny <? height) = true ->
     adjacent width height curr (getIdx width nx ny)) ->
  (forall p, p ∈ q -> rtc (fillStep width height dm q) seed p) ->
  let res := foldl (visitNeighbor width height dm) (vis, q) nbs in
  (forall j, truthy (read vis j) = true -> truthy (read res.1 j) = true) /\
  (forall nx ny, (nx, ny) ∈ nbs ->
     (0 <=? nx) && (nx <? width) && (0 <=? ny) && (ny <? height) = true ->
     strictEq (read dm (getIdx width nx ny)) 1 = true ->
     truthy (read res.1 (getIdx width nx ny)) = true) /\
  (forall p, p ∈ res.2 -> rtc (fillStep width height dm res.2) seed p).
Proof.
  revert vis q. induction nbs as [|[nx ny] nbs IH]; intros vis q Hinv Hc Hcq Hadj Hconn res.
  - subst res. simpl. split_and!; [done| |done].
    intros nx ny Hin. by apply elem_of_nil in Hin.
  - subst res. cbn [foldl].
    destruct (visitNeighbor_inv width height dm vis0 seed Hvis0 vis q (nx, ny) Hinv)
      as (ext & He & Hinv').
    pose proof (FillInv_mono vis q (nx, ny)) as Hmono.
    pose proof (visitNeighbor_covers vis q nx ny Hinv) as Hcov.
    assert (Hconn' : forall p,
      p ∈ (visitNeighbor width height dm (vis, q) (nx, ny)).2 ->
      rtc (fillStep width height dm (visitNeighbor width height dm (vis, q) (nx, ny)).2)
          seed p).
    { unfold visitNeighbor in *.
      destruct ((0 <=? nx) && (nx <? width) && (0 <=? ny) && (ny <? height)) eqn:Hb;
        [|exact Hconn].
      destruct (negb (truthy (read vis (getIdx width nx ny))) &&
                strictEq (read dm (getIdx width nx ny)) 1) eqn:Hcond; [|exact Hconn].
      cbn [fst snd] in *. apply andb_true_iff in Hcond as [_ Hd].
      assert (Hsub : forall a b, fillStep width height dm q a b ->
                fillStep width height dm (q ++ [getIdx width nx ny]) a b).
      { intros a b (? & ? & ?). split_and!; [done..|]. apply elem_of_app. by left. }
      intros p [Hp | ->%list_elem_of_singleton]%elem_of_app.
      - eapply rtc_subrel; [exact Hsub|]. by apply Hconn.
      - eapply rtc_r; [eapply rtc_subrel; [exact Hsub|]; by apply Hconn|].
        split_and!; [apply Hadj; [left|done] | done | apply elem_of_app; right; left]. }
    destruct (visitNeighbor width height dm (vis, q) (nx, ny)) as [vis1 q1] eqn:Hv.
    cbn [fst snd] in *.
    destruct (IH vis1 q1 Hinv' Hc) as (Hm & Hcv & Hcn).
    { rewrite He. apply elem_of_app. by left. }
    { intros nx' ny' Hin. apply Hadj. by right. }
    { exact Hconn'. }
    split_and!.
    + intros j Hj. apply Hm. by apply (Hmono j Hinv).
    + intros nx' ny' [[= -> ->]|Hin]%elem_of_cons Hb Hd.
      * apply Hm. by apply Hcov.
      * by apply Hcv.
    + exact Hcn.
Qed.

Lemma spans_snoc (f : Z -> Z) ps x lo hi :
  spans f ps lo hi ->
  spans f (ps ++ [x]) (if f x <? lo then f x else lo) (if hi <? f x then f x else hi).
Proof.
  intros (Hin & (pl & Hpl & Hl) & (ph & Hph & Hh)). split_and!.
  - intros p [Hp | ->%list_elem_of_singleton]%elem_of_app.
    + specialize (Hin p Hp). destruct (Z.ltb_spec (f x) lo), (Z.ltb_spec hi (f x)); lia.
    + destruct (Z.ltb_spec (f x) lo), (Z.ltb_spec hi (f x)); lia.
  - destruct (Z.ltb_spec (f x) lo).
    + exists x. split; [apply elem_of_app; right; left|done].
    + exists pl. split; [apply elem_of_app; by left|done].
  - destruct (Z.ltb_spec hi (f x)).
    + exists x. split; [apply elem_of_app; right; left|done].
    + exists ph. split; [apply elem_of_app; by left|done].
Qed.

Lemma bfsStep_shape st currIdx :
  BfsInv width height dm vis0 seed st ->
  BfsShape width height dm seed st ->
  queue st !! head st = Some currIdx ->
  BfsShape width height dm seed (bfsStep width height dm st currIdx).
Proof.
  intros Hinv [Hconn Hcov HsX HsY] Hcur.
  pose proof (bi_fill _ _ _ _ _ _ Hinv) as Hfill.
  assert (Hcq : currIdx ∈ queue st) by (by eapply list_elem_of_lookup_2).
  destruct (fi_range _ _ _ _ _ _ _ Hfill currIdx Hcq) as (Hr & _).
  assert (Hlt : (head st < length (queue st))%nat) by (by eapply lookup_lt_Some).
  destruct (visitNeighbors_inv width height dm vis0 seed Hvis0
              (neighbors (Z.rem currIdx width) (currIdx / width))
              (visited st) (queue st) Hfill) as (ext & Hext & Hfill').
  destruct (visitNeighbors_shape currIdx
              (neighbors (Z.rem currIdx width) (currIdx / width))
              (visited st) (queue st) Hfill Hr Hcq) as (Hm & Hcv & Hcn).
  { intros nx ny. by apply neighbors_adjacent. }
  { exact Hconn. }
  unfold bfsStep.
  destruct (foldl _ _ _) as [vis q]. cbn [fst snd] in *. subst q.
  assert (Htake : take (S (head st)) (queue st ++ ext) = take (head st) (queue st) ++ [currIdx]).
  { rewrite (take_S_r _ _ currIdx) by (by apply lookup_app_l_Some).
    by rewrite take_app_le by lia. }
  split; cbn [queue head visited bMinX bMaxX bMinY bMaxY].
  - exact Hcn.
  - rewrite Htake. intros p q [Hp | ->%list_elem_of_singleton]%elem_of_app Hadj Hd.
    + apply Hm. by eapply Hcov.
    + destruct (adjacent_neighbors currIdx q Hadj) as (nx & ny & Hin & Hb & ->).
      by apply Hcv.
  - rewrite Htake, Z.rem_mod_nonneg by lia.
    apply (spans_snoc (fun p => p `mod` width) (seed :: take (head st) (queue st))). exact HsX.
  - rewrite Htake.
    apply (spans_snoc (fun p => p / width) (seed :: take (head st) (queue st))). exact HsY.
Qed.

Lemma bfsLoop_shape fuel st fin :
  bfsLoop width height fuel dm st = Some fin ->
  BfsInv width height dm vis0 seed st ->
  BfsShape width height dm seed st ->
  BfsShape width height dm seed fin.
Proof.
  revert st. induction fuel as [|fuel IH]; intros st Hrun Hinv Hshape; [done|].
  simpl in Hrun. destruct (queue st !! head st) as [currIdx|] eqn:Hcur.
  - apply (IH _ Hrun).
    + by apply bfsStep_inv.
    + by apply bfsStep_shape.
  - by injection Hrun as <-.
Qed.

Lemma bfsInit_shape x y :
  0 <= x < width -> 0 <= y < height -> seed = getIdx width x y ->
  BfsShape width height dm seed (bfsInit width vis0 x y).
Proof.
  intros Hx Hy ->. unfold bfsInit. destruct (pixel_recompose width x y Hx) as [Hm Hd].
  split; cbn [queue head visited bMinX bMaxX bMinY bMaxY take].
  - intros p ->%list_elem_of_singleton. apply rtc_refl.
  - intros p q Hp. by apply elem_of_nil in Hp.
  - unfold spans. split_and!.
    + intros p ->%list_elem_of_singleton. unfold getIdx. lia.
    + exists (getIdx width x y). split; [left|done].
    + exists (getIdx width x y). split; [left|done].
  - unfold spans. split_and!.
    + intros p ->%list_elem_of_singleton. unfold getIdx. lia.
    + exists (getIdx width x y). split; [left|done].
    + exists (getIdx width x y). split; [left|done].
Qed.
End Shape.

(** ** Shape of the components *)

Section ScanShapes.
Variables (width height : Z) (data dm : list Z).
Hypothesis (Hw : 0 <= width) (Hh : 0 <= height).
Local Arguments refineComponent : simpl never.

Lemma spans_equiv (f : Z -> Z) l1 l2 lo hi :
  (forall p, p ∈ l1 <-> p ∈ l2) -> spans f l1 lo hi -> spans f l2 lo hi.
Proof.
  intros He (Hin & (pl & Hpl & Hl) & (ph & Hph & Hh')). split_and!.
  - intros p Hp. apply Hin. by apply He.
  - exists pl. split; [by apply He|done].
  - exists ph. split; [by apply He|done].
Qed.

Lemma maskOk_foreground p :
  maskOk width height dm -> 0 <= p < width * height ->
  strictEq (read dm p) 0 = false -> strictEq (read dm p) 1 = true.
Proof.
  intros [Hl Hb] Hp Hfg. destruct (read_is_Some dm p) as [v Hv]; [rewrite Hl; lia|].
  rewrite Hv in *. destruct (Hb p v Hv) as [-> | ->]; done.
Qed.

Lemma scanPixel_shape k st st' :
  0 <= k < width * height ->
  ScanInv width height data dm k st ->
  ScanShape width height dm st ->
  scanPixel width height data dm (k / width) st (k `mod` width) = Some st' ->
  ScanShape width height dm st'.
Proof.
  intros Hk [Hlen Hdone Hvis Hnd Hobj Hcomps Hsorted] [Hshape Hclosed].
  destruct (pixel_decompose width height k Hk Hw) as (Hx & Hy & Hkxy).
  unfold scanPixel.
  replace (getIdx width (k `mod` width) (k / width)) with k by (unfold getIdx; lia).
  destruct (truthy (read (sVisited st) k) || strictEq (read dm k) 0) eqn:Hc.
  { intros [= <-]. by split. }
  apply orb_false_iff in Hc as [Hnv Hfg].
  pose proof (bfsInit_inv width height dm (sVisited st) k Hlen _ _ Hx Hy
                ltac:(unfold getIdx; lia) Hnv) as Hinit.
  pose proof (bfsInit_shape width height dm (sVisited st) k ltac:(lia) _ _ Hx Hy
                ltac:(unfold getIdx; lia)) as Hinit2.
  destruct (bfsLoop_terminates width height dm (sVisited st) k Hlen
              (bfsFuel width height) _ ltac:(lia) Hh Hinit) as (fin & Hrun & Hinv & Hhd & ext & Hq).
  { unfold bfsFuel. simpl. lia. }
  pose proof (bfsLoop_shape width height dm (sVisited st) k Hlen ltac:(lia) _ _ _
                Hrun Hinit Hinit2) as [Hconn Hcov HsX HsY].
  rewrite Hrun. intros [= <-]. cbn [trace].
  destruct Hinv as [[Hflen Hfnd Hfrange Hfvis] _ Hpix _ Hbox].
  simpl in Hq. replace (getIdx width (k `mod` width) (k / width)) with k in Hq
    by (unfold getIdx; lia).
  rewrite Hhd, firstn_all in Hpix, Hcov, HsX, HsY.
  assert (Hcp : componentPixels (componentOf fin) = queue fin) by (simpl; by rewrite Hpix).
  assert (Hfp : firstPixel (componentOf fin) = k)
    by (unfold firstPixel; by rewrite Hcp, Hq).
  assert (Hsame : forall p, p ∈ k :: queue fin <-> p ∈ queue fin).
  { intros p. rewrite elem_of_cons. split; [|by right].
    intros [->|]; [|done]. rewrite Hq. left. }
  assert (Hnew : CompShape width height dm (componentOf fin)).
  { split.
    - rewrite Hcp, Hfp. exact Hconn.
    - rewrite Hcp. by eapply spans_equiv.
    - rewrite Hcp. by eapply spans_equiv. }
  split.
  - intros c [Hc | ->%list_elem_of_singleton]%elem_of_app; [by apply Hshape|done].
  - intros Hok c [Hc | ->%list_elem_of_singleton]%elem_of_app; [by apply Hclosed|].
    intros p q Hp Hadj Hd. rewrite Hcp in *.
    pose proof (Hcov p q Hp Hadj Hd) as Hq'.
    apply Hfvis in Hq' as [Hv0 | ?]; [|done]. exfalso.
    apply Hvis, list_elem_of_bind in Hv0 as (c' & Hqc' & Hc').
    destruct (Hfrange p Hp) as (Hr & Hpv0 & Hpd).
    assert (Hd1 : strictEq (read dm p) 1 = true).
    { destruct Hpd as [->|]; [|done]. by apply maskOk_foreground. }
    pose proof (Hclosed Hok c' Hc' q p Hqc' (adjacent_sym _ _ _ _ Hadj) Hd1) as Hpc'.
    assert (truthy (read (sVisited st) p) = true); [|congruence].
    apply Hvis, list_elem_of_bind. by exists c'.
Qed.

Lemma scan_total_shape :
  exists st, scan width height data dm = Some st /\
             ScanInv width height data dm (width * height) st /\
             ScanShape width height dm st.
Proof.
  unfold scan, scanRow.
  rewrite (forM_raster (scanPixel width height data dm) width height _ Hw Hh).
  destruct (forM_seqZ_total
    (fun k st => ScanInv width height data dm k st /\ ScanShape width height dm st)
    (fun s p => scanPixel width height data dm (p / width) s (p `mod` width))
    (width * height)
    {| sVisited := alloc (width * height); objects := []; trace := [] |})
    as (st & Hrun & Hinv & Hshape).
  - nia.
  - split; [apply scan_init_inv|]. split.
    + intros c Hc. by apply elem_of_nil in Hc.
    + intros _ c Hc. by apply elem_of_nil in Hc.
  - intros k st Hk [Hinv Hshape].
    destruct (scanPixel_step width height data dm Hw Hh k st Hk Hinv) as (st' & Hstep & Hinv').
    exists st'. split_and!; [done..|]. by eapply scanPixel_shape.
  - by exists st.
Qed.

Lemma labelComponents_shape comps :
  labelComponents width height data dm = Some comps ->
  exists st, trace st = comps /\
             ScanInv width height data dm (width * height) st /\
             ScanShape width height dm st.
Proof.
  intros Hlab. destruct scan_total_shape as (st & Hscan & Hinv & Hshape).
  unfold labelComponents in Hlab. rewrite Hscan in Hlab. injection Hlab as <-.
  by exists st.
Qed.
End ScanShapes.

(** X3. The rectangle a flood fill tracks is the exact bounding box of the
    component: it lies in the image, every pixel of the component is inside
    it, and each of its four edges holds a pixel of the component. *)
Theorem component_box_is_exact (width height : Z) (data dm : list Z)
    (comps : list Component) (c : Component) :
  0 <= width -> 0 <= height ->
  labelComponents width height data dm = Some comps ->
  c ∈ comps ->
  0 <= cMinX c /\ cMaxX c < width /\ 0 <= cMinY c /\ cMaxY c < height /\
  (forall p, p ∈ componentPixels c ->
     cMinX c <= p `mod` width <= cMaxX c /\ cMinY c <= p / width <= cMaxY c) /\
  (exists p, p ∈ componentPixels c /\ p `mod` width = cMinX c) /\
  (exists p, p ∈ componentPixels c /\ p `mod` width = cMaxX c) /\
  (exists p, p ∈ componentPixels c /\ p / width = cMinY c) /\
  (exists p, p ∈ componentPixels c /\ p / width = cMaxY c).
Proof.
  intros Hw Hh Hlab Hc.
  destruct (labelComponents_shape width height data dm Hw Hh comps Hlab)
    as (st & <- & Hinv & [Hshape _]).
  destruct (Hshape c Hc) as [_ (HinX & HlX & HhX) (HinY & HlY & HhY)].
  apply list_elem_of_lookup in Hc as (i & Hi).
  destruct (si_comps _ _ _ _ _ _ Hinv i c Hi) as [[_ _ _ _ _ Hbox] _].
  unfold boxInBounds in Hbox. split_and!; try lia; try done.
  intros p Hp. split; [by apply HinX|by apply HinY].
Qed.

(** X4. A component is 4-connected: each of its pixels is reached from its
    first pixel by moves to edge neighbours of mask value 1 that stay
    inside the component. *)
Theorem component_is_connected (width height : Z) (data dm : list Z)
    (comps : list Component) (c : Component) (p : Z) :
  0 <= width -> 0 <= height ->
  labelComponents width height data dm = Some comps ->
  c ∈ comps -> p ∈ componentPixels c ->
  rtc (fillStep width height dm (componentPixels c)) (firstPixel c) p.
Proof.
  intros Hw Hh Hlab Hc Hp.
  destruct (labelComponents_shape width height data dm Hw Hh comps Hlab)
    as (st & <- & _ & [Hshape _]).
  by apply (cs_conn _ _ _ _ (Hshape c Hc)).
Qed.

(** X5. On a mask of 0/1 entries, one per pixel, a component is a whole
    4-connected component: an edge neighbour of mask value 1 of one of its
    pixels is in it too, so the component is exactly the set of pixels
    reachable from its first pixel through the mask. *)
Theorem component_is_maximal (width height : Z) (data dm : list Z)
    (comps : list Component) (c : Component) :
  0 <= width -> 0 <= height ->
  maskOk width height dm ->
  labelComponents width height data dm = Some comps ->
  c ∈ comps ->
  (forall p q, p ∈ componentPixels c -> adjacent width height p q ->
               strictEq (read dm q) 1 = true -> q ∈ componentPixels c) /\
  (forall q, q ∈ componentPixels c <->
             rtc (maskStep width height dm) (firstPixel c) q).
Proof.
  intros Hw Hh Hok Hlab Hc.
  destruct (labelComponents_shape width height data dm Hw Hh comps Hlab)
    as (st & <- & Hinv & [Hshape Hclosed]).
  specialize (Hclosed Hok c Hc). split; [exact Hclosed|].
  assert (Hfirst : firstPixel c ∈ componentPixels c).
  { apply list_elem_of_lookup in Hc as (i & Hi).
    destruct (si_comps _ _ _ _ _ _ Hinv i c Hi) as [[(rest & Hcp & _) _ _ _ _ _] _].
    rewrite Hcp. left. }
  intros q. split.
  - intros Hq. eapply rtc_subrel; [|by apply (cs_conn _ _ _ _ (Hshape c Hc))].
    intros a b (? & ? & _). by split.
  - intros Hr. induction Hr as [|a b d [Hadj Hd] _ IH]; [done|].
    apply IH. by eapply Hclosed.
Qed.

Lemma component_box_is_exact_witness :
  0 <= 3 /\ 0 <= 2 /\
  exists comps c, labelComponents 3 2 [] sampleMask = Some comps /\ c ∈ comps /\
    forall p, p ∈ componentPixels c ->
      cMinX c <= p `mod` 3 <= cMaxX c /\ cMinY c <= p / 3 <= cMaxY c.
Proof.
  split; [lia|]. split; [lia|].
  destruct (labelComponents 3 2 [] sampleMask) as [comps|] eqn:Hlab;
    [|vm_compute in Hlab; discriminate].
  destruct comps as [|c comps]; [vm_compute in Hlab; discriminate|].
  exists (c :: comps), c. split; [reflexivity|]. split; [left|].
  destruct (component_box_is_exact 3 2 [] sampleMask (c :: comps) c
              ltac:(lia) ltac:(lia) Hlab ltac:(left)) as (_ & _ & _ & _ & Hin & _).
  exact Hin.
Defined.

Lemma component_is_connected_witness :
  0 <= 3 /\ 0 <= 2 /\
  exists comps c, labelComponents 3 2 [] sampleMask = Some comps /\ c ∈ comps /\
    3 ∈ componentPixels c /\
    rtc (fillStep 3 2 sampleMask (componentPixels c)) (firstPixel c) 3.
Proof.
  split; [lia|]. split; [lia|].
  assert (Hlab : labelComponents 3 2 [] sampleMask =
    Some [ {| cMinX := 0; cMaxX := 0; cMinY := 0; cMaxY := 1; componentPixels := [0; 3] |};
           {| cMinX := 2; cMaxX := 2; cMinY := 0; cMaxY := 0; componentPixels := [2] |} ])
    by (vm_compute; reflexivity).
  eexists _, _. split; [exact Hlab|]. split; [left|].
  assert (Hp : 3 ∈ [0; 3]) by (right; left).
  split; [exact Hp|].
  eapply (component_is_connected 3 2 [] sampleMask); [lia|lia|exact Hlab|left|exact Hp].
Defined.

Lemma component_is_maximal_witness :
  0 <= 3 /\ 0 <= 2 /\ maskOk 3 2 sampleMask /\
  exists comps c, labelComponents 3 2 [] sampleMask = Some comps /\ c ∈ comps /\
    forall q, q ∈ componentPixels c <-> rtc (maskStep 3 2 sampleMask) (firstPixel c) q.
Proof.
  split; [lia|]. split; [lia|].
  assert (Hok : maskOk 3 2 sampleMask).
  { split; [reflexivity|]. intros j v Hr.
    pose proof (read_Some_lt _ _ _ Hr) as Hl. simpl in Hl.
    assert (j = 0 \/ j = 1 \/ j = 2 \/ j = 3 \/ j = 4 \/ j = 5) as Hj by lia.
    destruct Hj as [->|[->|[->|[->|[->| ->]]]]]; injection Hr as <-; lia. }
  split; [exact Hok|].
  assert (Hlab : labelComponents 3 2 [] sampleMask =
    Some [ {| cMinX := 0; cMaxX := 0; cMinY := 0; cMaxY := 1; componentPixels := [0; 3] |};
           {| cMinX := 2; cMaxX := 2; cMinY := 0; cMaxY := 0; componentPixels := [2] |} ])
    by (vm_compute; reflexivity).
  eexists _, _. split; [exact Hlab|]. split; [left|].
  eapply (component_is_maximal 3 2 [] sampleMask); [lia|lia|exact Hok|exact Hlab|left].
Defined.

(** ** Components of the dilated mask *)

Section Squares.
Variables (width height : Z) (dm : list Z) (c : Component).
Hypothesis Hclosed : closedComponent width height dm c.

Lemma adjacent_row x y :
  0 <= x -> x + 1 < width -> 0 <= y < height ->
  adjacent width height (getIdx width x y) (getIdx width (x + 1) y).
Proof.
  intros. unfold adjacent, getIdx.
  destruct (pixel_recompose width x y ltac:(lia)) as [-> ->].
  destruct (pixel_recompose width (x + 1) y ltac:(lia)) as [-> ->].
  split; [nia|]. split; [nia|]. by left.
Qed.

Lemma adjacent_col x y :
  0 <= x < width -> 0 <= y -> y + 1 < height ->
  adjacent width height (getIdx width x y) (getIdx width x (y + 1)).
Proof.
  intros. unfold adjacent, getIdx.
  destruct (pixel_recompose width x y ltac:(lia)) as [-> ->].
  destruct (pixel_recompose width x (y + 1) ltac:(lia)) as [-> ->].
  split; [nia|]. split; [nia|]. do 2 right. by left.
Qed.

(** A rectangle of mask value 1 that meets the component lies in it. *)
Lemma rect_in_component x0 x1 y0 y1 px py :
  0 <= x0 -> x1 < width -> 0 <= y0 -> y1 < height ->
  (forall x y, x0 <= x <= x1 -> y0 <= y <= y1 ->
               strictEq (read dm (getIdx width x y)) 1 = true) ->
  x0 <= px <= x1 -> y0 <= py <= y1 ->
  getIdx width px py ∈ componentPixels c ->
  forall x y, x0 <= x <= x1 -> y0 <= y <= y1 -> getIdx width x y ∈ componentPixels c.
Proof.
  intros Hx0 Hx1 Hy0 Hy1 Hone Hpx Hpy Hp.
  assert (Hrow : forall d : nat, forall x, x0 <= x <= x1 -> Z.abs (x - px) = Z.of_nat d ->
            getIdx width x py ∈ componentPixels c).
  { induction d as [|d IH]; intros x Hx Hd.
    - replace x with px by lia. done.
    - destruct (Z.lt_ge_cases px x).
      + apply (Hclosed (getIdx width (x - 1) py)); [apply IH; lia| |apply Hone; lia].
        replace x with (x - 1 + 1) at 2 by lia. apply adjacent_row; lia.
      + apply (Hclosed (getIdx width (x + 1) py)); [apply IH; lia| |apply Hone; lia].
        apply (adjacent_sym width height). apply adjacent_row; lia. }
  assert (Hcol : forall d : nat, forall x y, x0 <= x <= x1 -> y0 <= y <= y1 ->
            Z.abs (y - py) = Z.of_nat d -> getIdx width x y ∈ componentPixels c).
  { induction d as [|d IH]; intros x y Hx Hy Hd.
    - replace y with py by lia. apply (Hrow (Z.to_nat (Z.abs (x - px)))); lia.
    - destruct (Z.lt_ge_cases py y).
      + apply (Hclosed (getIdx width x (y - 1))); [apply IH; lia| |apply Hone; lia].
        replace y with (y - 1 + 1) at 2 by lia. apply adjacent_col; lia.
      + apply (Hclosed (getIdx width x (y + 1))); [apply IH; lia| |apply Hone; lia].
        apply (adjacent_sym width height). apply adjacent_col; lia. }
  intros x y Hx Hy. apply (Hcol (Z.to_nat (Z.abs (y - py)))); lia.
Qed.
End Squares.

Section Merging.
Variables (width height : Z) (data : list Z).
Hypothesis (Hw : 0 <= width) (Hh : 0 <= height).

Lemma dilatedMap_ok : maskOk width height (dilatedMap width height data).
Proof.
  unfold dilatedMap. destruct (dilate_spec width height Hw Hh (binaryMap width height data))
    as (Hl & Hb & _). by split.
Qed.

Lemma binaryMap_truthy x y :
  0 <= x < width -> 0 <= y < height ->
  truthy (read (binaryMap width height data) (y * width + x)) = true <->
  hasAlpha width data x y.
Proof.
  intros Hx Hy. destruct (binaryMap_read width height data (y * width + x)) as [_ Hr]; [nia|].
  rewrite Hr. unfold hasAlpha.
  destruct (gt (read data ((y * width + x) * 4 + 3)) ALPHA_THRESHOLD); simpl; split; congruence.
Qed.

(** Around a pixel with alpha above the threshold the dilated mask is 1
    on the whole clamped 31 by 31 square. *)
Lemma dilatedMap_square qx qy x y :
  0 <= qx < width -> 0 <= qy < height -> hasAlpha width data qx qy ->
  Z.max 0 (qx - 15) <= x <= Z.min (width - 1) (qx + 15) ->
  Z.max 0 (qy - 15) <= y <= Z.min (height - 1) (qy + 15) ->
  strictEq (read (dilatedMap width height data) (getIdx width x y)) 1 = true.
Proof.
  intros Hqx Hqy Ha Hx Hy. unfold dilatedMap, getIdx.
  destruct (dilate_spec width height Hw Hh (binaryMap width height data)) as (_ & _ & Hspec).
  assert (Hone : isOne (dilate width height (binaryMap width height data)) (y * width + x)).
  { apply Hspec; [lia..|]. exists qx, qy. unfold kernelSize.
    split_and!; try lia. by apply binaryMap_truthy. }
  unfold isOne in Hone. by rewrite Hone.
Qed.

(** The component of a pixel of the dilated mask holds the pixel with
    alpha above the threshold that set it. *)
Lemma dilatedMap_origin p :
  0 <= p < width * height ->
  strictEq (read (dilatedMap width height data) p) 1 = true ->
  exists qx qy, 0 <= qx < width /\ 0 <= qy < height /\ hasAlpha width data qx qy /\
    Z.max 0 (qx - 15) <= p `mod` width <= Z.min (width - 1) (qx + 15) /\
    Z.max 0 (qy - 15) <= p / width <= Z.min (height - 1) (qy + 15).
Proof.
  intros Hp Hd. destruct (pixel_decompose width height p Hp Hw) as (Hx & Hy & Hxy).
  unfold dilatedMap in Hd.
  destruct (dilate_spec width height Hw Hh (binaryMap width height data)) as (_ & _ & Hspec).
  assert (Hone : isOne (dilate width height (binaryMap width height data))
                   (p / width * width + p `mod` width)).
  { rewrite <- Hxy. unfold isOne.
    destruct (read (dilate width height (binaryMap width height data)) p) as [v|]; [|done].
    simpl in Hd. apply Z.eqb_eq in Hd. by subst. }
  apply Hspec in Hone as (qx & qy & Hqx & Hqy & Ht & Hdx & Hdy); [|done..].
  exists qx, qy. unfold kernelSize in *. split_and!; try lia. by apply binaryMap_truthy.
Qed.


Lemma pipeline_components comps :
  labelComponents width height data (dilatedMap width height data) = Some comps ->
  NoDup (allPixels comps) /\
  (forall c, c ∈ comps -> closedComponent width height (dilatedMap width height data) c) /\
  (forall c, c ∈ comps -> CompShape width height (dilatedMap width height data) c) /\
  (forall c, c ∈ comps ->
     firstPixel c ∈ componentPixels c /\ 0 <= firstPixel c < width * height /\
     strictEq (read (dilatedMap width height data) (firstPixel c)) 1 = true /\
     boxInBounds width height (cMinX c) (cMaxX c) (cMinY c) (cMaxY c)) /\
  (forall p, 0 <= p < width * height ->
     strictEq (read (dilatedMap width height data) p) 1 = true ->
     exists c, c ∈ comps /\ p ∈ componentPixels c).
Proof.
  intros Hlab.
  destruct (labelComponents_shape width height data _ Hw Hh comps Hlab)
    as (st & <- & Hinv & [Hshape Hclosed]).
  destruct Hinv as [_ Hdone Hvis Hnd _ Hcomps _].
  split_and!; [done| |done| |].
  - apply Hclosed, dilatedMap_ok.
  - intros c (i & Hi)%list_elem_of_lookup.
    destruct (Hcomps i c Hi) as [[(rest & Hcp & _) Hrange Hpos Hfg _ Hbox] Hlt].
    split_and!; [rewrite Hcp; left|lia|lia| |done].
    eapply maskOk_foreground; [apply dilatedMap_ok|lia|done].
  - intros p Hp Hd. destruct (Hdone p Hp) as [Ht|Hz].
    + apply Hvis, list_elem_of_bind in Ht as (c & ? & ?). by exists c.
    + by destruct (strictEq_0_1 _ Hz Hd).
Qed.
End Merging.

(** X7. In the pipeline, where the labelled mask is the dilated one, the
    content guard never drops a component: every component holds a pixel
    with alpha above 20, inside its bounding box, so the refit always
    reports content and a component yields a region iff it passes the noise
    filter. *)
Theorem content_guard_never_fires (width height : Z) (data : list Z)
    (comps : list Component) (c : Component) :
  0 <= width -> 0 <= height ->
  labelComponents width height data (dilatedMap width height data) = Some comps ->
  c ∈ comps ->
  (exists x y, inBox c x y /\ hasAlpha width data x y /\
               getIdx width x y ∈ componentPixels c) /\
  hasContent (tightRefit width height data c) = true /\
  refineComponent width height data c =
    if passesNoiseFilter c then Some (padRegion width height (tightRefit width height data c))
    else None.
Proof.
  intros Hw Hh Hlab Hc.
  destruct (pipeline_components width height data Hw Hh comps Hlab)
    as (_ & Hclosed & Hshape & Hfirst & _).
  destruct (Hfirst c Hc) as (Hin & Hr & Hd & Hbox).
  destruct (dilatedMap_origin width height data Hw Hh _ Hr Hd)
    as (qx & qy & Hqx & Hqy & Ha & Hdx & Hdy).
  destruct (pixel_decompose width height _ Hr Hw) as (Hx & Hy & Hxy).
  assert (Hq : getIdx width qx qy ∈ componentPixels c).
  { apply (rect_in_component width height _ c (Hclosed c Hc)
             (Z.max 0 (qx - 15)) (Z.min (width - 1) (qx + 15))
             (Z.max 0 (qy - 15)) (Z.min (height - 1) (qy + 15))
             (firstPixel c `mod` width) (firstPixel c / width)); try lia.
    - intros x y Hx' Hy'. by apply (dilatedMap_square width height data Hw Hh qx qy).
    - unfold getIdx. by rewrite <- Hxy. }
  assert (Hbx : inBox c qx qy).
  { destruct (Hshape c Hc) as [_ (HinX & _) (HinY & _)].
    specialize (HinX _ Hq). specialize (HinY _ Hq). cbv beta in HinX, HinY.
    unfold getIdx in HinX, HinY.
    destruct (pixel_recompose width qx qy Hqx) as [Hm Hdv]. rewrite Hm in HinX.
    rewrite Hdv in HinY. by split. }
  assert (Hcont : hasContent (tightRefit width height data c) = true).
  { destruct (hasContent (tightRefit width height data c)) eqn:E; [done|].
    destruct (tightRefit_spec width height data c Hbox) as [Hnone _].
    by destruct (Hnone E qx qy Hbx). }
  split; [by exists qx, qy|]. split; [done|].
  unfold refineComponent. by rewrite Hcont.
Qed.


(** ** Regions and identities *)

Lemma omap_filter_fmap {A B} (f : A -> option B) (P : A -> bool) (g : A -> B) (l : list A) :
  (forall a, a ∈ l -> f a = if P a then Some (g a) else None) ->
  omap f l = g <$> filter (fun a => P a = true) l.
Proof.
  induction l as [|a l IH]; intros Hf; [done|].
  cbn [omap list_omap]. rewrite (Hf a) by left.
  rewrite filter_cons. rewrite IH by (intros b Hb; apply Hf; by right).
  destruct (P a) eqn:E.
  - rewrite decide_True by done. done.
  - rewrite decide_False by congruence. done.
Qed.

(** X6. Every region pushed by the scan is a non-empty rectangle inside the
    image; its width is even unless it spans the whole image width, and its
    height is even unless it spans the whole image height. *)
Theorem regions_lie_in_image (width height : Z) (data : list Z)
    (regions : list Region) (R : Region) :
  0 <= width -> 0 <= height ->
  segmentRegions width height data = Some regions ->
  R ∈ regions ->
  0 <= minX R /\ minX R <= maxX R /\ maxX R < width /\
  0 <= minY R /\ minY R <= maxY R /\ maxY R < height /\
  (Z.rem (regionWidth R) 2 = 0 \/ (minX R = 0 /\ maxX R = width - 1)) /\
  (Z.rem (regionHeight R) 2 = 0 \/ (minY R = 0 /\ maxY R = height - 1)).
Proof.
  intros Hw Hh Hseg HR.
  destruct (regions_in_bounds width height data Hw Hh regions R Hseg HR) as (Hin & Hpw & Hph).
  unfold regionInBounds in Hin. tauto.
Qed.

Lemma regions_lie_in_image_witness :
  0 <= 54 /\ 0 <= 11 /\
  exists regions, segmentRegions 54 11 twoDots = Some regions /\
    forall R, R ∈ regions -> 0 <= minX R /\ maxX R < 54 /\ 0 <= minY R /\ maxY R < 11.
Proof.
  split; [lia|]. split; [lia|].
  destruct (segmentRegions 54 11 twoDots) as [regions|] eqn:Hseg;
    [|vm_compute in Hseg; discriminate].
  exists regions. split; [reflexivity|]. intros R HR.
  destruct (regions_lie_in_image 54 11 twoDots regions R ltac:(lia) ltac:(lia) Hseg HR)
    as (? & ? & ? & ? & ? & ? & _).
  tauto.
Defined.

(** X9. The regions of an image are the padded tight boxes of exactly the
    components that pass the noise filter, in discovery order. *)
Theorem regions_are_filtered_components (width height : Z) (data : list Z) :
  0 <= width -> 0 <= height ->
  exists comps,
    labelComponents width height data (dilatedMap width height data) = Some comps /\
    segmentRegions width height data =
      Some ((fun c => padRegion width height (tightRefit width height data c))
              <$> filter (fun c => passesNoiseFilter c = true) comps).
Proof.
  intros Hw Hh.
  destruct (scan_objects width height data Hw Hh (dilatedMap width height data))
    as (comps & Hlab & Hobj & _).
  exists comps. split; [done|]. unfold segmentRegions. rewrite Hobj. f_equal.
  apply omap_filter_fmap. intros c Hc.
  destruct (pipeline_components width height data Hw Hh comps Hlab)
    as (_ & Hclosed & Hshape & Hfirst & _).
  destruct (Hfirst c Hc) as (Hin & Hr & Hd & Hbox).
  destruct (dilatedMap_origin width height data Hw Hh _ Hr Hd)
    as (qx & qy & Hqx & Hqy & Ha & Hdx & Hdy).
  destruct (pixel_decompose width height _ Hr Hw) as (Hx & Hy & Hxy).
  assert (Hq : getIdx width qx qy ∈ componentPixels c).
  { apply (rect_in_component width height _ c (Hclosed c Hc)
             (Z.max 0 (qx - 15)) (Z.min (width - 1) (qx + 15))
             (Z.max 0 (qy - 15)) (Z.min (height - 1) (qy + 15))
             (firstPixel c `mod` width) (firstPixel c / width)); try lia.
    - intros x y Hx' Hy'. by apply (dilatedMap_square width height data Hw Hh qx qy).
    - unfold getIdx. by rewrite <- Hxy. }
  assert (Hbx : inBox c qx qy).
  { destruct (Hshape c Hc) as [_ (HinX & _) (HinY & _)].
    specialize (HinX _ Hq). specialize (HinY _ Hq). cbv beta in HinX, HinY.
    unfold getIdx in HinX, HinY.
    destruct (pixel_recompose width qx qy Hqx) as [Hm Hdv]. rewrite Hm in HinX.
    rewrite Hdv in HinY. by split. }
  unfold refineComponent.
  destruct (hasContent (tightRefit width height data c)) eqn:E; [done|].
  destruct (tightRefit_spec width height data c Hbox) as [Hnone _].
  by destruct (Hnone E qx qy Hbx).
Qed.

Lemma regions_are_filtered_components_witness :
  0 <= 15 /\ 0 <= 15 /\
  exists comps, labelComponents 15 15 dot15 (dilatedMap 15 15 dot15) = Some comps /\
    segmentRegions 15 15 dot15 =
      Some ((fun c => padRegion 15 15 (tightRefit 15 15 dot15 c))
              <$> filter (fun c => passesNoiseFilter c = true) comps).
Proof.
  split; [lia|]. split; [lia|].
  exact (regions_are_filtered_components 15 15 dot15 ltac:(lia) ltac:(lia)).
Defined.

Lemma content_guard_never_fires_witness :
  0 <= 15 /\ 0 <= 15 /\
  exists comps c, labelComponents 15 15 dot15 (dilatedMap 15 15 dot15) = Some comps /\
    c ∈ comps /\ hasContent (tightRefit 15 15 dot15 c) = true.
Proof.
  split; [lia|]. split; [lia|].
  destruct (labelComponents 15 15 dot15 (dilatedMap 15 15 dot15)) as [comps|] eqn:Hlab;
    [|vm_compute in Hlab; discriminate].
  destruct comps as [|c comps]; [vm_compute in Hlab; discriminate|].
  exists (c :: comps), c. split; [reflexivity|]. split; [left|].
  destruct (content_guard_never_fires 15 15 dot15 (c :: comps) c
              ltac:(lia) ltac:(lia) Hlab ltac:(left)) as (_ & Hcont & _).
  exact Hcont.
Defined.


Section Identity.

Lemma pretty_N_go_dashFree (x : N) (s : string) :
  dashFree s -> dashFree (pretty_N_go x s).
Proof.
  revert s. induction (N.lt_wf_0 x) as [x _ IH]; intros s Hs.
  assert (x = 0 \/ 0 < x)%N as [->|Hpos] by lia.
  - by rewrite pretty_N_go_0.
  - rewrite pretty_N_go_step by done. apply IH.
    + by apply N.div_lt.
    + split; [|done]. unfold pretty_N_char. by repeat case_match.
Qed.

Lemma pretty_nat_dashFree (n : nat) : dashFree (pretty n).
Proof.
  unfold pretty, pretty_nat, pretty, pretty_N. case_decide.
  - simpl. split; [done|done].
  - by apply pretty_N_go_dashFree.
Qed.

Lemma dashFree_split (a b x y : string) :
  dashFree a -> dashFree b ->
  a +:+ String "-" x = b +:+ String "-" y -> a = b /\ x = y.
Proof.
  revert b. induction a as [|ch a IH]; intros [|ch' b] Ha Hb He; simpl in *.
  - injection He as ->. done.
  - injection He as <- _. by destruct Hb.
  - injection He as -> _. by destruct Ha.
  - injection He as -> He. destruct Ha as [_ Ha], Hb as [_ Hb].
    destruct (IH b Ha Hb He) as [-> ->]. done.
Qed.

(** An id names its index and its clock reading. *)
Lemma objId_inj (sid : string) (i j : nat) (t t' : Z) :
  objId sid i t = objId sid j t' -> i = j /\ t = t'.
Proof.
  unfold objId. intros He.
  apply (inj (String.app "obj-")) in He. apply (inj (String.app sid)) in He.
  apply (inj (String.app "-")) in He.
  apply dashFree_split in He as [Hi Ht]; [|apply pretty_nat_dashFree..].
  split; [by apply (inj pretty)|by apply (inj pretty)].
Qed.
End Identity.

(** X10. Within one run the ids are pairwise distinct: objects at different
    indices of the result never share an id. *)
Theorem ids_are_distinct_within_a_run (width height : Z) (data : list Z) (host : Host)
    (sid : string) (results : list Obj.t) (i j : nat) (o1 o2 : Obj.t) :
  0 <= width -> 0 <= height ->
  segmentImage width height data host sid = Some results ->
  results !! i = Some o1 -> results !! j = Some o2 ->
  i <> j -> Obj.id o1 <> Obj.id o2.
Proof.
  intros Hw Hh Hrun H1 H2 Hij Hid.
  destruct (segmentImage_run width height data host sid Hw Hh)
    as (regions & results' & _ & Hrun' & _ & Hobj).
  rewrite Hrun in Hrun'. injection Hrun' as <-.
  destruct (Hobj i o1 H1) as (_ & _ & _ & _ & Hid1).
  destruct (Hobj j o2 H2) as (_ & _ & _ & _ & Hid2).
  rewrite Hid1, Hid2 in Hid. by apply objId_inj in Hid as [? _].
Qed.

Lemma ids_are_distinct_within_a_run_witness :
  exists results o1 o2,
    0 <= 54 /\ 0 <= 11 /\
    segmentImage 54 11 twoDots testHost "a" = Some results /\
    results !! 0%nat = Some o1 /\ results !! 1%nat = Some o2 /\
    Obj.id o1 <> Obj.id o2.
Proof.
  destruct (segmentImage 54 11 twoDots testHost "a") as [results|] eqn:Hrun;
    [|vm_compute in Hrun; discriminate].
  destruct results as [|o1 results]; [vm_compute in Hrun; discriminate|].
  destruct results as [|o2 results]; [vm_compute in Hrun; discriminate|].
  exists (o1 :: o2 :: results), o1, o2.
  split; [lia|]. split; [lia|]. split; [reflexivity|]. split; [reflexivity|].
  split; [reflexivity|].
  apply (ids_are_distinct_within_a_run 54 11 twoDots testHost "a" (o1 :: o2 :: results)
           0%nat 1%nat o1 o2); [lia|lia|exact Hrun|reflexivity|reflexivity|lia].
Defined.

(** ** Pixel loops: facts *)

Lemma foldl_seqZ_inv {A} (I : Z -> A -> Prop) (body : A -> Z -> A) (m : Z) (a : A) :
  0 <= m -> I 0 a ->
  (forall k a, 0 <= k < m -> I k a -> I (k + 1) (body a k)) ->
  I m (foldl body a (seqZ 0 m)).
Proof.
  intros Hm H0 Hstep.
  assert (Hgen : forall kn : nat, Z.of_nat kn <= m ->
            I (Z.of_nat kn) (foldl body a (seqZ 0 (Z.of_nat kn)))).
  { induction kn as [|kn IH]; intros Hk; [done|].
    rewrite seqZ_S, foldl_app, Z.add_0_l. simpl.
    replace (Z.of_nat (S kn)) with (Z.of_nat kn + 1) by lia.
    apply Hstep; [lia|]. apply IH. lia. }
  rewrite <- (Z2Nat.id m Hm). apply Hgen. lia.
Qed.

Lemma pixelRounds_bounds len : 0 <= len -> 0 <= pixelRounds len /\
  forall j, 0 <= j < len -> j / 4 < pixelRounds len.
Proof.
  intros Hl. unfold pixelRounds. split.
  - apply Z.div_pos; lia.
  - intros j Hj. apply Z.div_lt_upper_bound; [lia|].
    pose proof (Z.div_mod (len + 3) 4 ltac:(lia)).
    pose proof (Z.mod_pos_bound (len + 3) 4 ltac:(lia)). lia.
Qed.

Lemma applyMask_read (originalData maskData : list Z) (j : Z) :
  length (applyMask originalData maskData) = length originalData /\
  (0 <= j < Z.of_nat (length originalData) ->
   read (applyMask originalData maskData) j =
     if j `mod` 4 =? 3 then Some (clamp8 (default 0 (read maskData (j - 3))))
     else read originalData j).
Proof.
  unfold applyMask.
  destruct (pixelRounds_bounds (Z.of_nat (length originalData)) ltac:(lia)) as [Hr0 Hr].
  pose proof (foldl_seqZ_inv
    (fun k od => length od = length originalData /\
       forall j, 0 <= j < Z.of_nat (length originalData) ->
         read od j = if (j `mod` 4 =? 3) && (j / 4 <? k)
                     then Some (clamp8 (default 0 (read maskData (j - 3))))
                     else read originalData j)
    (fun od k => store od (k * 4 + 3) (read maskData (k * 4)))
    (pixelRounds (Z.of_nat (length originalData))) originalData Hr0) as Hinv.
  destruct Hinv as [Hlen Hread].
  - split; [done|]. intros i Hi.
    destruct (Z.ltb_spec (i / 4) 0); [|by rewrite andb_false_r].
    pose proof (Z.div_pos i 4 ltac:(lia) ltac:(lia)). lia.
  - intros k od Hk [Hl Hrd]. split; [unfold store; by rewrite length_write|].
    intros i Hi. unfold store. rewrite read_write, Hl.
    pose proof (Z.div_mod i 4 ltac:(lia)). pose proof (Z.mod_pos_bound i 4 ltac:(lia)).
    case_decide as Hd.
    + destruct Hd as [<- _].
      replace ((k * 4 + 3) `mod` 4) with 3
        by (rewrite Z.add_comm, Z.mod_add by lia; done).
      replace ((k * 4 + 3) / 4) with k
        by (rewrite Z.add_comm, Z.div_add by lia; done).
      replace (k * 4 + 3 - 3) with (k * 4) by lia.
      simpl. destruct (Z.ltb_spec k (k + 1)); [done|lia].
    + rewrite Hrd by done.
      destruct (Z.eqb_spec (i `mod` 4) 3) as [Hm|Hm]; [|done]. simpl.
      assert (i / 4 <> k) by (intros <-; apply Hd; split; lia).
      destruct (Z.ltb_spec (i / 4) k), (Z.ltb_spec (i / 4) (k + 1)); try done; lia.
  - split; [done|]. intros Hj. rewrite Hread by done.
    destruct (Z.ltb_spec (j / 4) (pixelRounds (Z.of_nat (length originalData))));
      [by rewrite andb_true_r|].
    specialize (Hr j Hj). lia.
Qed.

(** X11. The worker's mask loop keeps the length of the image and its colour
    bytes, and sets the alpha byte of every pixel to the first byte of the
    same pixel of the mask (clamped to a byte, 0 when the mask is too
    short). *)
Theorem applyMask_sets_alpha_only (originalData maskData : list Z) (j : Z) :
  0 <= j < Z.of_nat (length originalData) ->
  length (applyMask originalData maskData) = length originalData /\
  read (applyMask originalData maskData) j =
    if j `mod` 4 =? 3 then Some (clamp8 (default 0 (read maskData (j - 3))))
    else read originalData j.
Proof.
  intros Hj. destruct (applyMask_read originalData maskData j) as [Hl Hr]. split; [done|].
  by apply Hr.
Qed.

Lemma applyMask_sets_alpha_only_witness :
  0 <= 7 < Z.of_nat (length twoPixels) /\
  read (applyMask twoPixels twoMasks) 7 = Some 7 /\
  read (applyMask twoPixels twoMasks) 6 = Some 60.
Proof.
  split; [simpl; lia|]. split.
  - destruct (applyMask_sets_alpha_only twoPixels twoMasks 7 ltac:(simpl; lia)) as [_ Hr].
    rewrite Hr. reflexivity.
  - reflexivity.
Defined.

Lemma clamp8_gt v : (ALPHA_THRESHOLD <? clamp8 v) = (ALPHA_THRESHOLD <? v).
Proof.
  unfold clamp8, ALPHA_THRESHOLD.
  destruct (Z.ltb_spec 20 (Z.max 0 (Z.min 255 v))), (Z.ltb_spec 20 v); try done; lia.
Qed.

(** X12. On the buffer the worker's mask loop leaves, the segmenter's binary
    map marks a pixel iff the mask's first byte at that pixel is above 20,
    whatever the original alpha was. *)
Theorem mask_decides_foreground (width height : Z) (originalData maskData : list Z) (p : Z) :
  length originalData = Z.to_nat (width * height * 4) ->
  0 <= p < width * height ->
  read (binaryMap width height (applyMask originalData maskData)) p =
    Some (if gt (read maskData (p * 4)) ALPHA_THRESHOLD then 1 else 0).
Proof.
  intros Hlen Hp.
  destruct (binaryMap_read width height (applyMask originalData maskData) p Hp) as [_ ->].
  destruct (applyMask_read originalData maskData (p * 4 + 3)) as [_ Hr].
  rewrite Hr by (rewrite Hlen; lia).
  replace ((p * 4 + 3) `mod` 4) with 3 by (rewrite Z.add_comm, Z.mod_add by lia; done).
  replace (p * 4 + 3 - 3) with (p * 4) by lia. simpl.
  rewrite clamp8_gt. f_equal.
  destruct (read maskData (p * 4)); simpl; done.
Qed.

Lemma mask_decides_foreground_witness :
  length twoPixels = Z.to_nat (2 * 1 * 4) /\ 0 <= 1 < 2 * 1 /\
  read (binaryMap 2 1 (applyMask twoPixels twoMasks)) 1 = Some 0 /\
  read (binaryMap 2 1 twoPixels) 1 = Some 1.
Proof.
  split; [reflexivity|]. split; [lia|]. split.
  - rewrite (mask_decides_foreground 2 1 twoPixels twoMasks 1 eq_refl ltac:(lia)). reflexivity.
  - reflexivity.
Defined.

Lemma initMask_read (idata : list Z) (j : Z) :
  Z.of_nat (length idata) `mod` 4 = 0 ->
  length (initMask idata) = length idata /\
  (0 <= j < Z.of_nat (length idata) ->
   read (initMask idata) j =
     Some (if gt (read idata (j / 4 * 4 + 3)) 0 then 255 else 0)).
Proof.
  intros Hmod. unfold initMask.
  destruct (pixelRounds_bounds (Z.of_nat (length idata)) ltac:(lia)) as [Hr0 Hr].
  pose proof (foldl_seqZ_inv
    (fun k d => length d = length idata /\
       forall j, 0 <= j < Z.of_nat (length idata) ->
         read d j = if j / 4 <? k
                    then Some (if gt (read idata (j / 4 * 4 + 3)) 0 then 255 else 0)
                    else read idata j)
    (fun d k =>
       if gt (read d (k * 4 + 3)) 0 then
         write (write (write (write d (k * 4) 255) (k * 4 + 1) 255) (k * 4 + 2) 255)
               (k * 4 + 3) 255
       else
         write (write (write (write d (k * 4) 0) (k * 4 + 1) 0) (k * 4 + 2) 0)
               (k * 4 + 3) 0)
    (pixelRounds (Z.of_nat (length idata))) idata Hr0) as Hinv.
  destruct Hinv as [Hlen Hread].
  - split; [done|]. intros i Hi.
    destruct (Z.ltb_spec (i / 4) 0); [|done].
    pose proof (Z.div_pos i 4 ltac:(lia) ltac:(lia)). lia.
  - intros k d Hk [Hl Hrd].
    assert (Hk3 : 0 <= k * 4 + 3 < Z.of_nat (length idata)).
    { unfold pixelRounds in Hk.
      pose proof (Z.div_mod (Z.of_nat (length idata)) 4 ltac:(lia)).
      pose proof (Z.div_mod (Z.of_nat (length idata) + 3) 4 ltac:(lia)).
      pose proof (Z.mod_pos_bound (Z.of_nat (length idata) + 3) 4 ltac:(lia)). lia. }
    assert (Hcur : read d (k * 4 + 3) = read idata (k * 4 + 3)).
    { rewrite Hrd by done.
      replace ((k * 4 + 3) / 4) with k by (rewrite Z.add_comm, Z.div_add by lia; done).
      destruct (Z.ltb_spec k k); [lia|done]. }
    rewrite Hcur. split.
    + destruct (gt (read idata (k * 4 + 3)) 0); by rewrite !length_write.
    + intros i Hi.
      pose proof (Z.div_mod i 4 ltac:(lia)). pose proof (Z.mod_pos_bound i 4 ltac:(lia)).
      destruct (decide (i / 4 = k)) as [Hik|Hik].
      * destruct (Z.ltb_spec (i / 4) (k + 1)); [|lia]. rewrite Hik.
        assert (i = k * 4 \/ i = k * 4 + 1 \/ i = k * 4 + 2 \/ i = k * 4 + 3) as Hcase by lia.
        destruct (gt (read idata (k * 4 + 3)) 0);
          rewrite !read_write, !length_write, Hl;
          repeat case_decide; try done; lia.
      * assert (Hother : forall v, read
                  (write (write (write (write d (k * 4) v) (k * 4 + 1) v) (k * 4 + 2) v)
                         (k * 4 + 3) v) i = read d i).
        { intros v. rewrite !read_write_ne by lia. done. }
        destruct (gt (read idata (k * 4 + 3)) 0); rewrite Hother, Hrd by done;
          destruct (Z.ltb_spec (i / 4) k), (Z.ltb_spec (i / 4) (k + 1)); try done; lia.
  - split; [done|]. intros Hj. rewrite Hread by done.
    destruct (Z.ltb_spec (j / 4) (pixelRounds (Z.of_nat (length idata)))); [done|].
    specialize (Hr j Hj). lia.
Qed.

(** X13. The editor's mask initialisation keeps the length, turns every
    pixel with alpha above 0 into opaque white and every other pixel into
    transparent black, and doing it twice changes nothing more. *)
Theorem initMask_binarizes (idata : list Z) :
  Z.of_nat (length idata) `mod` 4 = 0 ->
  length (initMask idata) = length idata /\
  (forall j, 0 <= j < Z.of_nat (length idata) ->
     read (initMask idata) j =
       Some (if gt (read idata (j / 4 * 4 + 3)) 0 then 255 else 0)) /\
  initMask (initMask idata) = initMask idata.
Proof.
  intros Hmod.
  assert (Hlen : length (initMask idata) = length idata) by (by apply (initMask_read idata 0)).
  split; [done|]. split.
  - intros j Hj. by apply initMask_read.
  - apply list_eq. intros n.
    destruct (decide (n < length idata)%nat) as [Hn|Hn].
    + assert (Hj : 0 <= Z.of_nat n < Z.of_nat (length idata)) by lia.
      assert (Hrd : forall a, a !! n = read a (Z.of_nat n)).
      { intros a. unfold read. destruct (Z.leb_spec 0 (Z.of_nat n)); [|lia].
        by rewrite Nat2Z.id. }
      rewrite !Hrd.
      destruct (initMask_read (initMask idata) (Z.of_nat n)) as [_ Hr2]; [by rewrite Hlen|].
      rewrite Hr2 by (by rewrite Hlen).
      destruct (initMask_read idata (Z.of_nat n) Hmod) as [_ Hr1]. rewrite Hr1 by done.
      destruct (initMask_read idata (Z.of_nat n / 4 * 4 + 3) Hmod) as [_ Hr3].
      rewrite Hr3.
      2:{ pose proof (Z.div_mod (Z.of_nat n) 4 ltac:(lia)).
          pose proof (Z.mod_pos_bound (Z.of_nat n) 4 ltac:(lia)).
          pose proof (Z.div_mod (Z.of_nat (length idata)) 4 ltac:(lia)). lia. }
      replace ((Z.of_nat n / 4 * 4 + 3) / 4) with (Z.of_nat n / 4)
        by (rewrite Z.add_comm, Z.div_add by lia; done).
      by destruct (gt (read idata (Z.of_nat n / 4 * 4 + 3)) 0).
    + rewrite !lookup_ge_None_2; [done|lia|]. destruct (initMask_read (initMask idata) 0) as [-> _];
        [by rewrite Hlen|]. lia.
Qed.

Lemma initMask_binarizes_witness :
  Z.of_nat (length twoMasks) `mod` 4 = 0 /\
  initMask (initMask twoMasks) = initMask twoMasks /\
  initMask [9; 9; 9; 1; 9; 9; 9; 0] = [255; 255; 255; 255; 0; 0; 0; 0].
Proof.
  split; [reflexivity|]. split.
  - apply (initMask_binarizes twoMasks). reflexivity.
  - reflexivity.
Defined.

(** ** The editor component: facts *)

Section EditorFacts.
Import Editor.

Lemma find_Some_elem {A} (f : A -> bool) (l : list A) (a : A) :
  List.find f l = Some a -> a ∈ l /\ f a = true.
Proof.
  induction l as [|b l IH]; simpl; [done|].
  destruct (f b) eqn:E.
  - intros [= ->]. split; [left|done].
  - intros H. destruct (IH H). split; [by right|done].
Qed.

Lemma find_is_Some {A} (f : A -> bool) (l : list A) (a : A) :
  a ∈ l -> f a = true -> is_Some (List.find f l).
Proof.
  induction l as [|b l IH]; simpl; intros Hin Hf; [by apply elem_of_nil in Hin|].
  destruct (f b) eqn:E; [by eexists|].
  apply elem_of_cons in Hin as [->|Hin]; [congruence|by apply IH].
Qed.

Lemma filter_removes_one (id : string) (segs : list Obj.t) :
  NoDup (Obj.id <$> segs) -> id ∈ (Obj.id <$> segs) ->
  S (length (filter (fun s => Obj.id s <> id) segs)) = length segs.
Proof.
  induction segs as [|s segs IH]; intros Hnd Hin; [by apply elem_of_nil in Hin|].
  rewrite fmap_cons in Hnd, Hin. apply NoDup_cons in Hnd as [Hs Hnd].
  rewrite filter_cons. destruct (decide (Obj.id s <> id)) as [Hne|He].
  - simpl. f_equal. apply IH; [done|]. apply elem_of_cons in Hin as [|]; [congruence|done].
  - assert (Obj.id s = id) as <- by (by destruct (decide (Obj.id s = id))).
    simpl. f_equal.
    assert (Hall : filter (fun s0 => Obj.id s0 <> Obj.id s) segs = segs); [|by rewrite Hall].
    clear IH Hin Hnd He. induction segs as [|t segs IH]; [done|].
    rewrite fmap_cons in Hs. apply not_elem_of_cons in Hs as [Hne Hs].
    rewrite filter_cons_True by congruence. f_equal. by apply IH.
Qed.
End EditorFacts.

(** X14. [handleRemove] keeps exactly the segments with another id, in
    their order; the selection never points at the removed id and still
    names a present segment if it did before; when the ids are pairwise
    distinct and the id is present, exactly one segment goes. *)
Theorem handleRemove_removes_by_id (id : string) (st : Editor.State) :
  Editor.selectionOk st ->
  (forall s, s ∈ Editor.segments (Editor.handleRemove id st) <->
             s ∈ Editor.segments st /\ Obj.id s <> id) /\
  sublist (Editor.segments (Editor.handleRemove id st)) (Editor.segments st) /\
  Editor.selectionOk (Editor.handleRemove id st) /\
  Editor.selectedId (Editor.handleRemove id st) <> Some id /\
  (NoDup (Obj.id <$> Editor.segments st) -> id ∈ (Obj.id <$> Editor.segments st) ->
   S (length (Editor.segments (Editor.handleRemove id st))) = length (Editor.segments st)).
Proof.
  intros Hok. unfold Editor.handleRemove. cbn [Editor.segments Editor.selectedId].
  split_and!.
  - intros s. rewrite list_elem_of_filter. tauto.
  - apply sublist_filter.
  - intros id' Hsel. cbn [Editor.segments Editor.selectedId] in *.
    case_bool_decide as Hd; [done|].
    destruct (Hok id' Hsel) as (s & Hs & Hid). exists s. split; [|done].
    apply list_elem_of_filter. split; [|done]. congruence.
  - case_bool_decide as Hd; [done|]. done.
  - apply filter_removes_one.
Qed.

Lemma handleRemove_removes_by_id_witness :
  Editor.selectionOk editorSample /\
  Editor.segments (Editor.handleRemove "obj-b-0-2" editorSample) = [stampA] /\
  Editor.selectedId (Editor.handleRemove "obj-b-0-2" editorSample) <> Some "obj-b-0-2".
Proof.
  assert (Hok : Editor.selectionOk editorSample).
  { intros id [= <-]. exists stampB. split; [right; left|reflexivity]. }
  split; [exact Hok|]. split; [reflexivity|].
  apply (handleRemove_removes_by_id "obj-b-0-2" editorSample Hok).
Defined.

(** X15. [handleSaveEdit] closes the editor and leaves the selection, the
    number and order of the segments, and every id, sourceId, position and
    dimension as they were; only the url changes, and only on segments with
    the id of the edited one. *)
Theorem handleSaveEdit_changes_only_the_url (newUrl : string) (st : Editor.State) (e : Obj.t) :
  Editor.editingSegment st = Some e ->
  let st' := Editor.handleSaveEdit newUrl st in
  Editor.editingSegment st' = None /\
  Editor.selectedId st' = Editor.selectedId st /\
  length (Editor.segments st') = length (Editor.segments st) /\
  (forall i s, Editor.segments st !! i = Some s ->
     exists s', Editor.segments st' !! i = Some s' /\
       Obj.id s' = Obj.id s /\ Obj.sourceId s' = Obj.sourceId s /\
       Obj.x s' = Obj.x s /\ Obj.y s' = Obj.y s /\
       Obj.width s' = Obj.width s /\ Obj.height s' = Obj.height s /\
       Obj.url s' = if bool_decide (Obj.id s = Obj.id e) then newUrl else Obj.url s) /\
  (Editor.selectionOk st -> Editor.selectionOk st').
Proof.
  intros He st'. subst st'. unfold Editor.handleSaveEdit. rewrite He.
  cbn [Editor.segments Editor.selectedId Editor.editingSegment].
  assert (Hlook : forall i s, Editor.segments st !! i = Some s ->
     exists s', ((fun s => if bool_decide (Obj.id s = Obj.id e)
                           then Editor.withUrl s newUrl else s) <$> Editor.segments st) !! i
                = Some s' /\
       Obj.id s' = Obj.id s /\ Obj.sourceId s' = Obj.sourceId s /\
       Obj.x s' = Obj.x s /\ Obj.y s' = Obj.y s /\
       Obj.width s' = Obj.width s /\ Obj.height s' = Obj.height s /\
       Obj.url s' = if bool_decide (Obj.id s = Obj.id e) then newUrl else Obj.url s).
  { intros i s Hi. rewrite list_lookup_fmap, Hi. simpl. eexists. split; [done|].
    by case_bool_decide. }
  split_and!; [done|done|by rewrite length_fmap|exact Hlook|].
  intros Hok id Hsel. cbn [Editor.segments Editor.selectedId] in *.
  destruct (Hok id Hsel) as (s & Hs & Hid).
  apply list_elem_of_lookup in Hs as (i & Hi).
  destruct (Hlook i s Hi) as (s' & Hi' & Hid' & _).
  exists s'. split; [by eapply list_elem_of_lookup_2|congruence].
Qed.

Lemma handleSaveEdit_changes_only_the_url_witness :
  Editor.editingSegment editorSample = Some stampB /\
  Editor.segments (Editor.handleSaveEdit "blob:9" editorSample) =
    [stampA; Editor.withUrl stampB "blob:9"] /\
  Editor.editingSegment (Editor.handleSaveEdit "blob:9" editorSample) = None.
Proof.
  split; [reflexivity|]. split; [reflexivity|].
  apply (handleSaveEdit_changes_only_the_url "blob:9" editorSample stampB eq_refl).
Defined.

(** X16. When a segment is selected, the current source is that segment's
    source, the segment itself is in the current view, and the view holds
    exactly the segments of that source. *)
Theorem selected_segment_is_in_view (sourceImages : JsMap string) (st : Editor.State)
    (s : Obj.t) :
  Editor.selectedSegment st = Some s ->
  Editor.currentSourceId sourceImages st = Some (Obj.sourceId s) /\
  s ∈ Editor.currentViewSegments sourceImages st /\
  (forall t, t ∈ Editor.currentViewSegments sourceImages st <->
             t ∈ Editor.segments st /\ Obj.sourceId t = Obj.sourceId s).
Proof.
  intros Hsel. unfold Editor.currentViewSegments, Editor.currentSourceId. rewrite Hsel.
  unfold Editor.selectedSegment in Hsel. destruct (Editor.selectedId st) as [id|]; [|done].
  apply find_Some_elem in Hsel as [Hin _].
  split_and!; [done| |].
  - apply list_elem_of_filter. by split.
  - intros t. rewrite list_elem_of_filter. split; [intros [[= ?] ?]|intros [? ->]]; done.
Qed.

Lemma selected_segment_is_in_view_witness :
  Editor.selectedSegment editorSample = Some stampB /\
  stampB ∈ Editor.currentViewSegments [("a", "blob:a"); ("b", "blob:b")] editorSample.
Proof.
  split; [reflexivity|].
  destruct (selected_segment_is_in_view [("a", "blob:a"); ("b", "blob:b")] editorSample stampB
              eq_refl) as (_ & Hin & _).
  exact Hin.
Defined.

Section ExportNames.
Lemma length_append (a t : string) :
  String.length (a +:+ t) = (String.length a + String.length t)%nat.
Proof. induction a as [|ch a IH]; simpl; [done|]. by rewrite IH. Qed.

Lemma append_inj_r (a b t : string) : a +:+ t = b +:+ t -> a = b.
Proof.
  intros He.
  assert (Hlen : String.length a = String.length b).
  { apply (f_equal String.length) in He. rewrite !length_append in He. lia. }
  revert b He Hlen. induction a as [|ch a IH]; intros [|ch' b] He Hlen; simpl in *;
    try done.
  injection He as -> He. f_equal. apply IH; [done|lia].
Qed.

Lemma exportName_inj (i j : nat) :
  "stamp-" +:+ pretty (i + 1)%nat +:+ ".png" = "stamp-" +:+ pretty (j + 1)%nat +:+ ".png" ->
  i = j.
Proof.
  intros He. apply (inj (String.app "stamp-")) in He. apply append_inj_r in He.
  apply (inj pretty) in He. lia.
Qed.
End ExportNames.

(** X17. [handleExportAll] files every segment under a name of its own: as
    many names as segments, no two equal. *)
Theorem export_names_are_distinct (segs : list Obj.t) :
  length (Editor.exportNames segs) = length segs /\
  NoDup (Editor.exportNames segs).
Proof.
  unfold Editor.exportNames. split; [apply length_imap|].
  apply NoDup_alt. intros i j name Hi Hj.
  apply list_lookup_imap_Some in Hi as (s & _ & ->).
  apply list_lookup_imap_Some in Hj as (t & _ & He).
  by apply exportName_inj.
Qed.

(** ** The background-removal hook: facts *)

Section HookFacts.
Import BgRemoval.
Variables (Num : Type) (numTruthy : Num -> bool) (hundred : Num).

Lemma onmessage_inv (st : State Num) (msg : Message Num) :
  status Num st <> loading ->
  (status Num st = processing -> progress Num st = hundred) ->
  status Num (onmessage Num numTruthy hundred st msg) <> loading /\
  (status Num (onmessage Num numTruthy hundred st msg) = processing ->
   progress Num (onmessage Num numTruthy hundred st msg) = hundred).
Proof.
  intros Hl Hp. destruct msg as [s p| | |]; simpl; try done.
  repeat case_bool_decide; simpl; done.
Qed.

Lemma listener_silent (p : Promise) (msgs : list (Message Num)) :
  foldl (onMessage Num) (false, p) msgs = (false, p).
Proof. induction msgs as [|m msgs IH]; [done|]. simpl. exact IH. Qed.
End HookFacts.

(** X21. Whatever messages arrive, the hook's status is never [loading]
    (the worker's 'loading' status message changes nothing), and whenever
    the status is [processing] the progress is 100. *)
Theorem status_is_never_loading (Num : Type) (numTruthy : Num -> bool) (hundred zero : Num)
    (msgs : list (BgRemoval.Message Num)) :
  let st := foldl (BgRemoval.onmessage Num numTruthy hundred)
                  {| BgRemoval.status := BgRemoval.idle; BgRemoval.progress := zero |} msgs in
  BgRemoval.status Num st <> BgRemoval.loading /\
  (BgRemoval.status Num st = BgRemoval.processing -> BgRemoval.progress Num st = hundred) /\
  BgRemoval.onmessage Num numTruthy hundred st (BgRemoval.StatusMsg Num "loading" None) = st.
Proof.
  cbv zeta.
  assert (Hinv : forall st : BgRemoval.State Num,
    BgRemoval.status Num st <> BgRemoval.loading ->
    (BgRemoval.status Num st = BgRemoval.processing -> BgRemoval.progress Num st = hundred) ->
    BgRemoval.status Num (foldl (BgRemoval.onmessage Num numTruthy hundred) st msgs)
      <> BgRemoval.loading /\
    (BgRemoval.status Num (foldl (BgRemoval.onmessage Num numTruthy hundred) st msgs)
       = BgRemoval.processing ->
     BgRemoval.progress Num (foldl (BgRemoval.onmessage Num numTruthy hundred) st msgs)
       = hundred)).
  { induction msgs as [|m msgs IH]; intros st Hl Hp; [done|]. simpl.
    destruct (onmessage_inv Num numTruthy hundred st m Hl Hp). by apply IH. }
  destruct (Hinv {| BgRemoval.status := BgRemoval.idle; BgRemoval.progress := zero |})
    as [Hl Hp]; [done..|].
  split_and!; done.
Qed.

(** X22. The promise of [processImage] stays pending while only status
    messages arrive and is settled by the first 'complete' or 'error'
    message; nothing that arrives later changes it. *)
Theorem processImage_settles_once (Num : Type) (before after : list (BgRemoval.Message Num))
    (msg : BgRemoval.Message Num) :
  Forall (fun m => BgRemoval.settles Num m = false) before ->
  BgRemoval.settles Num msg = true ->
  BgRemoval.processImage Num before = BgRemoval.Pending /\
  BgRemoval.processImage Num (before ++ msg :: after) =
    match msg with
    | BgRemoval.CompleteMsg _ b => BgRemoval.Resolved b
    | BgRemoval.ErrorMsg _ d => BgRemoval.Rejected d
    | _ => BgRemoval.Pending
    end.
Proof.
  intros Hbefore Hmsg. unfold BgRemoval.processImage.
  assert (Hpre : foldl (BgRemoval.onMessage Num) (true, BgRemoval.Pending) before
                 = (true, BgRemoval.Pending)).
  { induction Hbefore as [|m before Hm _ IH]; [done|]. simpl.
    destruct m; simpl in *; try done. }
  split; [by rewrite Hpre|].
  rewrite foldl_app, Hpre. simpl.
  destruct msg; simpl in *; try done; by rewrite listener_silent.
Qed.

Lemma processImage_settles_once_witness :
  BgRemoval.processImage Z
    [BgRemoval.StatusMsg Z "processing" None; BgRemoval.ErrorMsg Z "boom";
     BgRemoval.CompleteMsg Z dotBitmap]
  = BgRemoval.Rejected "boom".
Proof.
  apply (processImage_settles_once Z [BgRemoval.StatusMsg Z "processing" None]
           [BgRemoval.CompleteMsg Z dotBitmap] (BgRemoval.ErrorMsg Z "boom")).
  - repeat constructor.
  - reflexivity.
Defined.

(** ** Batch processing: facts *)

Section MapFacts.
Context {V : Type}.

Lemma mapGet_mapSet_eq (m : JsMap V) k v : mapGet (mapSet m k v) k = Some v.
Proof.
  induction m as [|[k' v'] m IH]; unfold mapGet in *; simpl.
  - by rewrite bool_decide_true.
  - case_bool_decide as Hd; simpl.
    + by rewrite bool_decide_true.
    + rewrite bool_decide_false by done. exact IH.
Qed.

Lemma mapGet_mapSet_ne (m : JsMap V) k k' v :
  k <> k' -> mapGet (mapSet m k v) k' = mapGet m k'.
Proof.
  intros Hne. induction m as [|[k0 v0] m IH]; unfold mapGet in *; simpl.
  - by rewrite bool_decide_false.
  - case_bool_decide as Hd; simpl.
    + subst k0. by rewrite !bool_decide_false.
    + case_bool_decide; [done|exact IH].
Qed.

Lemma mapGet_mapSet_is_Some (m : JsMap V) k k' v :
  is_Some (mapGet m k') -> is_Some (mapGet (mapSet m k v) k').
Proof.
  intros Hs. destruct (decide (k = k')) as [->|Hne].
  - rewrite mapGet_mapSet_eq. by eexists.
  - by rewrite mapGet_mapSet_ne.
Qed.
End MapFacts.

Section Batches.
Import App.
Variable host : FileHost.

Lemma segmentImage_sourceId (b : Bitmap) (h : Host) (sid : string) :
  exists segs,
    segmentImage (Z.of_N (bmWidth b)) (Z.of_N (bmHeight b)) (bmData b) h sid = Some segs /\
    forall s, s ∈ segs -> Obj.sourceId s = sid.
Proof.
  destruct (segmentImage_run (Z.of_N (bmWidth b)) (Z.of_N (bmHeight b)) (bmData b) h sid
              ltac:(lia) ltac:(lia)) as (regions & segs & _ & Hrun & _ & Hobj).
  exists segs. split; [done|]. intros s (i & Hi)%list_elem_of_lookup.
  by destruct (Hobj i s Hi) as (_ & _ & _ & ? & _).
Qed.

(** One file: it never fails for want of fuel, keeps what was collected,
    and keeps every segment linked to its source. *)
Lemma processFile_spec (i : nat) (acc : Batch) :
  exists res, processFile host i acc = Some res /\
    let acc' := match res with Continues a | Throws a | Waits a => a end in
    newSegments acc `prefix_of` newSegments acc' /\
    (match res with
     | Continues _ => exists b, processImage host i (fileURL host i) = BgRemoval.Resolved b
     | Throws _ => (exists d, processImage host i (fileURL host i) = BgRemoval.Rejected d) /\
                   newSegments acc' = newSegments acc
     | Waits _ => processImage host i (fileURL host i) = BgRemoval.Pending
     end) /\
    (forall k, is_Some (mapGet (newSourceImages acc) k) ->
               is_Some (mapGet (newSourceImages acc') k)) /\
    (forall k, is_Some (mapGet (newProcessedBitmaps acc) k) ->
               is_Some (mapGet (newProcessedBitmaps acc') k)) /\
    is_Some (mapGet (newSourceImages acc') (randomUUID host i)) /\
    (segmentsLinked (newSourceImages acc) (newProcessedBitmaps acc) (newSegments acc) ->
     segmentsLinked (newSourceImages acc') (newProcessedBitmaps acc') (newSegments acc')).
Proof.
  unfold processFile.
  destruct (processImage host i (fileURL host i)) as [|bitmap|d].
  - eexists. split; [reflexivity|]. cbn [newSegments newSourceImages newProcessedBitmaps].
    split; [done|]. split; [done|]. split; [|split; [done|split]].
    + intros k. apply mapGet_mapSet_is_Some.
    + rewrite mapGet_mapSet_eq. by eexists.
    + intros Hl s Hs. destruct (Hl s Hs). split; [by apply mapGet_mapSet_is_Some|done].
  - destruct (segmentImage_sourceId bitmap (segmentHost host i) (randomUUID host i))
      as (segs & -> & Hsid).
    eexists. split; [reflexivity|]. cbn [newSegments newSourceImages newProcessedBitmaps].
    split; [by apply prefix_app_r|]. split; [by exists bitmap|].
    split; [|split; [|split]].
    + intros k. apply mapGet_mapSet_is_Some.
    + intros k. apply mapGet_mapSet_is_Some.
    + rewrite mapGet_mapSet_eq. by eexists.
    + intros Hl s [Hs | Hs]%elem_of_app.
      * destruct (Hl s Hs). split; by apply mapGet_mapSet_is_Some.
      * rewrite (Hsid s Hs), !mapGet_mapSet_eq. split; by eexists.
  - eexists. split; [reflexivity|]. cbn [newSegments newSourceImages newProcessedBitmaps].
    split; [done|]. split; [split; [by exists d|done]|]. split; [|split; [done|split]].
    + intros k. apply mapGet_mapSet_is_Some.
    + rewrite mapGet_mapSet_eq. by eexists.
    + intros Hl s Hs. destruct (Hl s Hs). split; [by apply mapGet_mapSet_is_Some|done].
Qed.

Lemma runBatch_spec (n i : nat) (acc : Batch) :
  exists acc' ending, runBatch host i n acc = Some (acc', ending) /\
    newSegments acc `prefix_of` newSegments acc' /\
    (forall k, is_Some (mapGet (newSourceImages acc) k) ->
               is_Some (mapGet (newSourceImages acc') k)) /\
    (forall k, is_Some (mapGet (newProcessedBitmaps acc) k) ->
               is_Some (mapGet (newProcessedBitmaps acc') k)) /\
    (segmentsLinked (newSourceImages acc) (newProcessedBitmaps acc) (newSegments acc) ->
     segmentsLinked (newSourceImages acc') (newProcessedBitmaps acc') (newSegments acc')) /\
    match ending with
    | Finished =>
        forall j, (i <= j < i + n)%nat ->
          (exists b, processImage host j (fileURL host j) = BgRemoval.Resolved b) /\
          is_Some (mapGet (newSourceImages acc') (randomUUID host j))
    | Threw j =>
        (i <= j < i + n)%nat /\
        (exists d, processImage host j (fileURL host j) = BgRemoval.Rejected d) /\
        forall j', (i <= j' < j)%nat ->
          exists b, processImage host j' (fileURL host j') = BgRemoval.Resolved b
    | Stuck j =>
        (i <= j < i + n)%nat /\
        processImage host j (fileURL host j) = BgRemoval.Pending /\
        forall j', (i <= j' < j)%nat ->
          exists b, processImage host j' (fileURL host j') = BgRemoval.Resolved b
    end.
Proof.
  revert i acc. induction n as [|n IH]; intros i acc.
  - exists acc, Finished. simpl. split; [done|]. split; [reflexivity|].
    split; [auto|]. split; [auto|]. split; [auto|]. intros j Hj. lia.
  - simpl. destruct (processFile_spec i acc) as (res & Hres & Hpre & Hp & Hs & Hb & Hkey & Hl).
    rewrite Hres. destruct res as [acc1|acc1|acc1]; cbn zeta in *.
    + destruct (IH (S i) acc1) as (acc' & ending & Hrun & Hpre' & Hs' & Hb' & Hl' & Hend).
      exists acc', ending. split; [done|]. split; [by etrans|].
      split; [auto|]. split; [auto|]. split; [auto|].
      destruct ending as [|j|j].
      * intros j Hj. destruct (decide (j = i)) as [->|]; [|apply Hend; lia].
        split; [done|]. by apply Hs'.
      * destruct Hend as (Hj & Hrej & Hbefore). split; [lia|]. split; [done|].
        intros j' Hj'. destruct (decide (j' = i)) as [->|]; [done|apply Hbefore; lia].
      * destruct Hend as (Hj & Hpend & Hbefore). split; [lia|]. split; [done|].
        intros j' Hj'. destruct (decide (j' = i)) as [->|]; [done|apply Hbefore; lia].
    + exists acc1, (Threw i). destruct Hp as [Hrej Hsame].
      split; [done|]. split; [done|]. split; [done|].
      split; [done|]. split; [done|]. split; [lia|]. split; [done|].
      intros j' Hj'. lia.
    + exists acc1, (Stuck i).
      split; [done|]. split; [done|]. split; [done|].
      split; [done|]. split; [done|]. split; [lia|]. split; [done|].
      intros j' Hj'. lia.
Qed.
End Batches.

(** X18. Whether [handleFiles] returns or stays at an [await] for ever, the
    state it leaves has the segments collected before as a prefix of its
    segments and has lost no key of either map. With no file it returns
    with the state unchanged. While it stays awaiting, the screen is
    [processing] and maps and segments are those from before the call; once
    it has returned from a call with files, the screen is the editor or the
    upload screen. *)
Theorem handleFiles_keeps_segments (host : App.FileHost) (files : nat) (st : App.State) :
  exists out, App.handleFiles host files st = Some out /\
    App.allSegments st `prefix_of` App.allSegments (App.lastState out) /\
    (forall k, is_Some (mapGet (App.sourceImages st) k) ->
               is_Some (mapGet (App.sourceImages (App.lastState out)) k)) /\
    (forall k, is_Some (mapGet (App.processedBitmaps st) k) ->
               is_Some (mapGet (App.processedBitmaps (App.lastState out)) k)) /\
    (files = 0%nat -> out = App.Returned st) /\
    (forall st', out = App.Awaiting st' ->
       App.appState st' = processing /\
       App.sourceImages st' = App.sourceImages st /\
       App.processedBitmaps st' = App.processedBitmaps st /\
       App.allSegments st' = App.allSegments st) /\
    (forall st', out = App.Returned st' -> (0 < files)%nat ->
       App.appState st' = editor \/ App.appState st' = upload).
Proof.
  unfold App.handleFiles. destruct (Nat.eqb_spec files 0) as [->|Hne].
  { exists (App.Returned st). split; [done|]. split; [done|]. split; [done|].
    split; [done|]. split; [done|]. split; [done|]. intros st' _ Hpos. lia. }
  destruct (runBatch_spec host files 0
              {| App.newSourceImages := App.sourceImages st;
                 App.newProcessedBitmaps := App.processedBitmaps st;
                 App.newSegments := App.allSegments st |})
    as (acc & ending & -> & Hpre & Hs & Hb & _ & _).
  cbn [App.newSegments App.newSourceImages App.newProcessedBitmaps] in *.
  destruct ending as [|i|i].
  - eexists. split; [reflexivity|]. cbn [App.lastState App.allSegments App.sourceImages
      App.processedBitmaps].
    split; [done|]. split; [done|]. split; [done|]. split; [done|]. split; [done|].
    intros st' [= <-] _. by left.
  - destruct (0 <? length (App.newSegments acc))%nat.
    + eexists. split; [reflexivity|]. cbn [App.lastState App.allSegments App.sourceImages
        App.processedBitmaps].
      split; [done|]. split; [done|]. split; [done|]. split; [done|]. split; [done|].
      intros st' [= <-] _. by left.
    + eexists. split; [reflexivity|]. cbn [App.lastState App.allSegments App.sourceImages
        App.processedBitmaps].
      split; [done|]. split; [done|]. split; [done|]. split; [done|]. split; [done|].
      intros st' [= <-] _. by right.
  - eexists. split; [reflexivity|]. cbn [App.lastState App.allSegments App.sourceImages
      App.processedBitmaps].
    split; [done|]. split; [done|]. split; [done|]. split; [done|].
    split; [|done]. intros st' [= <-]. done.
Qed.

(** X19. [handleFiles] keeps every segment linked: if each segment's
    sourceId has an entry in [sourceImages] and in [processedBitmaps]
    before, the same holds in the state it leaves, returned or not. *)
Theorem handleFiles_keeps_segments_linked (host : App.FileHost) (files : nat)
    (st : App.State) (out : App.Outcome) :
  App.handleFiles host files st = Some out ->
  App.segmentsLinked (App.sourceImages st) (App.processedBitmaps st) (App.allSegments st) ->
  App.segmentsLinked (App.sourceImages (App.lastState out))
                     (App.processedBitmaps (App.lastState out))
                     (App.allSegments (App.lastState out)).
Proof.
  unfold App.handleFiles. destruct (Nat.eqb_spec files 0) as [->|Hne].
  { by intros [= <-]. }
  destruct (runBatch_spec host files 0
              {| App.newSourceImages := App.sourceImages st;
                 App.newProcessedBitmaps := App.processedBitmaps st;
                 App.newSegments := App.allSegments st |})
    as (acc & ending & -> & _ & _ & _ & Hl & _).
  cbn [App.newSegments App.newSourceImages App.newProcessedBitmaps] in *.
  destruct ending as [|i|i].
  - intros [= <-]. exact Hl.
  - destruct (0 <? length (App.newSegments acc))%nat; intros [= <-]; [exact Hl|done].
  - intros [= <-]. done.
Qed.

(** X20. With at least one file: [handleFiles] returns in the editor with
    every file's background removal resolved and on record; or some file's
    background removal was rejected after all earlier ones resolved, and it
    returns in the editor when some segment exists and otherwise on the
    upload screen with maps and segments as before; or some file's
    background removal never settles after all earlier ones resolved, and
    the call stays on the processing screen with maps and segments as
    before. *)
Theorem handleFiles_final_screen (host : App.FileHost) (files : nat) (st : App.State)
    (out : App.Outcome) :
  (0 < files)%nat ->
  App.handleFiles host files st = Some out ->
  App.totalFiles (App.lastState out) = Z.of_nat files /\
  match out with
  | App.Returned st' =>
      (App.appState st' = editor /\
       App.currentFileIndex st' = Z.of_nat files /\
       forall j, (j < files)%nat ->
         (exists b, App.processImage host j (App.fileURL host j) = BgRemoval.Resolved b) /\
         is_Some (mapGet (App.sourceImages st') (App.randomUUID host j))) \/
      (exists i, (i < files)%nat /\
         (exists d, App.processImage host i (App.fileURL host i) = BgRemoval.Rejected d) /\
         (forall j, (j < i)%nat ->
            exists b, App.processImage host j (App.fileURL host j) = BgRemoval.Resolved b) /\
         App.currentFileIndex st' = Z.of_nat i + 1 /\
         ((App.appState st' = editor /\ App.allSegments st' <> []) \/
          (App.appState st' = upload /\
           App.allSegments st' = [] /\ App.allSegments st = [] /\
           App.sourceImages st' = App.sourceImages st /\
           App.processedBitmaps st' = App.processedBitmaps st)))
  | App.Awaiting st' =>
      exists i, (i < files)%nat /\
        App.processImage host i (App.fileURL host i) = BgRemoval.Pending /\
        (forall j, (j < i)%nat ->
           exists b, App.processImage host j (App.fileURL host j) = BgRemoval.Resolved b) /\
        App.appState st' = processing /\
        App.currentFileIndex st' = Z.of_nat i + 1 /\
        App.sourceImages st' = App.sourceImages st /\
        App.processedBitmaps st' = App.processedBitmaps st /\
        App.allSegments st' = App.allSegments st
  end.
Proof.
  intros Hpos. unfold App.handleFiles. destruct (Nat.eqb_spec files 0) as [->|Hne]; [lia|].
  destruct (runBatch_spec host files 0
              {| App.newSourceImages := App.sourceImages st;
                 App.newProcessedBitmaps := App.processedBitmaps st;
                 App.newSegments := App.allSegments st |})
    as (acc & ending & -> & Hpre & _ & _ & _ & Hend).
  cbn [App.newSegments App.newSourceImages App.newProcessedBitmaps] in *.
  destruct ending as [|i|i].
  - intros [= <-]. cbn. split; [done|]. left. split; [done|]. split; [done|].
    intros j Hj. apply Hend. lia.
  - destruct Hend as (Hi & Hrej & Hbefore).
    destruct (Nat.ltb_spec 0 (length (App.newSegments acc))) as [Hlen|Hlen];
      intros [= <-]; cbn; (split; [done|]); right; exists i;
      (split; [lia|]); (split; [done|]); (split; [intros j Hj; apply Hbefore; lia|]);
      (split; [done|]).
    + left. split; [done|]. intros Hnil. rewrite Hnil in Hlen. simpl in Hlen. lia.
    + right. assert (App.newSegments acc = []) as Hnil
        by (destruct (App.newSegments acc); [done|simpl in Hlen; lia]).
      rewrite Hnil in Hpre. apply prefix_nil_inv in Hpre. by rewrite Hpre.
  - destruct Hend as (Hi & Hpend & Hbefore). intros [= <-]. cbn. split; [done|].
    exists i. split; [lia|]. split; [done|]. split; [intros j Hj; apply Hbefore; lia|].
    done.
Qed.

Lemma handleFiles_keeps_segments_linked_witness :
  exists out,
    App.handleFiles secondFileFails 2 freshApp = Some out /\
    App.segmentsLinked (App.sourceImages freshApp) (App.processedBitmaps freshApp)
                       (App.allSegments freshApp) /\
    App.segmentsLinked (App.sourceImages (App.lastState out))
                       (App.processedBitmaps (App.lastState out))
                       (App.allSegments (App.lastState out)).
Proof.
  assert (Hl : App.segmentsLinked (App.sourceImages freshApp) (App.processedBitmaps freshApp)
                                  (App.allSegments freshApp)).
  { intros s Hs. apply elem_of_nil in Hs. destruct Hs. }
  destruct (App.handleFiles secondFileFails 2 freshApp) as [out|] eqn:Hrun;
    [|vm_compute in Hrun; discriminate Hrun].
  exists out. split; [reflexivity|]. split; [exact Hl|].
  exact (handleFiles_keeps_segments_linked secondFileFails 2 freshApp out Hrun Hl).
Defined.

Lemma handleFiles_final_screen_witness :
  exists st',
    (0 < 2)%nat /\ App.handleFiles secondFileHangs 2 freshApp = Some (App.Awaiting st') /\
    App.totalFiles st' = 2 /\ App.appState st' = processing /\
    App.processImage secondFileHangs 1 (App.fileURL secondFileHangs 1) = BgRemoval.Pending.
Proof.
  destruct (App.handleFiles secondFileHangs 2 freshApp) as [[st'|st']|] eqn:Hrun;
    [vm_compute in Hrun; discriminate Hrun| |vm_compute in Hrun; discriminate Hrun].
  exists st'. split; [lia|]. split; [reflexivity|].
  destruct (handleFiles_final_screen secondFileHangs 2 freshApp (App.Awaiting st')
              ltac:(lia) Hrun) as [Ht (i & _ & _ & _ & Hscreen & _)].
  split; [exact Ht|]. split; [exact Hscreen|]. reflexivity.
Defined.
